(** * Figure-to-table extraction: a shallow embedding of the trace normaliser

    The development follows the TypeScript module that turns a Plotly-like
    figure into tables: the ndarray helpers ([base64ToBytes],
    [decodeNdarray], [parseShape], [reshape2D], [transpose]), the table
    constructors ([padColumnsToSameLength], [makeTable]), the per-trace
    converters, [extractTables] and [mergeCartesianTables].

    Conventions of the embedding.
    - A JavaScript exception is a value of [Error]; a function that may
      throw returns a [result].
    - A JavaScript number is a [Number]: the special values, an integral
      value [Int z], or a non-integral dyadic value [Frac n k] = n / 2^k with
      [n] odd.  Every IEEE-754 binary32/binary64 datum has exactly one such
      form, computed by [f32_value] and [f64_value].
    - [base64ToBytes] is its first branch, the [atob] of the platform (the
      forgiving base64 decoder), which every browser and current Node has.
    - A date is a valid [Date], held by its time value in milliseconds.
    - The entries of an array [shape] are integers, and the tokens of a
      string [shape] are read as signed decimal integers.
    - Strings are byte strings; case folding acts on ASCII letters.
    - Four services of the host platform are taken as parameters of the
      section [Extraction]: printing a number outside the exactly printed
      integral range, [Date.prototype.toString], [toISOString] and the
      parsing done by [new Date(string)]. *)

From Stdlib Require Import ZArith List String Ascii Bool Lia Permutation.
From Stdlib Require Import DecimalString.
From Stdlib Require DecimalZ.
From Stdlib.Strings Require Import Byte.
Import ListNotations.

Local Open Scope string_scope.
Local Open Scope Z_scope.
Local Open Scope list_scope.

Set Warnings "-register-all".

(* ------------------------------------------------------------------ *)
(** ** Errors and the result monad *)

Inductive Error : Type :=
| UnsupportedDtype (dtype : string)   (* Error("Unsupported ndarray dtype: ...") *)
| InvalidCharacterError               (* thrown by atob on malformed base64 *)
| RangeError.                         (* new Array(n) with n not a valid length *)

Inductive result (A : Type) : Type :=
| Ok (a : A)
| Err (e : Error).
Arguments Ok {A} a.
Arguments Err {A} e.

Definition bind {A B} (c : result A) (k : A -> result B) : result B :=
  match c with
  | Ok a => k a
  | Err e => Err e
  end.

Notation "'let*' x ':=' c 'in' k" := (bind c (fun x => k))
  (at level 10, x name, c at level 100, k at level 200).

Definition option_result {A} (c : result A) : result (option A) :=
  let* a := c in Ok (Some a).

Fixpoint mapM {A B} (f : A -> result B) (l : list A) : result (list B) :=
  match l with
  | [] => Ok []
  | a :: r =>
      let* b := f a in
      let* bs := mapM f r in
      Ok (b :: bs)
  end.

(* ------------------------------------------------------------------ *)
(** ** Numbers *)

Inductive Number : Type :=
| NaN
| PosInf
| NegInf
| NegZero
| Int (z : Z)
| Frac (n : Z) (k : positive).

(** Strip common factors of two from [m / 2^k]. *)
Fixpoint reduceFrac (m : positive) (k : nat) {struct k} : positive * nat :=
  match k, m with
  | S k', xO m' => reduceFrac m' k'
  | _, _ => (m, k)
  end.

(** The number (-1)^neg * m * 2^e, for [0 <= m]. *)
Definition dyadic (neg : bool) (m e : Z) : Number :=
  let sgn := if neg then (-1) else 1 in
  match m with
  | Z0 => if neg then NegZero else Int 0
  | Zpos p =>
      if 0 <=? e then Int (sgn * (m * 2 ^ e))
      else
        let '(p', k) := reduceFrac p (Z.to_nat (- e)) in
        match k with
        | O => Int (sgn * Zpos p')
        | S _ => Frac (sgn * Zpos p') (Pos.of_nat k)
        end
  | Zneg _ => NaN
  end.

(** The value of an IEEE-754 binary datum with [mbits] mantissa bits and
    [ebits] exponent bits, given by its bit pattern [w]. *)
Definition ieeeValue (mbits ebits w : Z) : Number :=
  let s := Z.testbit w (mbits + ebits) in
  let ex := (w / 2 ^ mbits) mod 2 ^ ebits in
  let m := w mod 2 ^ mbits in
  let bias := 2 ^ (ebits - 1) - 1 in
  if ex =? 2 ^ ebits - 1 then
    (if m =? 0 then (if s then NegInf else PosInf) else NaN)
  else if ex =? 0 then dyadic s m (1 - bias - mbits)
  else dyadic s (2 ^ mbits + m) (ex - bias - mbits).

(** What a [Float32Array] and a [Float64Array] element reads. *)
Definition f32_value (w : Z) : Number := ieeeValue 23 8 w.
Definition f64_value (w : Z) : Number := ieeeValue 52 11 w.

(** Two's-complement reading of a [bits]-bit unsigned word. *)
Definition toSigned (bits : Z) (w : Z) : Z :=
  if w <? 2 ^ (bits - 1) then w else w - 2 ^ bits.

(** [v > c] and [v < c] of the language, against an integer constant. *)
Definition num_gt (v : Number) (c : Z) : bool :=
  match v with
  | NaN | NegInf => false
  | PosInf => true
  | NegZero => 0 >? c
  | Int z => z >? c
  | Frac n k => n >? c * 2 ^ Zpos k
  end.

Definition num_lt (v : Number) (c : Z) : bool :=
  match v with
  | NaN | PosInf => false
  | NegInf => true
  | NegZero => 0 <? c
  | Int z => z <? c
  | Frac n k => n <? c * 2 ^ Zpos k
  end.

(** Truncation toward zero of a finite number (ToIntegerOrInfinity). *)
Definition num_trunc (v : Number) : Z :=
  match v with
  | Int z => z
  | Frac n k => Z.quot n (2 ^ Zpos k)
  | _ => 0
  end.

(* ------------------------------------------------------------------ *)
(** ** Bytes and base64 *)

Definition byteZ (b : byte) : Z := Z.of_N (Byte.to_N b).

Definition Zbyte (z : Z) : byte :=
  match Byte.of_N (Z.to_N (z mod 256)) with
  | Some b => b
  | None => x00
  end.

Definition charCode (c : ascii) : Z := Z.of_N (N_of_ascii c).
Definition fromCharCode (z : Z) : ascii := ascii_of_N (Z.to_N z).

(** The base64 alphabet: value of a character, and character of a value. *)
Definition sextet_of_char (c : ascii) : option Z :=
  let n := charCode c in
  if (65 <=? n) && (n <=? 90) then Some (n - 65)
  else if (97 <=? n) && (n <=? 122) then Some (n - 71)
  else if (48 <=? n) && (n <=? 57) then Some (n + 4)
  else if n =? 43 then Some 62
  else if n =? 47 then Some 63
  else None.

Definition char_of_sextet (s : Z) : ascii :=
  if s <? 26 then fromCharCode (s + 65)
  else if s <? 52 then fromCharCode (s + 71)
  else if s <? 62 then fromCharCode (s - 4)
  else if s =? 62 then "+"%char
  else "/"%char.

Definition isAsciiWhitespace (c : ascii) : bool :=
  let n := charCode c in
  (n =? 9) || (n =? 10) || (n =? 12) || (n =? 13) || (n =? 32).

Definition isPad (c : ascii) : bool := charCode c =? 61.

(** Remove one or two trailing [=]. *)
Fixpoint stripPadding (l : list ascii) : list ascii :=
  match l with
  | [] => []
  | [a] => if isPad a then [] else [a]
  | [a; b] =>
      if isPad b then (if isPad a then [] else [a]) else [a; b]
  | a :: r => a :: stripPadding r
  end.

(** Four characters give three bytes; a final group of two or three
    characters gives one or two bytes, the spare bits being dropped; a final
    group of one character, or a character outside the alphabet, is a
    failure. *)
Fixpoint decodeGroups (l : list ascii) : option (list byte) :=
  match l with
  | [] => Some []
  | [_] => None
  | [a; b] =>
      match sextet_of_char a, sextet_of_char b with
      | Some sa, Some sb => Some [Zbyte (sa * 4 + sb / 16)]
      | _, _ => None
      end
  | [a; b; c] =>
      match sextet_of_char a, sextet_of_char b, sextet_of_char c with
      | Some sa, Some sb, Some sc =>
          Some [Zbyte (sa * 4 + sb / 16); Zbyte ((sb mod 16) * 16 + sc / 4)]
      | _, _, _ => None
      end
  | a :: b :: c :: d :: r =>
      match sextet_of_char a, sextet_of_char b, sextet_of_char c,
            sextet_of_char d, decodeGroups r with
      | Some sa, Some sb, Some sc, Some sd, Some bs =>
          Some (Zbyte (sa * 4 + sb / 16)
                :: Zbyte ((sb mod 16) * 16 + sc / 4)
                :: Zbyte ((sc mod 4) * 64 + sd) :: bs)
      | _, _, _, _, _ => None
      end
  end.

(** [atob] followed by the [charCodeAt] loop: the forgiving base64 decoder
    of the platform. *)
Definition atob (b64 : string) : option (list byte) :=
  let data := filter (fun c => negb (isAsciiWhitespace c)) (list_ascii_of_string b64) in
  let data := if (Nat.modulo (List.length data) 4 =? 0)%nat then stripPadding data else data in
  decodeGroups data.

Definition base64ToBytes (b64 : string) : result (list byte) :=
  match atob b64 with
  | Some bytes => Ok bytes
  | None => Err InvalidCharacterError
  end.

(** The encoder that is the inverse of [atob]: three bytes give four
    characters, a shorter final group is padded with [=]. *)
Fixpoint btoaChars (l : list byte) : list ascii :=
  match l with
  | [] => []
  | [a] =>
      let x := byteZ a in
      [char_of_sextet (x / 4); char_of_sextet ((x mod 4) * 16); "="%char; "="%char]
  | [a; b] =>
      let x := byteZ a in
      let y := byteZ b in
      [char_of_sextet (x / 4); char_of_sextet ((x mod 4) * 16 + y / 16);
       char_of_sextet ((y mod 16) * 4); "="%char]
  | a :: b :: c :: r =>
      let x := byteZ a in
      let y := byteZ b in
      let z := byteZ c in
      char_of_sextet (x / 4) :: char_of_sextet ((x mod 4) * 16 + y / 16)
      :: char_of_sextet ((y mod 16) * 4 + z / 64) :: char_of_sextet (z mod 64)
      :: btoaChars r
  end.

Definition btoa (l : list byte) : string := string_of_list_ascii (btoaChars l).

(* ------------------------------------------------------------------ *)
(** ** Values, shapes and the binary array decoder *)

(** The [shape] member of a binary-encoded array.  Entries of an array
    shape are integers; [ShapeAbsent] is a falsy member (missing, null, the
    empty string), [ShapeOther] anything that is neither an array of
    numbers nor a string. *)
Inductive Shape : Type :=
| ShapeAbsent
| ShapeArray (dims : list Z)
| ShapeString (s : string)
| ShapeOther.

(** What a trace member or a table cell can hold.  [VNdarray] is an object
    with string members [dtype] and [bdata] (the test [isNdarrayLike]);
    [VObj] is any other object that is not an array and has no numeric
    [length]. *)
Inductive Value : Type :=
| VUndef
| VNull
| VBool (b : bool)
| VNum (n : Number)
| VStr (s : string)
| VDate (ms : Z)
| VArr (elems : list Value)
| VNdarray (dtype bdata : string) (shape : Shape)
| VObj.

Definition Primitive := Value.

(** Little-endian word held by a run of bytes. *)
Definition leWord (l : list byte) : Z :=
  fold_right (fun b acc => byteZ b + 256 * acc) 0 l.

(** The [count] elements of a typed-array view of element size [width]
    placed at offset 0 of the buffer. *)
Definition typedArray (width count : nat) (bytes : list byte) : list Z :=
  map (fun i => leWord (firstn width (skipn (i * width) bytes))) (seq 0 count).

Definition decodeNdarray (dtype bdata : string) : result (list Primitive) :=
  let* bytes := base64ToBytes bdata in
  let byteLength := List.length bytes in
  let view (width : nat) (conv : Z -> Number) : result (list Primitive) :=
    Ok (map (fun w => VNum (conv w))
            (typedArray width (Nat.div byteLength width) bytes)) in
  if (dtype =? "i1")%string then view 1%nat (fun w => Int (toSigned 8 w))
  else if (dtype =? "u1")%string then view 1%nat Int
  else if (dtype =? "i2")%string then view 2%nat (fun w => Int (toSigned 16 w))
  else if (dtype =? "u2")%string then view 2%nat Int
  else if (dtype =? "i4")%string then view 4%nat (fun w => Int (toSigned 32 w))
  else if (dtype =? "u4")%string then view 4%nat Int
  else if (dtype =? "f4")%string then view 4%nat f32_value
  else if (dtype =? "f8")%string then view 8%nat f64_value
  else Err (UnsupportedDtype dtype).

(** Decimal digits. *)
Definition digitValue (c : ascii) : option Z :=
  let n := charCode c in
  if (48 <=? n) && (n <=? 57) then Some (n - 48) else None.

Fixpoint digitsValue (acc : Z) (l : list ascii) : option Z :=
  match l with
  | [] => Some acc
  | c :: r =>
      match digitValue c with
      | Some d => digitsValue (10 * acc + d) r
      | None => None
      end
  end.

(** [Number(token)] for a token that is a decimal integer literal with an
    optional sign; [None] stands for a result that is not a finite number.
    Tokens in the other numeric syntaxes of the language (fractions,
    exponents, radix prefixes) are outside the embedding. *)
Definition tokenToInteger (tok : list ascii) : option Z :=
  match tok with
  | [] => None
  | c :: r =>
      if charCode c =? 45 then
        match r with [] => None | _ => option_map Z.opp (digitsValue 0 r) end
      else if charCode c =? 43 then
        match r with [] => None | _ => digitsValue 0 r end
      else digitsValue 0 tok
  end.

Definition isShapeSeparator (c : ascii) : bool :=
  let n := charCode c in
  (n =? 44) || ((9 <=? n) && (n <=? 13)) || (n =? 32).

(** [split(/[,\s]+/).map(trim).filter(Boolean)]: the non-empty maximal runs
    of characters that are neither a comma nor white space.  [cur] is the
    run being read, last character first. *)
Fixpoint shapeTokens (cur : list ascii) (l : list ascii) : list (list ascii) :=
  match l with
  | [] => match cur with [] => [] | _ => [rev cur] end
  | c :: r =>
      if isShapeSeparator c then
        match cur with
        | [] => shapeTokens [] r
        | _ => rev cur :: shapeTokens [] r
        end
      else shapeTokens (c :: cur) r
  end.

Fixpoint allSome {A} (l : list (option A)) : option (list A) :=
  match l with
  | [] => Some []
  | Some a :: r => option_map (cons a) (allSome r)
  | None :: _ => None
  end.

Definition parseShape (shape : Shape) : option (list Z) :=
  match shape with
  | ShapeAbsent => None
  | ShapeArray dims => Some dims
  | ShapeString s =>
      if (s =? "")%string then None
      else allSome (map tokenToInteger (shapeTokens [] (list_ascii_of_string s)))
  | ShapeOther => None
  end.

(** [Array.prototype.slice(start, end)] with its relative indices. *)
Definition relativeIndex (len i : Z) : Z :=
  if i <? 0 then Z.max (len + i) 0 else Z.min i len.

Definition slice {A} (l : list A) (start end_ : Z) : list A :=
  let len := Z.of_nat (List.length l) in
  let k := relativeIndex len start in
  let final := relativeIndex len end_ in
  firstn (Z.to_nat (final - k)) (skipn (Z.to_nat k) l).

(** [new Array(rows)] throws unless [rows] is an array length. *)
Definition reshape2D {A} (flat : list A) (rows cols : Z) : result (list (list A)) :=
  if (0 <=? rows) && (rows <? 2 ^ 32) then
    Ok (map (fun r => slice flat (Z.of_nat r * cols) ((Z.of_nat r + 1) * cols))
            (seq 0 (Z.to_nat rows)))
  else Err RangeError.

(** *** [reshape2D] on arbitrary numbers

    [reshape2D] above takes the row count and the width as integers.  The
    function of the source takes any two numbers; the definitions below
    follow it there: [new Array(rows)], the products [r * cols] and
    [(r + 1) * cols] in binary64 arithmetic, and the conversion of the
    arguments of [slice] by ToIntegerOrInfinity. *)

(** [new Array(len)]: the length of the array, a RangeError unless [len] is
    an integer from 0 to 2^32 - 1 (or the negative zero). *)
Definition arrayOfLength (len : Number) : result nat :=
  match len with
  | NegZero => Ok 0%nat
  | Int z => if (0 <=? z) && (z <? 2 ^ 32) then Ok (Z.to_nat z) else Err RangeError
  | _ => Err RangeError
  end.

(** The binary64 number nearest to (-1)^neg * m * 2^e, for [0 < m]: the
    value itself when [m] has at most 53 bits, else [m] rounded to 53 bits,
    ties to even, and an infinity from 2^1024 on.  (No underflow arises for
    the products below: they are not smaller than their binary64 factor.) *)
Definition roundDouble (neg : bool) (m e : Z) : Number :=
  if Z.log2 m <? 53 then dyadic neg m e
  else
    let s := Z.log2 m - 52 in
    let q := m / 2 ^ s in
    let rest := m mod 2 ^ s in
    let half := 2 ^ (s - 1) in
    let q' := if (half <? rest) || ((rest =? half) && Z.odd q) then q + 1 else q in
    if 1024 <=? Z.log2 q' + (e + s) then (if neg then NegInf else PosInf)
    else dyadic neg q' (e + s).

(** The product [r * v] of the language, for an index [r]. *)
Definition timesIndex (r : nat) (v : Number) : Number :=
  match v with
  | NaN => NaN
  | PosInf => if (r =? 0)%nat then NaN else PosInf
  | NegInf => if (r =? 0)%nat then NaN else NegInf
  | NegZero => NegZero
  | Int z =>
      if (r =? 0)%nat || (z =? 0) then (if z <? 0 then NegZero else Int 0)
      else roundDouble (z <? 0) (Z.of_nat r * Z.abs z) 0
  | Frac n k =>
      if (r =? 0)%nat then (if n <? 0 then NegZero else Int 0)
      else roundDouble (n <? 0) (Z.of_nat r * Z.abs n) (- Zpos k)
  end.

(** An argument of [slice] on an array of length [len]: ToIntegerOrInfinity,
    then the relative index. *)
Definition sliceBound (len : Z) (v : Number) : Z :=
  match v with
  | NaN | NegZero | NegInf => 0
  | PosInf => len
  | Int _ | Frac _ _ => relativeIndex len (num_trunc v)
  end.

Definition sliceNumber {A} (l : list A) (start end_ : Number) : list A :=
  let len := Z.of_nat (List.length l) in
  let k := sliceBound len start in
  let final := sliceBound len end_ in
  firstn (Z.to_nat (final - k)) (skipn (Z.to_nat k) l).

Definition reshape2DNumber {A} (flat : list A) (rows cols : Number)
  : result (list (list A)) :=
  let* n := arrayOfLength rows in
  Ok (map (fun r => sliceNumber flat (timesIndex r cols) (timesIndex (r + 1) cols))
          (seq 0 n)).

Definition transpose (m : list (list Value)) : list (list Value) :=
  match m with
  | [] => []
  | row0 :: _ =>
      map (fun j => map (fun row => nth j row VUndef) m) (seq 0 (List.length row0))
  end.

Definition toArray (v : Value) : result (list Primitive) :=
  match v with
  | VUndef | VNull => Ok []
  | VNdarray dtype bdata _ => decodeNdarray dtype bdata
  | VArr elems => Ok elems
  | _ => Ok [v]
  end.

(* ------------------------------------------------------------------ *)
(** ** Figures and tables *)

Record DataColumn : Type := { name : string; values : list Primitive }.

Record DataTable : Type :=
  { title : option string;
    columns : list DataColumn;
    meta : option (list (string * Value)) }.

(** The members of a trace that the converters read; an absent member is
    [VUndef] (or [None]).  [t_header_values] is [t.header?.values],
    [t_cells_values] is [t.cells?.values], [t_colorbar_title] is
    [t.colorbar?.title?.text]. *)
Record PlotlyTrace : Type :=
  { t_type : option string;
    t_name : option string;
    t_x : Value;
    t_y : Value;
    t_z : Value;
    t_labels : Value;
    t_values : Value;
    t_locations : Value;
    t_parents : Value;
    t_open : Value;
    t_high : Value;
    t_low : Value;
    t_close : Value;
    t_measure : Value;
    t_header_values : Value;
    t_cells_values : Value;
    t_coloraxis : option string;
    t_colorbar_title : option string;
    t_locationmode : Value;
    t_geo : Value }.

(** An axis title is a string or an object with a [text] member. *)
Inductive AxisTitle : Type :=
| NoTitle
| TitleString (s : string)
| TitleObject (text : option string).

(** [coloraxis_title k] is [layout[k]?.colorbar?.title?.text]. *)
Record Layout : Type :=
  { xaxis_title : AxisTitle;
    yaxis_title : AxisTitle;
    coloraxis_title : string -> option string }.

Record PlotlyFigureLike : Type :=
  { data : option (list PlotlyTrace);
    layout : option Layout }.

Record ExtractOptions : Type :=
  { mergeCartesian : option bool;
    unnamedYPrefix : option string;
    coerceDates : option bool;
    xColumnName : option string }.

(** [a || d] and [a ?? d] on optional strings. *)
Definition orElse (a : option string) (d : string) : string :=
  match a with
  | Some s => if (s =? "")%string then d else s
  | None => d
  end.

Definition nullish {A} (a : option A) (d : A) : A :=
  match a with
  | Some s => s
  | None => d
  end.

(** [v ?? d] on values. *)
Definition nullishValue (v d : Value) : Value :=
  match v with
  | VUndef | VNull => d
  | _ => v
  end.

Definition lowerChar (c : ascii) : ascii :=
  let n := charCode c in
  if (65 <=? n) && (n <=? 90) then fromCharCode (n + 32) else c.

Definition toLowerCase (s : string) : string :=
  string_of_list_ascii (map lowerChar (list_ascii_of_string s)).

Definition decimal (z : Z) : string := NilZero.string_of_int (Z.to_int z).

Fixpoint mapiFrom {A B} (i : nat) (f : nat -> A -> B) (l : list A) : list B :=
  match l with
  | [] => []
  | a :: r => f i a :: mapiFrom (S i) f r
  end.

Definition mapi {A B} (f : nat -> A -> B) (l : list A) : list B := mapiFrom 0 f l.

Definition titleText (t : AxisTitle) : option string :=
  match t with
  | NoTitle => None
  | TitleString s => Some s
  | TitleObject text => text
  end.

Definition getXAxisTitle (fig : PlotlyFigureLike) : option string :=
  match layout fig with
  | Some l => titleText (xaxis_title l)
  | None => None
  end.

Definition getYAxisTitle (fig : PlotlyFigureLike) : option string :=
  match layout fig with
  | Some l => titleText (yaxis_title l)
  | None => None
  end.

Definition truthy (a : option string) : bool :=
  match a with
  | Some s => negb (s =? "")%string
  | None => false
  end.

Definition colorTitleFromFig (fig : PlotlyFigureLike) (t : PlotlyTrace) : option string :=
  let perTrace := t_colorbar_title t in
  if truthy perTrace then perTrace
  else
    match t_coloraxis t with
    | None => None
    | Some axisKey =>
        if (axisKey =? "")%string then Some ""
        else match layout fig with
             | Some l => coloraxis_title l axisKey
             | None => None
             end
    end.

(** *** Tables *)

Definition maxLength (columns : list DataColumn) : nat :=
  fold_right Nat.max 0%nat (map (fun c => List.length (values c)) columns).

Definition padColumnsToSameLength (columns : list DataColumn) : list DataColumn :=
  let n := maxLength columns in
  map (fun c =>
         if (List.length (values c) =? n)%nat then c
         else {| name := name c;
                 values := values c ++ repeat VNull (n - List.length (values c)) |})
      columns.

Definition makeTable (title : option string) (columns : list DataColumn)
    (meta : option (list (string * Value))) : DataTable :=
  {| title := title; columns := padColumnsToSameLength columns; meta := meta |}.

(** [tableToArrays]: the header row of column names, then one row for each
    index below the length of the longest column, a cell that is missing or
    [undefined] being read as [null]. *)
Definition tableToArrays (table : DataTable) : list (list Primitive) :=
  let header := map (fun c => VStr (name c)) (columns table) in
  let n := maxLength (columns table) in
  header
  :: map (fun r => map (fun c => nullishValue (nth r (values c) VUndef) VNull)
                       (columns table))
         (seq 0 n).

(** *** Objects used as dictionaries *)

(** The own properties of an object, in creation order. *)
Definition JsObject (A : Type) : Type := list (string * A).

(** A property key is an array index when it is the canonical decimal form
    of an integer below 2^32 - 1. *)
Definition arrayIndex (k : string) : option Z :=
  match list_ascii_of_string k with
  | [] => None
  | c :: r =>
      match r with
      | _ :: _ => if charCode c =? 48 then None
                  else match digitsValue 0 (c :: r) with
                       | Some n => if n <=? 2 ^ 32 - 2 then Some n else None
                       | None => None
                       end
      | [] => digitsValue 0 [c]
      end
  end.

Definition objHas {A} (o : JsObject A) (k : string) : bool :=
  existsb (fun p => (fst p =? k)%string) o.

(** [o[k] = v].  An existing own property keeps its place; a new key is
    appended, except [__proto__], whose assignment reaches the inherited
    setter and creates no own property. *)
Definition objSet {A} (o : JsObject A) (k : string) (v : A) : JsObject A :=
  if objHas o k then map (fun p => if (fst p =? k)%string then (k, v) else p) o
  else if (k =? "__proto__")%string then o
  else o ++ [(k, v)].

Fixpoint insertByIndex {A} (p : Z * A) (l : list (Z * A)) : list (Z * A) :=
  match l with
  | [] => [p]
  | q :: r => if fst p <=? fst q then p :: l else q :: insertByIndex p r
  end.

Definition sortByIndex {A} (l : list (Z * A)) : list (Z * A) :=
  fold_right insertByIndex [] l.

(** [Object.values]: array-index keys first, in ascending order, then the
    other keys in creation order. *)
Definition objectValues {A} (o : JsObject A) : list A :=
  let indexed :=
    flat_map (fun p => match arrayIndex (fst p) with
                       | Some n => [(n, snd p)]
                       | None => []
                       end) o in
  let named :=
    filter (fun p => match arrayIndex (fst p) with
                     | Some _ => false
                     | None => true
                     end) o in
  map snd (sortByIndex indexed) ++ map snd named.

(** *** The encoding side of the binary array format

    The decoder above is the code; the encoder is the format it reads: each
    element is written as the little-endian bytes of its word, and the bytes
    are base64-encoded. *)

Inductive Dtype : Type := I1 | U1 | I2 | U2 | I4 | U4 | F4 | F8.

Definition dtypeTag (d : Dtype) : string :=
  match d with
  | I1 => "i1" | U1 => "u1" | I2 => "i2" | U2 => "u2"
  | I4 => "i4" | U4 => "u4" | F4 => "f4" | F8 => "f8"
  end.

Definition dtypeWidth (d : Dtype) : nat :=
  match d with
  | I1 | U1 => 1
  | I2 | U2 => 2
  | I4 | U4 | F4 => 4
  | F8 => 8
  end%nat.

(** The number denoted by the word [w] of an element. *)
Definition elemValue (d : Dtype) (w : Z) : Number :=
  match d with
  | I1 => Int (toSigned 8 w)
  | I2 => Int (toSigned 16 w)
  | I4 => Int (toSigned 32 w)
  | U1 | U2 | U4 => Int w
  | F4 => f32_value w
  | F8 => f64_value w
  end.

(** The IEEE-754 pattern with sign [neg], biased exponent [ex] and
    mantissa field [mant]. *)
Definition ieeeWord (mbits ebits : Z) (neg : bool) (ex mant : Z) : Z :=
  (if neg then 2 ^ (mbits + ebits) else 0) + ex * 2 ^ mbits + mant.

(** The pattern of the non-zero finite value (-1)^neg * m * 2^e, when the
    format holds it: a subnormal when its binary exponent is below the
    least normal one, else a normal number whose mantissa fits. *)
Definition ieeeFinite (mbits ebits : Z) (neg : bool) (m e : Z) : option Z :=
  let bias := 2 ^ (ebits - 1) - 1 in
  let b := Z.log2 m in
  let E := b + e in
  if E <? 1 - bias then
    let j := e - (1 - bias - mbits) in
    if j <? 0 then None else Some (ieeeWord mbits ebits neg 0 (m * 2 ^ j))
  else if bias <? E then None
  else if b <=? mbits then
    Some (ieeeWord mbits ebits neg (E + bias) (m * 2 ^ (mbits - b) - 2 ^ mbits))
  else if m mod 2 ^ (b - mbits) =? 0 then
    Some (ieeeWord mbits ebits neg (E + bias) (m / 2 ^ (b - mbits) - 2 ^ mbits))
  else None.

(** The pattern that stores a number in the format, [None] when the format
    does not hold the number exactly. *)
Definition ieeeBits (mbits ebits : Z) (v : Number) : option Z :=
  match v with
  | NaN => Some (ieeeWord mbits ebits false (2 ^ ebits - 1) (2 ^ (mbits - 1)))
  | PosInf => Some (ieeeWord mbits ebits false (2 ^ ebits - 1) 0)
  | NegInf => Some (ieeeWord mbits ebits true (2 ^ ebits - 1) 0)
  | NegZero => Some (ieeeWord mbits ebits true 0 0)
  | Int 0 => Some 0
  | Int z => ieeeFinite mbits ebits (z <? 0) (Z.abs z) 0
  | Frac n k =>
      if Z.odd n then ieeeFinite mbits ebits (n <? 0) (Z.abs n) (- Zpos k) else None
  end.

Definition signOf (neg : bool) : Z := if neg then (-1) else 1.

(** The integers an integer dtype holds. *)
Definition intInRange (d : Dtype) (z : Z) : bool :=
  match d with
  | I1 => (- 2 ^ 7 <=? z) && (z <? 2 ^ 7)
  | I2 => (- 2 ^ 15 <=? z) && (z <? 2 ^ 15)
  | I4 => (- 2 ^ 31 <=? z) && (z <? 2 ^ 31)
  | U1 => (0 <=? z) && (z <? 2 ^ 8)
  | U2 => (0 <=? z) && (z <? 2 ^ 16)
  | U4 => (0 <=? z) && (z <? 2 ^ 32)
  | F4 | F8 => false
  end.

(** The word that stores the number [v] in an element of dtype [d]: the
    two's-complement word of an integer of the dtype's range, the IEEE-754
    pattern of a number the floating-point width holds exactly. *)
Definition elemWord (d : Dtype) (v : Number) : option Z :=
  match d with
  | F4 => ieeeBits 23 8 v
  | F8 => ieeeBits 52 11 v
  | _ =>
      match v with
      | Int z => if intInRange d z
                 then Some (z mod 2 ^ (8 * Z.of_nat (dtypeWidth d))) else None
      | _ => None
      end
  end.

(** The numbers a dtype holds exactly. *)
Definition representable (d : Dtype) (v : Number) : Prop :=
  exists w, elemWord d v = Some w.

Fixpoint leBytes (width : nat) (w : Z) : list byte :=
  match width with
  | O => []
  | S k => Zbyte w :: leBytes k (w / 256)
  end.

Definition encodeElem (d : Dtype) (v : Number) : list byte :=
  match elemWord d v with
  | Some w => leBytes (dtypeWidth d) w
  | None => []
  end.

Definition encodeSeq (d : Dtype) (xs : list Number) : list byte :=
  flat_map (encodeElem d) xs.

(** *** Example traces and figures *)

(** [{ type, name, x, y }]. *)
Definition xyTrace (ty nm : option string) (x y : Value) : PlotlyTrace :=
  {| t_type := ty; t_name := nm; t_x := x; t_y := y; t_z := VUndef;
     t_labels := VUndef; t_values := VUndef; t_locations := VUndef;
     t_parents := VUndef; t_open := VUndef; t_high := VUndef; t_low := VUndef;
     t_close := VUndef; t_measure := VUndef; t_header_values := VUndef;
     t_cells_values := VUndef; t_coloraxis := None; t_colorbar_title := None;
     t_locationmode := VUndef; t_geo := VUndef |}.

(** [{ type: "pie", labels, values }]. *)
Definition pieTrace (labels vals : Value) : PlotlyTrace :=
  {| t_type := Some "pie"; t_name := None; t_x := VUndef; t_y := VUndef; t_z := VUndef;
     t_labels := labels; t_values := vals; t_locations := VUndef;
     t_parents := VUndef; t_open := VUndef; t_high := VUndef; t_low := VUndef;
     t_close := VUndef; t_measure := VUndef; t_header_values := VUndef;
     t_cells_values := VUndef; t_coloraxis := None; t_colorbar_title := None;
     t_locationmode := VUndef; t_geo := VUndef |}.

Definition ints (l : list Z) : list Value := map (fun z => VNum (Int z)) l.

Definition defaultOptions : ExtractOptions :=
  {| mergeCartesian := None; unnamedYPrefix := None; coerceDates := None;
     xColumnName := None |}.

Definition mergeOptions : ExtractOptions :=
  {| mergeCartesian := Some true; unnamedYPrefix := None; coerceDates := None;
     xColumnName := None |}.

Definition figureOf (traces : list PlotlyTrace) : PlotlyFigureLike :=
  {| data := Some traces; layout := None |}.

Definition figureWithYTitle (ytitle : string) (traces : list PlotlyTrace) : PlotlyFigureLike :=
  {| data := Some traces;
     layout := Some {| xaxis_title := NoTitle;
                       yaxis_title := TitleObject (Some ytitle);
                       coloraxis_title := fun _ => None |} |}.

(** A pie trace, then a scatter trace whose [x] is a binary array tagged
    [i8], then a bar trace. *)
Definition badDtypeTrace : PlotlyTrace :=
  xyTrace (Some "scatter") None (VNdarray "i8" "AAAAAAAAAAA=" ShapeAbsent) (VArr (ints [10])).

Definition figBadDtype : PlotlyFigureLike :=
  figureOf [ pieTrace (VArr [VStr "a"; VStr "b"]) (VArr (ints [1; 2]));
             badDtypeTrace;
             xyTrace (Some "bar") None (VArr (ints [1; 2])) (VArr (ints [5; 6])) ].

(** Two unnamed scatter traces under a titled y axis. *)
Definition figTwoSeries : PlotlyFigureLike :=
  figureWithYTitle "Sales"
    [ xyTrace (Some "scatter") None (VArr (ints [1; 2; 3])) (VArr (ints [10; 20; 30]));
      xyTrace (Some "scatter") None (VArr (ints [2; 3; 4])) (VArr (ints [200; 300; 400])) ].

(** The same two traces without axis titles, and a pie trace. *)
Definition figTwoSeriesAndPie : PlotlyFigureLike :=
  figureOf
    [ xyTrace (Some "scatter") None (VArr (ints [1; 2; 3])) (VArr (ints [10; 20; 30]));
      pieTrace (VArr [VStr "a"; VStr "b"]) (VArr (ints [1; 2]));
      xyTrace (Some "scatter") None (VArr (ints [2; 3; 4])) (VArr (ints [200; 300; 400])) ].

(** A named scatter trace followed by an unnamed one. *)
Definition figNamedThenUnnamed : PlotlyFigureLike :=
  figureOf
    [ xyTrace (Some "scatter") (Some "a") (VArr (ints [1])) (VArr (ints [10]));
      xyTrace (Some "scatter") None (VArr (ints [2])) (VArr (ints [200])) ].

(** A scatter trace with no data at all. *)
Definition figEmptyScatter : PlotlyFigureLike :=
  figureOf [ xyTrace (Some "scatter") None VUndef VUndef ].

(** A heatmap whose [z] rows differ in length, and a bar trace with fewer
    y values than x values. *)
Definition figRagged : PlotlyFigureLike :=
  figureOf
    [ {| t_type := Some "heatmap"; t_name := None;
         t_x := VArr [VStr "c1"; VStr "c2"; VStr "c3"]; t_y := VArr [VStr "r1"; VStr "r2"];
         t_z := VArr [VArr (ints [5]); VArr (ints [6; 7; 8; 9])];
         t_labels := VUndef; t_values := VUndef; t_locations := VUndef;
         t_parents := VUndef; t_open := VUndef; t_high := VUndef; t_low := VUndef;
         t_close := VUndef; t_measure := VUndef; t_header_values := VUndef;
         t_cells_values := VUndef; t_coloraxis := None; t_colorbar_title := None;
         t_locationmode := VUndef; t_geo := VUndef |};
      xyTrace (Some "bar") None (VArr (ints [1; 2; 3])) (VArr (ints [10])) ].

(** The tables A and B of the merge example, the value columns named
    [ya] and [yb]. *)
Definition tableXY (ya : string) (xs ys : list Z) : DataTable :=
  {| title := None;
     columns := [ {| name := "x"; values := ints xs |};
                  {| name := ya; values := ints ys |} ];
     meta := None |}.

(** A host used to evaluate examples: its services are never reached by
    values whose numbers are integers of magnitude at most 2^53 and that
    hold no date and no date-like string. *)
Definition exampleNumberToString (n : Number) : string := "".
Definition exampleDateToString (ms : Z) : string := "".
Definition exampleDateToISOString (ms : Z) : string := "".
Definition exampleDateParse (s : string) : option Z := None.

(** [{ type: "heatmap", x, y, z }] and [{ type: "table", header: { values },
    cells: { values } }]. *)
Definition heatTrace (x y z : Value) : PlotlyTrace :=
  {| t_type := Some "heatmap"; t_name := None; t_x := x; t_y := y; t_z := z;
     t_labels := VUndef; t_values := VUndef; t_locations := VUndef;
     t_parents := VUndef; t_open := VUndef; t_high := VUndef; t_low := VUndef;
     t_close := VUndef; t_measure := VUndef; t_header_values := VUndef;
     t_cells_values := VUndef; t_coloraxis := None; t_colorbar_title := None;
     t_locationmode := VUndef; t_geo := VUndef |}.

Definition tableTrace (header cells : Value) : PlotlyTrace :=
  {| t_type := Some "table"; t_name := None; t_x := VUndef; t_y := VUndef; t_z := VUndef;
     t_labels := VUndef; t_values := VUndef; t_locations := VUndef;
     t_parents := VUndef; t_open := VUndef; t_high := VUndef; t_low := VUndef;
     t_close := VUndef; t_measure := VUndef; t_header_values := header;
     t_cells_values := cells; t_coloraxis := None; t_colorbar_title := None;
     t_locationmode := VUndef; t_geo := VUndef |}.

(** Three x labels and two y labels. *)
Definition labels3 : list Value := [VStr "c1"; VStr "c2"; VStr "c3"].
Definition labels2 : list Value := [VStr "r1"; VStr "r2"].

(** A scatter-like trace whose type is spelt with a capital. *)
Definition capitalScatter : PlotlyTrace :=
  xyTrace (Some "Scatter") None (VArr (ints [1; 2])) (VArr (ints [3; 4])).

Definition coercingOptions : ExtractOptions :=
  {| mergeCartesian := None; unnamedYPrefix := None; coerceDates := Some true;
     xColumnName := None |}.

(** A scatter trace whose x values are epoch seconds. *)
Definition figEpoch : PlotlyFigureLike :=
  figureOf [ xyTrace (Some "scatter") (Some "s")
               (VArr (ints [1600000000; 1600003600])) (VArr (ints [1600000000; 7])) ].

(* ------------------------------------------------------------------ *)
(** ** The extraction engine *)

Section Extraction.

Set Default Proof Using "Type".
Set Proof Using Clear Unused.

(** [Number::toString] outside the range printed exactly below. *)
Variable hostNumberToString : Number -> string.
(** [Date.prototype.toString] and [Date.prototype.toISOString], on the time
    value of a valid date. *)
Variable dateToString : Z -> string.
Variable dateToISOString : Z -> string.
(** The time value of [new Date(s)], [None] when it is NaN. *)
Variable dateParse : string -> option Z.

Definition NumberToString (n : Number) : string :=
  match n with
  | NaN => "NaN"
  | PosInf => "Infinity"
  | NegInf => "-Infinity"
  | NegZero => "0"
  | Int z => if Z.abs z <=? 2 ^ 53 then decimal z else hostNumberToString n
  | Frac _ _ => hostNumberToString n
  end.

(** [String(v)]. *)
Fixpoint ToString (v : Value) : string :=
  match v with
  | VUndef => "undefined"
  | VNull => "null"
  | VBool b => if b then "true" else "false"
  | VNum n => NumberToString n
  | VStr s => s
  | VDate ms => dateToString ms
  | VArr elems =>
      String.concat ","
        (map (fun e => match e with
                       | VUndef | VNull => ""
                       | _ => ToString e
                       end) elems)
  | VNdarray _ _ _ | VObj => "[object Object]"
  end.

Definition colName (prefix : string) (i : nat) : string :=
  (prefix ++ decimal (Z.of_nat i))%string.

(** *** Trace converters *)

Definition fromTableTrace (t : PlotlyTrace) : result DataTable :=
  let* headers :=
    match t_header_values t with
    | VArr (h0 :: _) => toArray h0
    | _ => Ok []
    end in
  let* cellsCols :=
    match t_cells_values t with
    | VArr cols => mapM toArray cols
    | _ => Ok []
    end in
  let columns :=
    match cellsCols with
    | _ :: _ =>
        mapi (fun i col =>
                {| name := ToString (nullishValue (nth i headers VUndef)
                                       (VStr (colName "col_" (i + 1))));
                   values := col |}) cellsCols
    | [] =>
        match headers with
        | _ :: _ =>
            mapi (fun i h =>
                    {| name := ToString (nullishValue h (VStr (colName "col_" (i + 1))));
                       values := [] |}) headers
        | [] => [ {| name := "col_1"; values := [] |} ]
        end
    end in
  Ok (makeTable (Some (orElse (t_name t) "table")) columns
        (Some [("traceType", VStr "table")])).

Definition isPerfectSquare (n : Z) : bool := Z.sqrt n * Z.sqrt n =? n.

Definition nonEmpty (n : nat) : bool := negb (n =? 0)%nat.

(** The branch of [fromHeatmapLike] that builds the matrix from a decoded
    binary array: the shape comes from the [shape] member, else from the
    label counts, else from a square root; a shape with fewer than two
    entries gives the single row. *)
Definition ndarrayMatrix (flat : list Primitive) (shape : Shape) (xLen yLen : nat)
  : result (list (list Primitive)) :=
  let shp := parseShape shape in
  let shp :=
    match shp with
    | None => if nonEmpty xLen && nonEmpty yLen
              then Some [Z.of_nat yLen; Z.of_nat xLen] else None
    | Some _ => shp
    end in
  let shp :=
    match shp with
    | None => if isPerfectSquare (Z.of_nat (List.length flat))
              then let n := Z.sqrt (Z.of_nat (List.length flat)) in Some [n; n]
              else None
    | Some _ => shp
    end in
  match shp with
  | Some (s0 :: s1 :: _) =>
      let* Zm := reshape2D flat s0 s1 in
      if nonEmpty xLen && nonEmpty yLen
         && (negb (s0 =? Z.of_nat yLen) || negb (s1 =? Z.of_nat xLen)) then
        if (s1 =? Z.of_nat yLen) && (s0 =? Z.of_nat xLen) then Ok (transpose Zm)
        else Ok Zm
      else Ok Zm
  | _ => Ok [flat]
  end.

Definition heatmapMatrix (t : PlotlyTrace) (xVals yVals : list Primitive)
  : result (list (list Primitive)) :=
  match t_z t with
  | VNdarray dtype bdata shape =>
      let* flat := decodeNdarray dtype bdata in
      ndarrayMatrix flat shape (List.length xVals) (List.length yVals)
  | VArr elems =>
      match elems with
      | VArr _ :: _ => mapM toArray elems
      | _ =>
          let vec := elems in
          if nonEmpty (List.length xVals) && nonEmpty (List.length yVals)
             && (List.length vec =? List.length xVals * List.length yVals)%nat then
            reshape2D vec (Z.of_nat (List.length yVals)) (Z.of_nat (List.length xVals))
          else Ok [vec]
      end
  | other => let* row := toArray other in Ok [row]
  end.

(** Trim and pad the matrix to [rows] by [cols]. *)
Definition fitMatrix (Zm : list (list Primitive)) (rows cols : nat) : list (list Primitive) :=
  let Z1 := map (fun r => firstn cols r) (firstn rows Zm) in
  let Z2 := Z1 ++ repeat (repeat VNull cols) (rows - List.length Z1) in
  map (fun r => if (List.length r <? cols)%nat
                then r ++ repeat VNull (cols - List.length r) else r) Z2.

Definition fromHeatmapLike (fig : PlotlyFigureLike) (t : PlotlyTrace) : result DataTable :=
  let* xVals := toArray (t_x t) in
  let* yVals := toArray (t_y t) in
  let* Z0 := heatmapMatrix t xVals yVals in
  let rows := if nonEmpty (List.length yVals) then List.length yVals else List.length Z0 in
  let cols := if nonEmpty (List.length xVals) then List.length xVals
              else match Z0 with r0 :: _ => List.length r0 | [] => 0%nat end in
  let Zm := fitMatrix Z0 rows cols in
  let yTitle := orElse (getYAxisTitle fig) "y" in
  let first :=
    {| name := yTitle;
       values := if nonEmpty (List.length yVals) then yVals
                 else map (fun i => VNum (Int (Z.of_nat i))) (seq 0 rows) |} in
  let rest :=
    map (fun c =>
           {| name := ToString (nullishValue (nth c xVals VUndef) (VStr (colName "col_" c)));
              values := map (fun row => nullishValue (nth c row VUndef) VNull) Zm |})
        (seq 0 cols) in
  let valueTitle := orElse (colorTitleFromFig fig t) "z" in
  Ok (makeTable (Some (orElse (t_name t) (nullish (t_type t) "heatmap")))
        (first :: rest)
        (Some [("traceType", VStr (nullish (t_type t) "heatmap"));
               ("valueTitle", VStr valueTitle)])).

Definition fromPieLike (t : PlotlyTrace) : result DataTable :=
  let* labels := toArray (t_labels t) in
  let* vals := toArray (t_values t) in
  let* parents := toArray (t_parents t) in
  let cols :=
    [ {| name := "label"; values := labels |}; {| name := "value"; values := vals |} ]
    ++ (if nonEmpty (List.length parents)
        then [ {| name := "parent"; values := parents |} ] else []) in
  Ok (makeTable (Some (orElse (t_name t) (nullish (t_type t) "pie"))) cols
        (Some [("traceType", VStr (nullish (t_type t) "pie"))])).

Definition fromOhlcLike (t : PlotlyTrace) : result DataTable :=
  let* x := toArray (t_x t) in
  let* o := toArray (t_open t) in
  let* h := toArray (t_high t) in
  let* l := toArray (t_low t) in
  let* c := toArray (t_close t) in
  Ok (makeTable (Some (orElse (t_name t) (nullish (t_type t) "ohlc")))
        [ {| name := "x"; values := x |};
          {| name := "open"; values := o |};
          {| name := "high"; values := h |};
          {| name := "low"; values := l |};
          {| name := "close"; values := c |} ]
        (Some [("traceType", VStr (nullish (t_type t) "ohlc"))])).

Definition fromWaterfall (t : PlotlyTrace) : result DataTable :=
  let* x := toArray (t_x t) in
  let* y := toArray (t_y t) in
  let* measure := toArray (t_measure t) in
  let cols :=
    [ {| name := "x"; values := x |}; {| name := "y"; values := y |} ]
    ++ (if nonEmpty (List.length measure)
        then [ {| name := "measure"; values := measure |} ] else []) in
  Ok (makeTable (Some (orElse (t_name t) "waterfall")) cols
        (Some [("traceType", VStr "waterfall")])).

Definition fromChoropleth (fig : PlotlyFigureLike) (t : PlotlyTrace) : result DataTable :=
  let valueCol := orElse (colorTitleFromFig fig t) "value" in
  let* locations := toArray (t_locations t) in
  let* z := toArray (t_z t) in
  Ok (makeTable (Some (orElse (t_name t) "choropleth"))
        [ {| name := "location"; values := locations |};
          {| name := valueCol; values := z |} ]
        (Some [("traceType", VStr "choropleth");
               ("locationmode", t_locationmode t);
               ("geo", t_geo t)])).

Definition fromBoxOrViolin (fig : PlotlyFigureLike) (t : PlotlyTrace) : result DataTable :=
  let* xs := toArray (t_x t) in
  let* ys := toArray (t_y t) in
  let xVals := if nonEmpty (List.length xs) then xs
               else repeat (VStr (nullish (t_name t) "group")) (List.length ys) in
  let xTitle := orElse (getXAxisTitle fig) "x" in
  let yTitle := orElse (getYAxisTitle fig) "y" in
  Ok (makeTable (Some (orElse (t_name t) (nullish (t_type t) "box")))
        [ {| name := xTitle; values := xVals |};
          {| name := yTitle; values := ys |} ]
        (Some [("traceType", VStr (nullish (t_type t) "box"));
               ("longForm", VBool true)])).

Definition notNull (v : Value) : bool :=
  match v with
  | VUndef | VNull => false
  | _ => true
  end.

Definition cartesianTypes : list string :=
  ["scatter"; "scattergl"; "bar"; "histogram"; "area"; "line"; "lines"].

Definition isCartesianTrace (t : PlotlyTrace) : bool :=
  (notNull (t_x t) || notNull (t_y t))
  && match t_type t with
     | None => true
     | Some ty => existsb (String.eqb ty) cartesianTypes
     end.

(** The long form of [fromCartesian]: every element of the [i]-th
    sub-array of [y] is paired with [x[i] ?? i]. *)
Fixpoint longRows (x : list Primitive) (i : nat) (y : list Primitive)
  : result (list Primitive * list Primitive) :=
  match y with
  | [] => Ok ([], [])
  | sub :: rest =>
      let gx := nullishValue (nth i x VUndef) (VNum (Int (Z.of_nat i))) in
      let* ys := toArray sub in
      let* more := longRows x (S i) rest in
      Ok (map (fun _ => gx) ys ++ fst more, ys ++ snd more)
  end.

Definition fromCartesian (fig : PlotlyFigureLike) (t : PlotlyTrace)
    (yNameFallback : string) (opts : ExtractOptions) : result DataTable :=
  let* x := toArray (t_x t) in
  let* y := toArray (t_y t) in
  let xName := orElse (xColumnName opts) (orElse (getXAxisTitle fig) "x") in
  let yName := orElse (t_name t) (orElse (getYAxisTitle fig) yNameFallback) in
  match y with
  | VArr _ :: _ =>
      let* rows := longRows x 0 y in
      Ok (makeTable (Some (orElse (t_name t) (nullish (t_type t) "cartesian-long")))
            [ {| name := xName; values := fst rows |};
              {| name := yName; values := snd rows |} ]
            (Some [("traceType", VStr (nullish (t_type t) "cartesian"));
                   ("longForm", VBool true)]))
  | _ =>
      Ok (makeTable (Some (orElse (t_name t) (nullish (t_type t) "cartesian")))
            [ {| name := xName; values := x |};
              {| name := yName; values := y |} ]
            (Some [("traceType", VStr (nullish (t_type t) "cartesian"))]))
  end.

(** *** The main loop *)

Definition fallbackKeys (t : PlotlyTrace) : list (string * Value) :=
  [ ("x", t_x t); ("y", t_y t); ("z", t_z t); ("labels", t_labels t);
    ("values", t_values t); ("locations", t_locations t); ("open", t_open t);
    ("high", t_high t); ("low", t_low t); ("close", t_close t) ].

Fixpoint fallbackColumns (members : list (string * Value)) : result (list DataColumn) :=
  match members with
  | [] => Ok []
  | (k, v) :: rest =>
      if notNull v then
        let* vals := toArray v in
        let* cols := fallbackColumns rest in
        Ok ({| name := k; values := vals |} :: cols)
      else fallbackColumns rest
  end.

Definition isOneOf (s : string) (l : list string) : bool := existsb (String.eqb s) l.

(** One iteration of the loop of [extractTables]: the table pushed for the
    trace [t], if any, when the counter [unnamedCounter] has the value
    [counter] on entry. *)
Definition traceTable (fig : PlotlyFigureLike) (options : ExtractOptions)
    (counter : nat) (t : PlotlyTrace) : result (option DataTable) :=
  let typ := toLowerCase (nullish (t_type t) "") in
  let fallbackY :=
    (nullish (unnamedYPrefix options) "y" ++ "_" ++ decimal (Z.of_nat counter))%string in
  if (typ =? "table")%string then option_result (fromTableTrace t)
  else if isOneOf typ ["heatmap"; "image"; "contour"] then option_result (fromHeatmapLike fig t)
  else if isOneOf typ ["pie"; "sunburst"; "treemap"; "funnelarea"] then option_result (fromPieLike t)
  else if isOneOf typ ["ohlc"; "candlestick"] then option_result (fromOhlcLike t)
  else if (typ =? "waterfall")%string then option_result (fromWaterfall t)
  else if (typ =? "choropleth")%string then option_result (fromChoropleth fig t)
  else if isOneOf typ ["box"; "violin"] then option_result (fromBoxOrViolin fig t)
  else if isCartesianTrace t then option_result (fromCartesian fig t fallbackY options)
  else
    let* cols := fallbackColumns (fallbackKeys t) in
    match cols with
    | [] => Ok None
    | _ :: _ =>
        Ok (Some (makeTable
                    (Some (orElse (t_name t) (orElse (Some typ) "trace")))
                    cols
                    (Some [("traceType", VStr (orElse (Some typ) "unknown"))])))
    end.

(** The [for] loop: [unnamedCounter] is incremented once per trace. *)
Fixpoint extractLoop (fig : PlotlyFigureLike) (options : ExtractOptions)
    (counter : nat) (traces : list PlotlyTrace) : result (list DataTable) :=
  match traces with
  | [] => Ok []
  | t :: rest =>
      let* pushed := traceTable fig options counter t in
      let* more := extractLoop fig options (S counter) rest in
      Ok (match pushed with
          | Some tab => tab :: more
          | None => more
          end)
  end.

(** *** Date coercion *)

Definition maybeDate (v : Primitive) : Primitive :=
  match v with
  | VUndef | VNull | VDate _ => v
  | VNum n =>
      if num_gt n 10000000 && num_lt n 17000000000 then VDate (num_trunc n) else v
  | VStr s =>
      match dateParse s with
      | Some ms => VDate ms
      | None => v
      end
  | _ => v
  end.

Definition coerceColumn (xName : string) (col : DataColumn) : DataColumn :=
  if (name col =? xName)%string || (toLowerCase (name col) =? "x")%string
  then {| name := name col; values := map maybeDate (values col) |}
  else col.

Definition coerceTable (xName : string) (tab : DataTable) : DataTable :=
  {| title := title tab;
     columns := map (coerceColumn xName) (columns tab);
     meta := meta tab |}.

(** The [if (coerceDates)] block, applied to the tables built so far. *)
Definition coerceDatesPass (xName : string) (perTrace : list DataTable) : list DataTable :=
  map (coerceTable xName) perTrace.

(** *** Merge *)

Definition key (v : Primitive) : string :=
  match v with
  | VDate ms => dateToISOString ms
  | _ => ToString v
  end.

Definition isKeyColumn (xName : string) (c : DataColumn) : bool :=
  (name c =? xName)%string || (name c =? "x")%string.

(** First loop of [mergeCartesianTables]: the state is the set [seen] and
    the array [xValues]. *)
Definition addKey (st : list string * list Primitive) (v : Primitive)
  : list string * list Primitive :=
  let k := key v in
  if existsb (String.eqb k) (fst st) then st
  else (k :: fst st, snd st ++ [v]).

Definition collectKeys (xName : string) (tables : list DataTable)
  : list string * list Primitive :=
  fold_left
    (fun st tab =>
       match find (isKeyColumn xName) (columns tab) with
       | None => st
       | Some xCol => fold_left addKey (values xCol) st
       end)
    tables ([], []).

(** The map [idx]: the binding set last for a key is found first. *)
Definition indexMap (xs : list Primitive) : list (string * nat) :=
  fold_left (fun m iv => (key (snd iv), fst iv) :: m)
            (combine (seq 0 (List.length xs)) xs) [].

Definition mapGet (m : list (string * nat)) (k : string) : option nat :=
  option_map snd (find (fun p => (fst p =? k)%string) m).

Definition seriesValues (xValues : list Primitive) (xCol yCol : DataColumn)
  : list Primitive :=
  let idx := indexMap (values xCol) in
  map (fun vx =>
         match mapGet idx (key vx) with
         | Some li => nullishValue (nth li (values yCol) VUndef) VNull
         | None => VNull
         end) xValues.

(** Second loop: one assignment [merged[seriesName] = ...] per table that
    has a key column and a column of another name. *)
Definition mergeStep (xName : string) (xValues : list Primitive)
    (merged : JsObject DataColumn) (tab : DataTable) : JsObject DataColumn :=
  match find (isKeyColumn xName) (columns tab) with
  | None => merged
  | Some xCol =>
      match find (fun c => negb (name c =? name xCol)%string) (columns tab) with
      | None => merged
      | Some yCol =>
          objSet merged (name yCol)
            {| name := name yCol; values := seriesValues xValues xCol yCol |}
      end
  end.

Definition mergeCartesianTables (tables : list DataTable) (xName : string) : DataTable :=
  let xValues := snd (collectKeys xName tables) in
  let merged0 : JsObject DataColumn := [(xName, {| name := xName; values := xValues |})] in
  let merged := fold_left (mergeStep xName xValues) tables merged0 in
  makeTable (Some "merged_cartesian") (objectValues merged)
    (Some [("merged", VBool true)]).

(** *** [extractTables] *)

Definition isCart (xName : string) (t : DataTable) : bool :=
  existsb (isKeyColumn xName) (columns t) && (2 <=? List.length (columns t))%nat.

(** The tables held by [perTrace] when the merge option is examined. *)
Definition perTraceTables (fig : PlotlyFigureLike) (options : ExtractOptions)
  : result (list DataTable) :=
  let traces := nullish (data fig) [] in
  let* perTrace := extractLoop fig options 1 traces in
  if nullish (coerceDates options) false then
    let xName := orElse (xColumnName options) (orElse (getXAxisTitle fig) "x") in
    Ok (coerceDatesPass xName perTrace)
  else Ok perTrace.

Definition extractTables (fig : PlotlyFigureLike) (options : ExtractOptions)
  : result (list DataTable) :=
  let* perTrace := perTraceTables fig options in
  if negb (nullish (mergeCartesian options) false) then Ok perTrace
  else
    let xName := orElse (xColumnName options) (orElse (getXAxisTitle fig) "x") in
    let cart := filter (isCart xName) perTrace in
    let other := filter (fun t => negb (isCart xName t)) perTrace in
    match cart with
    | [] => Ok perTrace
    | _ :: _ => Ok (mergeCartesianTables cart xName :: other)
    end.

(** *** [figureTo2DArrays] *)

Definition figureTo2DArrays (fig : PlotlyFigureLike) (opts : ExtractOptions)
  : result (list (list (list Primitive))) :=
  let* tables := extractTables fig opts in
  Ok (map tableToArrays tables).

(* ------------------------------------------------------------------ *)
(** ** Notions used to state the properties *)

(** The padding invariant of a table. *)
Definition uniformLength (t : DataTable) : Prop :=
  forall c, In c (columns t) -> List.length (values c) = maxLength (columns t).

Definition supportedDtype (dtype : string) : bool :=
  isOneOf dtype ["i1"; "u1"; "i2"; "u2"; "i4"; "u4"; "f4"; "f8"].

(** The traces that the dispatcher sends to a dedicated converter: the
    lower-cased type is one of the fourteen special tags, or the trace passes
    [isCartesianTrace]. *)
Definition specialTypes : list string :=
  ["table"; "heatmap"; "image"; "contour"; "pie"; "sunburst"; "treemap";
   "funnelarea"; "ohlc"; "candlestick"; "waterfall"; "choropleth"; "box"; "violin"].

Definition hasConverter (t : PlotlyTrace) : bool :=
  isOneOf (toLowerCase (nullish (t_type t) "")) specialTypes || isCartesianTrace t.

(** A trace that reaches [fromCartesian]. *)
Definition reachesCartesian (t : PlotlyTrace) : bool :=
  negb (isOneOf (toLowerCase (nullish (t_type t) "")) specialTypes) && isCartesianTrace t.

(** The shape cascade as the specification words it: an explicit shape
    counts only when it has exactly two entries; in every other case the
    label counts are tried, then the square root, then the single row; the
    result is transposed when the shape disagrees with the labels and its
    transpose agrees. *)
Definition shapeResolver_claimed (flat : list Primitive) (shape : Shape) (xLen yLen : nat)
  : result (list (list Primitive)) :=
  let len := Z.of_nat (List.length flat) in
  let candidate :=
    match parseShape shape with
    | Some [s0; s1] => Some (s0, s1)
    | _ =>
        if nonEmpty xLen && nonEmpty yLen then Some (Z.of_nat yLen, Z.of_nat xLen)
        else if isPerfectSquare len then Some (Z.sqrt len, Z.sqrt len)
        else None
    end in
  match candidate with
  | Some (s0, s1) =>
      let* Zm := reshape2D flat s0 s1 in
      if (negb (s0 =? Z.of_nat yLen) || negb (s1 =? Z.of_nat xLen))
         && (s1 =? Z.of_nat yLen) && (s0 =? Z.of_nat xLen)
      then Ok (transpose Zm) else Ok Zm
  | None => Ok [flat]
  end.

(** The keys of a list in first-seen order, one value per textual key. *)
Fixpoint distinctByKey (vs : list Primitive) : list Primitive :=
  match vs with
  | [] => []
  | v :: r => v :: filter (fun w => negb (key w =? key v)%string) (distinctByKey r)
  end.

(** The key column and the value column that [mergeCartesianTables] reads
    in a table. *)
Definition keyColumn (xName : string) (tab : DataTable) : option DataColumn :=
  find (isKeyColumn xName) (columns tab).

Definition valueColumn (xName : string) (tab : DataTable) : option DataColumn :=
  match keyColumn xName tab with
  | None => None
  | Some xCol => find (fun c => negb (name c =? name xCol)%string) (columns tab)
  end.

Definition keyValues (xName : string) (tab : DataTable) : list Primitive :=
  match keyColumn xName tab with
  | None => []
  | Some xCol => values xCol
  end.

(** The series a table gives against the key column [xValues]. *)
Definition seriesOf (xName : string) (xValues : list Primitive) (tab : DataTable)
  : option DataColumn :=
  match keyColumn xName tab, valueColumn xName tab with
  | Some xCol, Some yCol =>
      Some {| name := name yCol; values := seriesValues xValues xCol yCol |}
  | _, _ => None
  end.

Definition seriesNames (xName : string) (tables : list DataTable) : list string :=
  flat_map (fun tab => match valueColumn xName tab with
                       | Some yCol => [name yCol]
                       | None => []
                       end) tables.

(** Every property holds a column carrying its own key as name, and no key
    occurs twice. *)
Definition wellKeyed (o : JsObject DataColumn) : Prop :=
  NoDup (map fst o) /\ Forall (fun p => name (snd p) = fst p) o.


(** The series columns of the tables, in table order. *)
Definition seriesList (xName : string) (xValues : list Primitive)
    (tables : list DataTable) : list DataColumn :=
  flat_map (fun tab => match seriesOf xName xValues tab with
                       | Some col => [col]
                       | None => []
                       end) tables.

(** What the loop leaves for a trace after the optional coercion pass. *)
Definition afterCoercion (fig : PlotlyFigureLike) (options : ExtractOptions)
    (tab : DataTable) : DataTable :=
  if nullish (coerceDates options) false
  then coerceTable (orElse (xColumnName options) (orElse (getXAxisTitle fig) "x")) tab
  else tab.

(** A string written in ASCII: on such a string the case folding of the
    embedding is [String.prototype.toLowerCase]. *)
Definition isAsciiString (s : string) : bool :=
  forallb (fun c => charCode c <? 128) (list_ascii_of_string s).

(** A shape written as text: the entries in decimal, joined by [sep]. *)
Definition shapeText (sep : string) (dims : list Z) : string :=
  String.concat sep (map decimal dims).

(** A matrix of [r] rows, each of [c] entries. *)
Definition rectangular (r c : nat) (m : list (list Value)) : Prop :=
  List.length m = r /\ Forall (fun row => List.length row = c) m.

(* ================================================================== *)
(** * Properties *)

(* ------------------------------------------------------------------ *)
(** ** Bytes, base64 and the decoder *)

Lemma byteZ_range (b : byte) : 0 <= byteZ b < 256.
Proof.
  unfold byteZ. pose proof (Byte.to_N_bounded b). lia.
Qed.

Lemma Zbyte_byteZ (b : byte) : Zbyte (byteZ b) = b.
Proof.
  unfold Zbyte. rewrite Z.mod_small by apply byteZ_range.
  unfold byteZ. rewrite N2Z.id, Byte.of_to_N. reflexivity.
Qed.

Lemma byteZ_Zbyte (z : Z) : byteZ (Zbyte z) = z mod 256.
Proof.
  unfold Zbyte, byteZ.
  assert (Hr : 0 <= z mod 256 < 256) by (apply Z.mod_pos_bound; lia).
  destruct (Byte.of_N (Z.to_N (z mod 256))) as [b|] eqn:E.
  - apply Byte.to_of_N in E. rewrite E. lia.
  - apply Byte.of_N_None_iff in E. lia.
Qed.

Lemma charCode_fromCharCode (z : Z) : 0 <= z < 256 -> charCode (fromCharCode z) = z.
Proof.
  intros Hz. unfold charCode, fromCharCode.
  rewrite N_ascii_embedding by lia. lia.
Qed.

Lemma sextet_char (s : Z) :
  0 <= s < 64 ->
  sextet_of_char (char_of_sextet s) = Some s
  /\ isPad (char_of_sextet s) = false
  /\ isAsciiWhitespace (char_of_sextet s) = false.
Proof.
  intros Hs. unfold sextet_of_char, isPad, isAsciiWhitespace, char_of_sextet.
  destruct (s <? 26) eqn:E1; [|destruct (s <? 52) eqn:E2; [|destruct (s <? 62) eqn:E3;
    [|destruct (s =? 62) eqn:E4]]].
  - rewrite charCode_fromCharCode by lia.
    replace ((65 <=? s + 65) && (s + 65 <=? 90)) with true by (symmetry; apply andb_true_iff; lia).
    repeat split; [f_equal; lia | lia | ].
    repeat (apply orb_false_iff; split); lia.
  - rewrite charCode_fromCharCode by lia.
    replace ((65 <=? s + 71) && (s + 71 <=? 90)) with false by (symmetry; apply andb_false_iff; lia).
    replace ((97 <=? s + 71) && (s + 71 <=? 122)) with true by (symmetry; apply andb_true_iff; lia).
    repeat split; [f_equal; lia | lia | ].
    repeat (apply orb_false_iff; split); lia.
  - rewrite charCode_fromCharCode by lia.
    replace ((65 <=? s - 4) && (s - 4 <=? 90)) with false by (symmetry; apply andb_false_iff; lia).
    replace ((97 <=? s - 4) && (s - 4 <=? 122)) with false by (symmetry; apply andb_false_iff; lia).
    replace ((48 <=? s - 4) && (s - 4 <=? 57)) with true by (symmetry; apply andb_true_iff; lia).
    repeat split; [f_equal; lia | lia | ].
    repeat (apply orb_false_iff; split); lia.
  - assert (s = 62) by lia. subst s. vm_compute. auto.
  - assert (s = 63) by lia. subst s. vm_compute. auto.
Qed.

Lemma list_ind3 {A} (P : list A -> Prop) :
  P [] -> (forall a, P [a]) -> (forall a b, P [a; b]) ->
  (forall a b c l, P l -> P (a :: b :: c :: l)) ->
  forall l, P l.
Proof.
  intros H0 H1 H2 H3 l.
  assert (H : P l /\ (forall a, P (a :: l)) /\ (forall a b, P (a :: b :: l))).
  { induction l as [|x l IH].
    - auto.
    - destruct IH as (Ha & Hb & Hc). repeat split; auto. }
  apply H.
Qed.

Lemma stripPadding_group (a b c d : ascii) (rest : list ascii) :
  isPad d = false ->
  stripPadding (a :: b :: c :: d :: rest) = a :: b :: c :: d :: stripPadding rest.
Proof.
  intros Hd. destruct rest as [|e [|f rest]]; cbn [stripPadding]; rewrite ?Hd; try reflexivity.
  destruct (isPad e); reflexivity.
Qed.

Lemma isPad_eq : isPad "="%char = true.
Proof. reflexivity. Qed.

Lemma btoaChars_clean (l : list byte) :
  filter (fun c => negb (isAsciiWhitespace c)) (btoaChars l) = btoaChars l
  /\ Nat.modulo (List.length (btoaChars l)) 4 = 0%nat.
Proof.
  induction l as [| a | a b | a b c l IH] using list_ind3.
  - split; reflexivity.
  - pose proof (byteZ_range a) as Ha.
    cbn [btoaChars filter List.length].
    destruct (sextet_char (byteZ a / 4)) as (_ & _ & W1); [Z.div_mod_to_equations; lia|].
    destruct (sextet_char ((byteZ a mod 4) * 16)) as (_ & _ & W2); [Z.div_mod_to_equations; lia|].
    rewrite W1, W2. split; reflexivity.
  - pose proof (byteZ_range a) as Ha. pose proof (byteZ_range b) as Hb.
    cbn [btoaChars filter List.length].
    destruct (sextet_char (byteZ a / 4)) as (_ & _ & W1); [Z.div_mod_to_equations; lia|].
    destruct (sextet_char ((byteZ a mod 4) * 16 + byteZ b / 16)) as (_ & _ & W2);
      [Z.div_mod_to_equations; lia|].
    destruct (sextet_char ((byteZ b mod 16) * 4)) as (_ & _ & W3); [Z.div_mod_to_equations; lia|].
    rewrite W1, W2, W3. split; reflexivity.
  - pose proof (byteZ_range a) as Ha. pose proof (byteZ_range b) as Hb.
    pose proof (byteZ_range c) as Hc. destruct IH as [IH1 IH2].
    cbn [btoaChars filter List.length].
    destruct (sextet_char (byteZ a / 4)) as (_ & _ & W1); [Z.div_mod_to_equations; lia|].
    destruct (sextet_char ((byteZ a mod 4) * 16 + byteZ b / 16)) as (_ & _ & W2);
      [Z.div_mod_to_equations; lia|].
    destruct (sextet_char ((byteZ b mod 16) * 4 + byteZ c / 64)) as (_ & _ & W3);
      [Z.div_mod_to_equations; lia|].
    destruct (sextet_char (byteZ c mod 64)) as (_ & _ & W4); [Z.div_mod_to_equations; lia|].
    rewrite W1, W2, W3, W4. cbn [negb]. rewrite IH1. split; [reflexivity|].
    replace (S (S (S (S (List.length (btoaChars l))))))
      with (List.length (btoaChars l) + 1 * 4)%nat by lia.
    rewrite Nat.Div0.mod_add. exact IH2.
Qed.

Lemma decodeGroups_btoaChars (l : list byte) :
  decodeGroups (stripPadding (btoaChars l)) = Some l.
Proof.
  induction l as [| a | a b | a b c l IH] using list_ind3.
  - reflexivity.
  - pose proof (byteZ_range a) as Ha.
    destruct (sextet_char (byteZ a / 4)) as (S1 & P1 & _); [Z.div_mod_to_equations; lia|].
    destruct (sextet_char ((byteZ a mod 4) * 16)) as (S2 & P2 & _); [Z.div_mod_to_equations; lia|].
    cbn [btoaChars stripPadding]. rewrite isPad_eq.
    cbn [decodeGroups]. rewrite S1, S2.
    replace (byteZ a / 4 * 4 + byteZ a mod 4 * 16 / 16) with (byteZ a)
      by (Z.div_mod_to_equations; lia).
    rewrite Zbyte_byteZ. reflexivity.
  - pose proof (byteZ_range a) as Ha. pose proof (byteZ_range b) as Hb.
    destruct (sextet_char (byteZ a / 4)) as (S1 & P1 & _); [Z.div_mod_to_equations; lia|].
    destruct (sextet_char ((byteZ a mod 4) * 16 + byteZ b / 16)) as (S2 & P2 & _);
      [Z.div_mod_to_equations; lia|].
    destruct (sextet_char ((byteZ b mod 16) * 4)) as (S3 & P3 & _); [Z.div_mod_to_equations; lia|].
    cbn [btoaChars stripPadding]. rewrite isPad_eq, P3.
    cbn [decodeGroups]. rewrite S1, S2, S3.
    replace (byteZ a / 4 * 4 + (byteZ a mod 4 * 16 + byteZ b / 16) / 16) with (byteZ a)
      by (Z.div_mod_to_equations; lia).
    replace ((byteZ a mod 4 * 16 + byteZ b / 16) mod 16 * 16 + byteZ b mod 16 * 4 / 4)
      with (byteZ b) by (Z.div_mod_to_equations; lia).
    rewrite !Zbyte_byteZ. reflexivity.
  - pose proof (byteZ_range a) as Ha. pose proof (byteZ_range b) as Hb.
    pose proof (byteZ_range c) as Hc.
    destruct (sextet_char (byteZ a / 4)) as (S1 & P1 & _); [Z.div_mod_to_equations; lia|].
    destruct (sextet_char ((byteZ a mod 4) * 16 + byteZ b / 16)) as (S2 & P2 & _);
      [Z.div_mod_to_equations; lia|].
    destruct (sextet_char ((byteZ b mod 16) * 4 + byteZ c / 64)) as (S3 & P3 & _);
      [Z.div_mod_to_equations; lia|].
    destruct (sextet_char (byteZ c mod 64)) as (S4 & P4 & _); [Z.div_mod_to_equations; lia|].
    cbn [btoaChars]. rewrite stripPadding_group by exact P4.
    cbn [decodeGroups]. rewrite S1, S2, S3, S4, IH.
    replace (byteZ a / 4 * 4 + (byteZ a mod 4 * 16 + byteZ b / 16) / 16) with (byteZ a)
      by (Z.div_mod_to_equations; lia).
    replace ((byteZ a mod 4 * 16 + byteZ b / 16) mod 16 * 16
             + (byteZ b mod 16 * 4 + byteZ c / 64) / 4)
      with (byteZ b) by (Z.div_mod_to_equations; lia).
    replace ((byteZ b mod 16 * 4 + byteZ c / 64) mod 4 * 64 + byteZ c mod 64)
      with (byteZ c) by (Z.div_mod_to_equations; lia).
    rewrite !Zbyte_byteZ. reflexivity.
Qed.

(** The platform decoder inverts the encoder on every byte sequence. *)
Lemma atob_btoa (l : list byte) : atob (btoa l) = Some l.
Proof.
  unfold atob, btoa. rewrite list_ascii_of_string_of_list_ascii.
  destruct (btoaChars_clean l) as [Hf Hm]. rewrite Hf, Hm.
  apply decodeGroups_btoaChars.
Qed.

Lemma base64ToBytes_btoa (l : list byte) : base64ToBytes (btoa l) = Ok l.
Proof. unfold base64ToBytes. rewrite atob_btoa. reflexivity. Qed.

Lemma decodeNdarray_tag (d : Dtype) (bdata : string) :
  decodeNdarray (dtypeTag d) bdata =
  let* bytes := base64ToBytes bdata in
  Ok (map (fun w => VNum (elemValue d w))
          (typedArray (dtypeWidth d) (Nat.div (List.length bytes) (dtypeWidth d)) bytes)).
Proof.
  unfold decodeNdarray. destruct (base64ToBytes bdata) as [bytes|e]; [|reflexivity].
  destruct d; reflexivity.
Qed.

Lemma typedArray_length (width count : nat) (bytes : list byte) :
  List.length (typedArray width count bytes) = count.
Proof. unfold typedArray. rewrite length_map, length_seq. reflexivity. Qed.

(** Bytes beyond the last whole element are not read. *)
Lemma typedArray_firstn (width count m : nat) (bytes : list byte) :
  (count * width <= m)%nat ->
  typedArray width count (firstn m bytes) = typedArray width count bytes.
Proof.
  intros Hm. unfold typedArray. apply map_ext_in. intros i Hi.
  apply in_seq in Hi.
  rewrite skipn_firstn_comm, firstn_firstn.
  replace (Nat.min width (m - i * width)) with width; [reflexivity|].
  assert ((i + 1) * width <= count * width)%nat by (apply Nat.mul_le_mono_r; lia).
  lia.
Qed.

Lemma typedArray_chunks (width : nat) (chunks : list (list byte)) :
  Forall (fun c => List.length c = width) chunks ->
  typedArray width (List.length chunks) (List.concat chunks) = map leWord chunks.
Proof.
  induction 1 as [|c chunks Hc _ IH].
  - reflexivity.
  - unfold typedArray in *. cbn [List.length seq map List.concat].
    f_equal.
    + cbn [Nat.mul skipn]. rewrite firstn_app, Hc, Nat.sub_diag, firstn_O, app_nil_r.
      rewrite <- Hc, firstn_all. reflexivity.
    + rewrite <- seq_shift, map_map. rewrite <- IH. apply map_ext. intros i.
      replace (S i * width)%nat with (List.length c + i * width)%nat by lia.
      rewrite skipn_app, Nat.add_comm, Nat.add_sub.
      rewrite (skipn_all2 c) by lia. reflexivity.
Qed.

Lemma leBytes_length (width : nat) (w : Z) : List.length (leBytes width w) = width.
Proof. revert w. induction width; intros w; cbn; [reflexivity | f_equal; apply IHwidth]. Qed.

Lemma leWord_leBytes (width : nat) (w : Z) :
  0 <= w < 2 ^ (8 * Z.of_nat width) -> leWord (leBytes width w) = w.
Proof.
  revert w. induction width as [|k IH]; intros w Hw.
  - cbn in *. lia.
  - cbn [leBytes leWord fold_right]. fold (leWord (leBytes k (w / 256))).
    rewrite byteZ_Zbyte.
    replace (8 * Z.of_nat (S k)) with (8 + 8 * Z.of_nat k) in Hw by lia.
    rewrite Z.pow_add_r in Hw by lia. change (2 ^ 8) with 256 in Hw.
    rewrite IH.
    + pose proof (Z.div_mod w 256). lia.
    + split; [apply Z.div_pos; lia|].
      apply Z.div_lt_upper_bound; lia.
Qed.

(** *** IEEE-754 patterns *)

Lemma Zpos_iter_xO (p : positive) (n : nat) :
  Zpos (Nat.iter n xO p) = Zpos p * 2 ^ Z.of_nat n.
Proof.
  induction n as [|n IH].
  - cbn. lia.
  - change (Nat.iter (S n) xO p) with (xO (Nat.iter n xO p)).
    rewrite Pos2Z.inj_xO, IH, Nat2Z.inj_succ, Z.pow_succ_r by lia. ring.
Qed.

Lemma reduceFrac_iter (p : positive) (n k : nat) :
  reduceFrac (Nat.iter n xO p) (n + k) = reduceFrac p k.
Proof. induction n as [|n IH]; [reflexivity | exact IH]. Qed.

Lemma reduceFrac_odd (p : positive) (k : nat) :
  Z.odd (Zpos p) = true -> reduceFrac p k = (p, k).
Proof. destruct p; destruct k; cbn; intros H; try reflexivity; discriminate. Qed.

(** Scaling the mantissa of an integer. *)
Lemma dyadic_int (neg : bool) (p : positive) (j : Z) :
  0 <= j -> dyadic neg (Zpos p * 2 ^ j) (- j) = Int (signOf neg * Zpos p).
Proof.
  intros Hj. rewrite <- (Z2Nat.id j) at 1 by exact Hj. rewrite <- Zpos_iter_xO.
  unfold dyadic. fold (signOf neg).
  destruct (Z.leb_spec 0 (- j)) as [H0 | H0].
  - assert (j = 0) by lia. subst j. change (Z.to_nat 0) with 0%nat.
    change (Nat.iter 0 xO p) with p. change (2 ^ (- 0)) with 1. rewrite Z.mul_1_r. reflexivity.
  - rewrite Z.opp_involutive.
    rewrite <- (Nat.add_0_r (Z.to_nat j)) at 2. rewrite reduceFrac_iter. reflexivity.
Qed.

(** Scaling the mantissa of a non-integral value. *)
Lemma dyadic_frac (neg : bool) (p k : positive) (j : Z) :
  0 <= j -> Z.odd (Zpos p) = true ->
  dyadic neg (Zpos p * 2 ^ j) (- Zpos k - j) = Frac (signOf neg * Zpos p) k.
Proof.
  intros Hj Hodd. rewrite <- (Z2Nat.id j) at 1 by exact Hj. rewrite <- Zpos_iter_xO.
  unfold dyadic. fold (signOf neg).
  destruct (Z.leb_spec 0 (- Zpos k - j)) as [H0 | H0]; [lia|].
  replace (Z.to_nat (- (- Zpos k - j))) with (Z.to_nat j + Pos.to_nat k)%nat by lia.
  rewrite reduceFrac_iter, (reduceFrac_odd p _ Hodd).
  destruct (Pos.to_nat k) as [|k'] eqn:Ek; [lia|].
  rewrite <- Ek, Pos2Nat.id. reflexivity.
Qed.

Lemma ieeeWord_fields (mbits ebits : Z) (neg : bool) (ex mant : Z) :
  0 <= mbits -> 0 <= ebits -> 0 <= ex < 2 ^ ebits -> 0 <= mant < 2 ^ mbits ->
  let w := ieeeWord mbits ebits neg ex mant in
  0 <= w < 2 ^ (mbits + ebits + 1)
  /\ Z.testbit w (mbits + ebits) = neg
  /\ (w / 2 ^ mbits) mod 2 ^ ebits = ex
  /\ w mod 2 ^ mbits = mant.
Proof.
  intros Hm He Hex Hmant w. unfold ieeeWord in w.
  assert (HA : 0 < 2 ^ mbits) by (apply Z.pow_pos_nonneg; lia).
  assert (HB : 0 < 2 ^ ebits) by (apply Z.pow_pos_nonneg; lia).
  assert (HAB : 2 ^ (mbits + ebits) = 2 ^ mbits * 2 ^ ebits) by (apply Z.pow_add_r; lia).
  assert (HAB1 : 2 ^ (mbits + ebits + 1) = 2 * (2 ^ mbits * 2 ^ ebits)).
  { rewrite Z.pow_add_r, HAB by lia. change (2 ^ 1) with 2. ring. }
  set (A := 2 ^ mbits) in *. set (B := 2 ^ ebits) in *.
  set (sb := if neg then 1 else 0).
  assert (Hsb : 0 <= sb <= 1) by (unfold sb; destruct neg; lia).
  assert (Hw : w = (sb * B + ex) * A + mant).
  { unfold w, sb. rewrite HAB. destruct neg; ring. }
  assert (Hlow : 0 <= ex * A + mant < A * B) by nia.
  assert (Hdiv : w / A = sb * B + ex).
  { symmetry. apply Z.div_unique with (r := mant); [left; lia | rewrite Hw; ring]. }
  assert (Hmod : w mod A = mant).
  { symmetry. apply Z.mod_unique with (q := sb * B + ex); [left; lia | rewrite Hw; ring]. }
  assert (Hhi : w / 2 ^ (mbits + ebits) = sb).
  { rewrite HAB. symmetry. apply Z.div_unique with (r := ex * A + mant); [left; lia|].
    rewrite Hw. ring. }
  split; [rewrite HAB1; nia|]. split.
  - destruct neg.
    + apply Z.testbit_true; [lia|]. rewrite Hhi. reflexivity.
    + apply Z.testbit_false; [lia|]. rewrite Hhi. reflexivity.
  - split; [|exact Hmod]. rewrite Hdiv.
    symmetry. apply Z.mod_unique with (q := sb); [left; lia | ring].
Qed.

Lemma Some_inj {A} (a b : A) : Some a = Some b -> a = b.
Proof. intros H. injection H as H. exact H. Qed.

Lemma ieeeFinite_value (mbits ebits : Z) (neg : bool) (p : positive) (e w : Z) (target : Number) :
  1 <= mbits -> 2 <= ebits ->
  ieeeFinite mbits ebits neg (Zpos p) e = Some w ->
  (forall j, 0 <= j -> dyadic neg (Zpos p * 2 ^ j) (e - j) = target) ->
  (forall t, 0 <= t -> Zpos p mod 2 ^ t = 0 -> dyadic neg (Zpos p / 2 ^ t) (e + t) = target) ->
  0 <= w < 2 ^ (mbits + ebits + 1) /\ ieeeValue mbits ebits w = target.
Proof.
  intros Hm He Hw Hdown Hup. unfold ieeeFinite in Hw.
  set (bias := 2 ^ (ebits - 1) - 1) in *.
  set (b := Z.log2 (Zpos p)) in *.
  assert (Hb0 : 0 <= b) by apply Z.log2_nonneg.
  assert (Hlog : 2 ^ b <= Zpos p < 2 ^ (b + 1)).
  { unfold b. replace (Z.log2 (Zpos p) + 1) with (Z.succ (Z.log2 (Zpos p))) by lia.
    apply Z.log2_spec. lia. }
  assert (HB : 2 ^ ebits = 2 * (bias + 1)).
  { unfold bias. replace ebits with (1 + (ebits - 1)) at 1 by lia.
    rewrite Z.pow_add_r by lia. change (2 ^ 1) with 2. ring. }
  assert (Hbias : 1 <= bias).
  { unfold bias. assert (2 ^ 1 <= 2 ^ (ebits - 1)) by (apply Z.pow_le_mono_r; lia).
    change (2 ^ 1) with 2 in *. lia. }
  assert (HA : 0 < 2 ^ mbits) by (apply Z.pow_pos_nonneg; lia).
  unfold ieeeValue. fold bias.
  destruct (Z.ltb_spec (b + e) (1 - bias)) as [Hsub | Hnorm].
  - (* subnormal *)
    destruct (Z.ltb_spec (e - (1 - bias - mbits)) 0) as [|Hj]; [discriminate|].
    apply Some_inj in Hw. subst w.
    set (j := e - (1 - bias - mbits)) in *.
    assert (Hmant : 0 <= Zpos p * 2 ^ j < 2 ^ mbits).
    { split; [apply Z.mul_nonneg_nonneg; [lia | apply Z.pow_nonneg; lia]|].
      apply Z.lt_le_trans with (2 ^ (b + 1) * 2 ^ j).
      - apply Z.mul_lt_mono_pos_r; [apply Z.pow_pos_nonneg; lia | lia].
      - rewrite <- Z.pow_add_r by lia. apply Z.pow_le_mono_r; lia. }
    destruct (ieeeWord_fields mbits ebits neg 0 (Zpos p * 2 ^ j)) as (Hr & Hs & Hex & Hma);
      [lia | lia | lia | exact Hmant |].
    split; [exact Hr|]. rewrite Hs, Hex, Hma.
    destruct (Z.eqb_spec 0 (2 ^ ebits - 1)); [lia|]. cbn [Z.eqb].
    replace (1 - bias - mbits) with (e - j) by (unfold j; lia).
    apply Hdown. exact Hj.
  - destruct (Z.ltb_spec bias (b + e)) as [|Hmax]; [discriminate|].
    assert (Hexr : 0 <= b + e + bias < 2 ^ ebits) by lia.
    destruct (Z.leb_spec b mbits) as [Hsmall | Hbig].
    + apply Some_inj in Hw. subst w.
      assert (Hp2 : 2 ^ mbits = 2 ^ b * 2 ^ (mbits - b)).
      { rewrite <- Z.pow_add_r by lia. f_equal. lia. }
      assert (Hp3 : 2 ^ (b + 1) * 2 ^ (mbits - b) = 2 * 2 ^ mbits).
      { rewrite <- Z.pow_add_r by lia. replace (b + 1 + (mbits - b)) with (1 + mbits) by lia.
        rewrite Z.pow_add_r by lia. reflexivity. }
      assert (Hpos : 0 < 2 ^ (mbits - b)) by (apply Z.pow_pos_nonneg; lia).
      assert (Hmant : 0 <= Zpos p * 2 ^ (mbits - b) - 2 ^ mbits < 2 ^ mbits) by nia.
      destruct (ieeeWord_fields mbits ebits neg (b + e + bias)
                  (Zpos p * 2 ^ (mbits - b) - 2 ^ mbits)) as (Hr & Hs & Hex & Hma);
        [lia | lia | exact Hexr | exact Hmant |].
      split; [exact Hr|]. rewrite Hs, Hex, Hma.
      destruct (Z.eqb_spec (b + e + bias) (2 ^ ebits - 1)); [lia|].
      destruct (Z.eqb_spec (b + e + bias) 0); [lia|].
      replace (2 ^ mbits + (Zpos p * 2 ^ (mbits - b) - 2 ^ mbits))
        with (Zpos p * 2 ^ (mbits - b)) by ring.
      replace (b + e + bias - bias - mbits) with (e - (mbits - b)) by lia.
      apply Hdown. lia.
    + destruct (Z.eqb_spec (Zpos p mod 2 ^ (b - mbits)) 0) as [Hdivd|]; [|discriminate].
      apply Some_inj in Hw. subst w.
      set (t := b - mbits) in *.
      assert (Hpos : 0 < 2 ^ t) by (apply Z.pow_pos_nonneg; lia).
      assert (Hq : Zpos p = 2 ^ t * (Zpos p / 2 ^ t)).
      { pose proof (Z.div_mod (Zpos p) (2 ^ t)). lia. }
      assert (Hp2 : 2 ^ b = 2 ^ t * 2 ^ mbits).
      { rewrite <- Z.pow_add_r by lia. f_equal. lia. }
      assert (Hp3 : 2 ^ (b + 1) = 2 ^ t * (2 * 2 ^ mbits)).
      { replace (b + 1) with (t + (1 + mbits)) by lia. rewrite !Z.pow_add_r by lia.
        reflexivity. }
      assert (Hmant : 0 <= Zpos p / 2 ^ t - 2 ^ mbits < 2 ^ mbits) by nia.
      destruct (ieeeWord_fields mbits ebits neg (b + e + bias)
                  (Zpos p / 2 ^ t - 2 ^ mbits)) as (Hr & Hs & Hex & Hma);
        [lia | lia | exact Hexr | exact Hmant |].
      split; [exact Hr|]. rewrite Hs, Hex, Hma.
      destruct (Z.eqb_spec (b + e + bias) (2 ^ ebits - 1)); [lia|].
      destruct (Z.eqb_spec (b + e + bias) 0); [lia|].
      replace (2 ^ mbits + (Zpos p / 2 ^ t - 2 ^ mbits)) with (Zpos p / 2 ^ t) by ring.
      replace (b + e + bias - bias - mbits) with (e + t) by lia.
      apply Hup; [lia | exact Hdivd].
Qed.

(** The pattern the encoder gives to a number denotes that number. *)
Theorem ieee_roundtrip (mbits ebits : Z) (v : Number) (w : Z) :
  1 <= mbits -> 2 <= ebits ->
  ieeeBits mbits ebits v = Some w ->
  0 <= w < 2 ^ (mbits + ebits + 1) /\ ieeeValue mbits ebits w = v.
Proof.
  intros Hm He Hw.
  assert (HB : 2 < 2 ^ ebits).
  { assert (2 ^ 2 <= 2 ^ ebits) by (apply Z.pow_le_mono_r; lia). change (2 ^ 2) with 4 in *. lia. }
  assert (HA : 0 < 2 ^ mbits) by (apply Z.pow_pos_nonneg; lia).
  assert (Hhalf : 0 < 2 ^ (mbits - 1) < 2 ^ mbits).
  { split; [apply Z.pow_pos_nonneg; lia | apply Z.pow_lt_mono_r; lia]. }
  assert (Hspecial : forall (neg : bool) (ex mant : Z),
             0 <= ex < 2 ^ ebits -> 0 <= mant < 2 ^ mbits ->
             forall target,
               (let s := neg in
                let bias := 2 ^ (ebits - 1) - 1 in
                (if ex =? 2 ^ ebits - 1
                 then (if mant =? 0 then (if s then NegInf else PosInf) else NaN)
                 else (if ex =? 0 then dyadic s mant (1 - bias - mbits)
                       else dyadic s (2 ^ mbits + mant) (ex - bias - mbits))) = target) ->
               0 <= ieeeWord mbits ebits neg ex mant < 2 ^ (mbits + ebits + 1)
               /\ ieeeValue mbits ebits (ieeeWord mbits ebits neg ex mant) = target).
  { intros neg ex mant Hex Hmant target Ht.
    destruct (ieeeWord_fields mbits ebits neg ex mant) as (Hr & Hs & Hexx & Hma);
      [lia | lia | exact Hex | exact Hmant |].
    split; [exact Hr|]. unfold ieeeValue. rewrite Hs, Hexx, Hma. exact Ht. }
  destruct v as [| | | | z | n k]; cbn [ieeeBits] in Hw.
  - injection Hw as <-. apply Hspecial; [lia | lia |].
    cbn zeta. rewrite Z.eqb_refl. destruct (Z.eqb_spec (2 ^ (mbits - 1)) 0); [lia | reflexivity].
  - injection Hw as <-. apply Hspecial; [lia | lia |].
    cbn zeta. rewrite Z.eqb_refl. reflexivity.
  - injection Hw as <-. apply Hspecial; [lia | lia |].
    cbn zeta. rewrite Z.eqb_refl. reflexivity.
  - injection Hw as <-. apply Hspecial; [lia | lia |].
    cbn zeta. destruct (Z.eqb_spec 0 (2 ^ ebits - 1)); [lia | reflexivity].
  - destruct z as [|p|p].
    + injection Hw as <-.
      assert (E0 : ieeeWord mbits ebits false 0 0 = 0) by (unfold ieeeWord; ring).
      destruct (Hspecial false 0 0 ltac:(lia) ltac:(lia) (Int 0)) as [H1 H2].
      { cbn zeta. destruct (Z.eqb_spec 0 (2 ^ ebits - 1)); [lia | reflexivity]. }
      rewrite E0 in H1, H2. split; assumption.
    + cbn [Z.ltb Z.compare Z.abs] in Hw.
      eapply ieeeFinite_value; [exact Hm | exact He | exact Hw | |].
      * intros j Hj. replace (0 - j) with (- j) by lia. rewrite dyadic_int by exact Hj.
        cbn [signOf]. f_equal; lia.
      * intros t Ht Hd.
        assert (Hpos : 0 < 2 ^ t) by (apply Z.pow_pos_nonneg; lia).
        assert (Hq : Zpos p = 2 ^ t * (Zpos p / 2 ^ t))
          by (pose proof (Z.div_mod (Zpos p) (2 ^ t)); lia).
        destruct (Zpos p / 2 ^ t) as [|q|q] eqn:Eq; [lia | | lia].
        unfold dyadic. destruct (Z.leb_spec 0 (0 + t)); [|lia].
        f_equal. rewrite Hq. replace (0 + t) with t by lia. ring.
    + cbn [Z.ltb Z.compare Z.abs] in Hw.
      eapply ieeeFinite_value; [exact Hm | exact He | exact Hw | |].
      * intros j Hj. replace (0 - j) with (- j) by lia. rewrite dyadic_int by exact Hj.
        cbn [signOf]. f_equal; lia.
      * intros t Ht Hd.
        assert (Hpos : 0 < 2 ^ t) by (apply Z.pow_pos_nonneg; lia).
        assert (Hq : Zpos p = 2 ^ t * (Zpos p / 2 ^ t))
          by (pose proof (Z.div_mod (Zpos p) (2 ^ t)); lia).
        destruct (Zpos p / 2 ^ t) as [|q|q] eqn:Eq; [lia | | lia].
        unfold dyadic. destruct (Z.leb_spec 0 (0 + t)); [|lia].
        f_equal. replace (0 + t) with t by lia.
        change (Z.neg p) with (- Zpos p). rewrite Hq. ring.
  - destruct (Z.odd n) eqn:Hodd; [|discriminate].
    assert (Hshape : exists p, Z.abs n = Zpos p /\ Z.odd (Zpos p) = true
                               /\ signOf (n <? 0) * Zpos p = n).
    { destruct n as [|p|p]; [discriminate | |]; exists p; cbn; auto. }
    destruct Hshape as (p & Hp & Hpodd & Hsign). rewrite Hp in Hw.
    eapply ieeeFinite_value; [exact Hm | exact He | exact Hw | |].
    + intros j Hj. rewrite dyadic_frac by assumption. rewrite Hsign. reflexivity.
    + intros t Ht Hd.
      assert (t = 0).
      { destruct (Z.eq_dec t 0) as [|Hne]; [assumption|]. exfalso.
        assert (Hpos : 0 < 2 ^ (t - 1)) by (apply Z.pow_pos_nonneg; lia).
        assert (H2 : 2 ^ t = 2 * 2 ^ (t - 1)).
        { replace t with (1 + (t - 1)) at 1 by lia. rewrite Z.pow_add_r by lia. reflexivity. }
        assert (Hdm : Zpos p = 2 * (2 ^ (t - 1) * (Zpos p / 2 ^ t))).
        { pose proof (Z.div_mod (Zpos p) (2 ^ t) ltac:(lia)) as Hdm.
          rewrite Hd, H2 in Hdm. rewrite H2. lia. }
        rewrite Z.odd_spec in Hpodd. destruct Hpodd as [q Hq]. lia. }
      subst t. change (2 ^ 0) with 1. rewrite Z.div_1_r.
      replace (- Zpos k + 0) with (- Zpos k - 0) by lia.
      replace (Zpos p) with (Zpos p * 2 ^ 0) at 1 by (change (2 ^ 0) with 1; lia).
      rewrite dyadic_frac by (assumption || lia). rewrite Hsign. reflexivity.
Qed.

(** *** Words of elements *)

Lemma dtypeWidth_pos (d : Dtype) : (0 < dtypeWidth d)%nat.
Proof. destruct d; cbn; lia. Qed.

(** The word that stores a number in an element reads back as that
    number. *)
Lemma elemWord_value (d : Dtype) (v : Number) (w : Z) :
  elemWord d v = Some w ->
  0 <= w < 2 ^ (8 * Z.of_nat (dtypeWidth d)) /\ elemValue d w = v.
Proof.
  destruct d; cbn [elemWord elemValue dtypeWidth intInRange];
    try (destruct v as [| | | | z |]; try discriminate;
         match goal with
         | |- (if ?c then _ else _) = _ -> _ => destruct c eqn:Hr; [|discriminate]
         end;
         intros Hw; apply Some_inj in Hw; subst w;
         apply andb_true_iff in Hr; destruct Hr as [Hlo Hhi];
         apply Z.leb_le in Hlo; apply Z.ltb_lt in Hhi;
         repeat match goal with
                | |- context [2 ^ ?k] =>
                    let n := eval vm_compute in (2 ^ k) in change (2 ^ k) with n
                | H : context [2 ^ ?k] |- _ =>
                    let n := eval vm_compute in (2 ^ k) in change (2 ^ k) with n in H
                end;
         split; [apply Z.mod_pos_bound; lia|];
         try (rewrite Z.mod_small by lia; reflexivity);
         unfold toSigned;
         repeat match goal with
                | |- context [2 ^ ?k] =>
                    let n := eval vm_compute in (2 ^ k) in change (2 ^ k) with n
                end;
         f_equal;
         match goal with |- context [?a <? ?b] => destruct (Z.ltb_spec a b) end;
         Z.div_mod_to_equations; lia).
  - intros Hw. apply (ieee_roundtrip 23 8 v w); [lia | lia | exact Hw].
  - intros Hw. apply (ieee_roundtrip 52 11 v w); [lia | lia | exact Hw].
Qed.

Lemma encodeElem_length (d : Dtype) (v : Number) :
  representable d v -> List.length (encodeElem d v) = dtypeWidth d.
Proof.
  intros [w Hw]. unfold encodeElem. rewrite Hw. apply leBytes_length.
Qed.

Lemma encodeSeq_length (d : Dtype) (xs : list Number) :
  Forall (representable d) xs ->
  List.length (encodeSeq d xs) = (List.length xs * dtypeWidth d)%nat.
Proof.
  unfold encodeSeq. induction 1 as [|x xs Hx _ IH]; [reflexivity|].
  cbn [flat_map List.length]. rewrite length_app, IH, encodeElem_length by exact Hx. lia.
Qed.


(* ------------------------------------------------------------------ *)
(** ** Padding *)

Lemma maxLength_ge (cols : list DataColumn) (c : DataColumn) :
  In c cols -> (List.length (values c) <= maxLength cols)%nat.
Proof.
  unfold maxLength. induction cols as [|d cols IH]; intros Hin; [contradiction|].
  cbn [map fold_right]. destruct Hin as [-> | Hin]; [lia|].
  specialize (IH Hin). lia.
Qed.

Lemma maxLength_uniform (cols : list DataColumn) (n : nat) :
  (forall c, In c cols -> List.length (values c) = n) -> cols <> [] -> maxLength cols = n.
Proof.
  unfold maxLength. induction cols as [|d cols IH]; intros Hall Hne; [congruence|].
  cbn [map fold_right]. rewrite (Hall d) by (left; reflexivity).
  destruct cols as [|d' cols'].
  - cbn. lia.
  - rewrite IH; [lia | intros c Hc; apply Hall; right; exact Hc | discriminate].
Qed.

(** Every column of the padded list is a column of the input followed by
    as many [null] as it lacks. *)
Lemma padColumns_In (cols : list DataColumn) (c' : DataColumn) :
  In c' (padColumnsToSameLength cols) ->
  exists c, In c cols /\ name c' = name c
            /\ values c' = values c ++ repeat VNull (maxLength cols - List.length (values c))
            /\ List.length (values c') = maxLength cols.
Proof.
  unfold padColumnsToSameLength. intros Hin. apply in_map_iff in Hin.
  destruct Hin as (c & Hc & Hin). exists c. split; [exact Hin|].
  pose proof (maxLength_ge cols c Hin) as Hle.
  destruct (Nat.eqb_spec (List.length (values c)) (maxLength cols)) as [E|E]; subst c'.
  - rewrite E, Nat.sub_diag. cbn [repeat]. rewrite app_nil_r. auto.
  - cbn [name values]. repeat split; try reflexivity.
    rewrite length_app, repeat_length. lia.
Qed.

Lemma padColumns_length (cols : list DataColumn) :
  List.length (padColumnsToSameLength cols) = List.length cols.
Proof. unfold padColumnsToSameLength. apply length_map. Qed.

Lemma padColumns_names (cols : list DataColumn) :
  map name (padColumnsToSameLength cols) = map name cols.
Proof.
  unfold padColumnsToSameLength. rewrite map_map. apply map_ext.
  intros c. destruct (_ =? _)%nat; reflexivity.
Qed.

(** Padding a list whose columns already agree changes nothing. *)
Lemma padColumns_id (cols : list DataColumn) (n : nat) :
  (forall c, In c cols -> List.length (values c) = n) ->
  padColumnsToSameLength cols = cols.
Proof.
  intros Hall. destruct cols as [|d cols]; [reflexivity|].
  unfold padColumnsToSameLength.
  rewrite (maxLength_uniform (d :: cols) n Hall) by discriminate.
  rewrite <- (map_id (d :: cols)) at 2. apply map_ext_in. intros c Hc.
  rewrite (Hall c Hc), Nat.eqb_refl. reflexivity.
Qed.

Lemma uniformLength_intro (t : DataTable) (n : nat) :
  (forall c, In c (columns t) -> List.length (values c) = n) -> uniformLength t.
Proof.
  intros Hall c Hc. destruct (columns t) as [|d cols] eqn:E; [contradiction|].
  rewrite (maxLength_uniform (d :: cols) n Hall) by discriminate. apply Hall. exact Hc.
Qed.

Lemma makeTable_uniform (ti : option string) (cols : list DataColumn)
    (m : option (list (string * Value))) :
  uniformLength (makeTable ti cols m).
Proof.
  apply uniformLength_intro with (n := maxLength cols). cbn [makeTable columns].
  intros c Hc. apply padColumns_In in Hc. destruct Hc as (c0 & _ & _ & _ & Hl). exact Hl.
Qed.

Ltac bind_inv :=
  repeat match goal with
         | H : bind ?c _ = Ok _ |- _ =>
             let E := fresh "E" in
             destruct c eqn:E; cbn [bind] in H; [|discriminate H]
         | H : option_result ?c = Ok _ |- _ =>
             unfold option_result in H
         | H : Ok _ = Ok _ |- _ => injection H as H
         | H : Some _ = Some _ |- _ => injection H as H
         end.

Lemma fromCartesian_uniform fig t fb opts tab :
  fromCartesian fig t fb opts = Ok tab -> uniformLength tab.
Proof.
  unfold fromCartesian. intros H. bind_inv.
  destruct a0 as [|[] ?]; bind_inv; subst; apply makeTable_uniform.
Qed.

Lemma traceTable_uniform fig options counter t tab :
  traceTable fig options counter t = Ok (Some tab) -> uniformLength tab.
Proof.
  unfold traceTable, fromTableTrace, fromHeatmapLike, fromPieLike, fromOhlcLike,
    fromWaterfall, fromChoropleth, fromBoxOrViolin.
  intros H.
  repeat match type of H with
         | (if ?b then _ else _) = _ => destruct b
         end;
    try (bind_inv; subst; apply makeTable_uniform).
  - bind_inv. subst. eapply fromCartesian_uniform; eassumption.
  - bind_inv. destruct a; [discriminate|]. bind_inv. subst.
    apply makeTable_uniform.
Qed.

(** The loop pushes, for the [k]-th trace, the table that [traceTable]
    builds with the counter at [counter + k]. *)
Lemma extractLoop_nth fig options traces :
  forall counter tabs k t,
    extractLoop fig options counter traces = Ok tabs ->
    nth_error traces k = Some t ->
    exists r, traceTable fig options (counter + k) t = Ok r
              /\ forall tab, r = Some tab -> In tab tabs.
Proof.
  induction traces as [|u traces IH]; intros counter tabs k t H Hk.
  - destruct k; discriminate.
  - cbn [extractLoop] in H. bind_inv.
    destruct k as [|k].
    + cbn in Hk. injection Hk as ->. rewrite Nat.add_0_r. exists a. split; [exact E|].
      intros tab ->. subst tabs. left. reflexivity.
    + cbn in Hk. destruct (IH _ _ _ _ E0 Hk) as (r & Hr & Hin).
      replace (counter + S k)%nat with (S counter + k)%nat by lia.
      exists r. split; [exact Hr|]. intros tab Htab. subst tabs.
      destruct a; [right|]; apply Hin; exact Htab.
Qed.

Lemma extractLoop_In fig options traces :
  forall counter tabs tab,
    extractLoop fig options counter traces = Ok tabs ->
    In tab tabs ->
    exists k t, nth_error traces k = Some t
                /\ traceTable fig options (counter + k) t = Ok (Some tab).
Proof.
  induction traces as [|u traces IH]; intros counter tabs tab H Hin.
  - cbn in H. injection H as <-. contradiction.
  - cbn [extractLoop] in H. bind_inv. subst tabs.
    assert (Hcase : a = Some tab \/ In tab a0).
    { destruct a; [destruct Hin as [->|Hin]|]; auto. }
    destruct Hcase as [-> | Hin'].
    + exists 0%nat, u. rewrite Nat.add_0_r. auto.
    + destruct (IH _ _ _ E0 Hin') as (k & t & Hk & Ht).
      exists (S k), t. replace (counter + S k)%nat with (S counter + k)%nat by lia. auto.
Qed.

(** An exception raised for a trace leaves the loop when the traces before
    it were converted. *)
Lemma extractLoop_error fig options pre t post e :
  forall counter,
    (forall k u, nth_error pre k = Some u ->
                 exists r, traceTable fig options (counter + k) u = Ok r) ->
    traceTable fig options (counter + List.length pre) t = Err e ->
    extractLoop fig options counter (pre ++ t :: post) = Err e.
Proof.
  induction pre as [|u pre IH]; intros counter Hpre Ht.
  - cbn [app extractLoop List.length] in *. rewrite Nat.add_0_r in Ht. rewrite Ht. reflexivity.
  - cbn [app extractLoop].
    destruct (Hpre 0%nat u eq_refl) as (r & Hr). rewrite Nat.add_0_r in Hr. rewrite Hr.
    cbn [bind]. rewrite IH; [reflexivity | |].
    + intros k v Hk. replace (S counter + k)%nat with (counter + S k)%nat by lia.
      apply Hpre. exact Hk.
    + replace (S counter + List.length pre)%nat with (counter + List.length (u :: pre))%nat
        by (cbn; lia). exact Ht.
Qed.

(** When no conversion raises and every trace has a converter, the loop
    returns one table per trace, in order. *)
Lemma extractLoop_complete fig options traces :
  forall counter,
    (forall k t, nth_error traces k = Some t ->
                 exists tab, traceTable fig options (counter + k) t = Ok (Some tab)) ->
    exists tabs, extractLoop fig options counter traces = Ok tabs
                 /\ List.length tabs = List.length traces
                 /\ forall k t, nth_error traces k = Some t ->
                      exists tab, traceTable fig options (counter + k) t = Ok (Some tab)
                                  /\ nth_error tabs k = Some tab.
Proof.
  induction traces as [|u traces IH]; intros counter Hall.
  - exists []. repeat split. intros [|k] t Hk; discriminate.
  - destruct (Hall 0%nat u eq_refl) as (tab0 & H0). rewrite Nat.add_0_r in H0.
    destruct (IH (S counter)) as (tabs & Hloop & Hlen & Hnth).
    { intros k t Hk. replace (S counter + k)%nat with (counter + S k)%nat by lia.
      apply Hall. exact Hk. }
    exists (tab0 :: tabs). cbn [extractLoop]. rewrite H0. cbn [bind]. rewrite Hloop. cbn [bind].
    repeat split; [cbn; lia|].
    intros [|k] t Hk.
    + cbn in Hk. injection Hk as <-. rewrite Nat.add_0_r. exists tab0. auto.
    + cbn in Hk. destruct (Hnth k t Hk) as (tab & Ht & Hn).
      replace (counter + S k)%nat with (S counter + k)%nat by lia.
      exists tab. auto.
Qed.

Lemma hasConverter_Some fig options counter t r :
  hasConverter t = true ->
  traceTable fig options counter t = Ok r ->
  exists tab, r = Some tab.
Proof.
  unfold hasConverter, traceTable, specialTypes.
  set (typ := toLowerCase (nullish (t_type t) "")).
  unfold isOneOf. cbn [existsb]. intros Hc H.
  repeat match type of H with
         | (if ?b then _ else _) = _ =>
             let E := fresh "B" in destruct b eqn:E
         end;
    try (unfold option_result in H; bind_inv; subst r; eexists; reflexivity).
  exfalso.
  repeat match goal with
         | H : (_ || _)%bool = false |- _ => apply orb_false_iff in H; destruct H
         end.
  repeat match goal with
         | H : ?x = false |- _ => rewrite H in Hc
         end.
  cbn in Hc. discriminate.
Qed.

(* ------------------------------------------------------------------ *)
(** ** Date coercion *)

Lemma maybeDate_cases (v : Primitive) :
  maybeDate v = v \/ exists ms, maybeDate v = VDate ms.
Proof.
  destruct v; cbn [maybeDate]; auto.
  - destruct (num_gt n 10000000 && num_lt n 17000000000); eauto.
  - destruct (dateParse s); eauto.
Qed.

Lemma maybeDate_idem (v : Primitive) : maybeDate (maybeDate v) = maybeDate v.
Proof.
  destruct v; cbn [maybeDate]; try reflexivity.
  - destruct (num_gt n 10000000 && num_lt n 17000000000) eqn:E; cbn [maybeDate];
      [reflexivity | rewrite E; reflexivity].
  - destruct (dateParse s) eqn:E; cbn [maybeDate]; [reflexivity | rewrite E; reflexivity].
Qed.

Lemma coerceColumn_name xName c : name (coerceColumn xName c) = name c.
Proof. unfold coerceColumn. destruct (_ || _)%bool; reflexivity. Qed.

Lemma coerceColumn_length xName c :
  List.length (values (coerceColumn xName c)) = List.length (values c).
Proof.
  unfold coerceColumn. destruct (_ || _)%bool; [|reflexivity].
  cbn [values]. apply length_map.
Qed.

Lemma coerceColumn_idem xName c :
  coerceColumn xName (coerceColumn xName c) = coerceColumn xName c.
Proof.
  unfold coerceColumn.
  destruct ((name c =? xName)%string || (toLowerCase (name c) =? "x")%string) eqn:E.
  - cbn [name values]. rewrite E. f_equal. rewrite map_map. apply map_ext.
    intros v. apply maybeDate_idem.
  - rewrite E. reflexivity.
Qed.

Lemma coerceTable_idem xName tab :
  coerceTable xName (coerceTable xName tab) = coerceTable xName tab.
Proof.
  unfold coerceTable. cbn [title columns meta]. f_equal.
  rewrite map_map. apply map_ext. intros c. apply coerceColumn_idem.
Qed.

Lemma maxLength_coerce xName cols :
  maxLength (map (coerceColumn xName) cols) = maxLength cols.
Proof.
  unfold maxLength. rewrite map_map. f_equal. apply map_ext. intros c.
  apply coerceColumn_length.
Qed.

Lemma coerceTable_uniform xName tab :
  uniformLength tab -> uniformLength (coerceTable xName tab).
Proof.
  intros Hu c Hc. cbn [coerceTable columns] in *. rewrite maxLength_coerce.
  apply in_map_iff in Hc. destruct Hc as (c0 & <- & Hc0).
  rewrite coerceColumn_length. apply Hu. exact Hc0.
Qed.

Lemma num_range_Int (z : Z) :
  num_gt (Int z) 10000000 && num_lt (Int z) 17000000000 = true
  <-> 10000000 < z < 17000000000.
Proof.
  cbn [num_gt num_lt]. rewrite Z.gtb_ltb, andb_true_iff, !Z.ltb_lt. reflexivity.
Qed.

(** C9 -- Date coercion is idempotent and total: running the coercion pass
    a second time over any list of tables changes nothing; a Date value is
    returned as it is; a number is turned into a Date exactly when it is
    strictly above 10,000,000 and strictly below 17,000,000,000 (for an
    integer [z]: 10,000,000 < z < 17,000,000,000); and every value is either
    returned unmodified or replaced by a Date -- the pass has no failing
    case. *)
Theorem coerceDates_idempotent :
  (forall xName tabs,
      coerceDatesPass xName (coerceDatesPass xName tabs) = coerceDatesPass xName tabs)
  /\ (forall ms, maybeDate (VDate ms) = VDate ms)
  /\ (forall n,
        maybeDate (VNum n) =
        if num_gt n 10000000 && num_lt n 17000000000 then VDate (num_trunc n) else VNum n)
  /\ (forall z,
        (exists ms, maybeDate (VNum (Int z)) = VDate ms) <-> 10000000 < z < 17000000000)
  /\ (forall v, maybeDate v = v \/ exists ms, maybeDate v = VDate ms).
Proof.
  split; [|split; [|split; [|split]]].
  - intros xName tabs. unfold coerceDatesPass. rewrite map_map. apply map_ext.
    intros tab. apply coerceTable_idem.
  - reflexivity.
  - reflexivity.
  - intros z. rewrite <- num_range_Int. cbn [maybeDate].
    destruct (num_gt (Int z) 10000000 && num_lt (Int z) 17000000000); split.
    + reflexivity.
    + eauto.
    + intros [ms H]. discriminate.
    + discriminate.
  - apply maybeDate_cases.
Qed.

(* ------------------------------------------------------------------ *)
(** ** The key column of a merge *)

Lemma filter_filter_and {A} (f g : A -> bool) (l : list A) :
  filter f (filter g l) = filter (fun x => f x && g x) l.
Proof.
  induction l as [|a l IH]; [reflexivity|]. cbn [filter].
  destruct (g a) eqn:G; cbn [filter]; rewrite ?andb_true_r, ?andb_false_r;
    [destruct (f a)|]; rewrite IH; reflexivity.
Qed.

Lemma addKey_fold (vs : list Primitive) :
  forall seen acc,
    snd (fold_left addKey vs (seen, acc)) =
    acc ++ filter (fun w => negb (existsb (String.eqb (key w)) seen)) (distinctByKey vs).
Proof.
  induction vs as [|v r IH]; intros seen acc.
  - cbn. rewrite app_nil_r. reflexivity.
  - cbn [fold_left distinctByKey filter]. unfold addKey at 2. cbn [fst snd].
    destruct (existsb (String.eqb (key v)) seen) eqn:E; cbn [negb].
    + rewrite IH. f_equal. rewrite filter_filter_and. apply filter_ext. intros w.
      destruct (String.eqb_spec (key w) (key v)) as [Heq|Hne]; cbn [negb].
      * rewrite Heq, E. reflexivity.
      * rewrite andb_true_r. reflexivity.
    + rewrite IH, <- app_assoc. cbn [app]. f_equal. f_equal.
      rewrite filter_filter_and. apply filter_ext. intros w. cbn [existsb].
      rewrite negb_orb. apply andb_comm.
Qed.

Lemma collectKeys_fold xName (tables : list DataTable) :
  forall st,
    fold_left
      (fun st tab =>
         match find (isKeyColumn xName) (columns tab) with
         | None => st
         | Some xCol => fold_left addKey (values xCol) st
         end) tables st
    = fold_left addKey (List.concat (map (keyValues xName) tables)) st.
Proof.
  induction tables as [|tab tables IH]; intros st; [reflexivity|].
  cbn [fold_left map List.concat]. rewrite fold_left_app, IH.
  unfold keyValues, keyColumn. destruct (find (isKeyColumn xName) (columns tab)); reflexivity.
Qed.

(** The first loop of the merge computes the first-seen distinct keys. *)
Lemma collectKeys_distinct xName (tables : list DataTable) :
  snd (collectKeys xName tables)
  = distinctByKey (List.concat (map (keyValues xName) tables)).
Proof.
  unfold collectKeys. rewrite collectKeys_fold, addKey_fold. cbn [app existsb negb].
  induction (distinctByKey _) as [|a l IH]; [reflexivity|]. cbn [filter]. f_equal. exact IH.
Qed.

(** Dropping values keeps their keys distinct. *)
Lemma filter_keeps_keys_distinct {V K} (keyOf : V -> K) (keep : V -> bool) :
  forall vs, NoDup (map keyOf vs) -> NoDup (map keyOf (filter keep vs)).
Proof.
  intros vs. induction vs as [|v vs IH]; cbn [map filter]; intros Hnd.
  - constructor.
  - apply NoDup_cons_iff in Hnd. destruct Hnd as [Hfresh Hrest].
    destruct (keep v); [|apply IH; exact Hrest].
    cbn [map]. apply NoDup_cons; [|apply IH; exact Hrest].
    intros Hin. apply Hfresh. apply in_map_iff in Hin.
    destruct Hin as (w & Hw & Hin). apply filter_In in Hin.
    apply in_map_iff. exists w. tauto.
Qed.

Lemma distinctByKey_NoDup (vs : list Primitive) : NoDup (map key (distinctByKey vs)).
Proof.
  induction vs as [|v r IH]; [constructor|].
  cbn [distinctByKey map]. constructor.
  - intros Hin. apply in_map_iff in Hin. destruct Hin as (w & Hw & Hin).
    apply filter_In in Hin. destruct Hin as [_ Hne].
    rewrite Hw, String.eqb_refl in Hne. discriminate.
  - apply filter_keeps_keys_distinct. exact IH.
Qed.

Lemma distinctByKey_keys (vs : list Primitive) (k : string) :
  In k (map key (distinctByKey vs)) <-> In k (map key vs).
Proof.
  induction vs as [|v r IH]; [reflexivity|].
  cbn [distinctByKey map In]. split.
  - intros [H | H]; [left; exact H|].
    right. apply IH. apply in_map_iff in H. destruct H as (w & Hw & Hin).
    apply filter_In in Hin. apply in_map_iff. exists w. tauto.
  - intros [H | H]; [left; exact H|].
    destruct (String.eqb_spec k (key v)) as [Heq | Hne]; [left; congruence|].
    right. apply IH in H. apply in_map_iff in H. destruct H as (w & Hw & Hin).
    apply in_map_iff. exists w. split; [exact Hw|].
    apply filter_In. split; [exact Hin|].
    rewrite Hw. destruct (String.eqb_spec k (key v)); [contradiction | reflexivity].
Qed.

(** ** The series of a table *)

Lemma combine_snoc {A B} (l : list A) (l' : list B) (a : A) (b : B) :
  List.length l = List.length l' ->
  combine (l ++ [a]) (l' ++ [b]) = combine l l' ++ [(a, b)].
Proof.
  revert l'. induction l as [|x l IH]; intros [|y l'] H; cbn in *; try discriminate.
  - reflexivity.
  - f_equal. apply IH. lia.
Qed.

Lemma indexMap_snoc (xs : list Primitive) (v : Primitive) :
  indexMap (xs ++ [v]) = (key v, List.length xs) :: indexMap xs.
Proof.
  unfold indexMap. rewrite length_app. cbn [List.length].
  rewrite seq_app. cbn [seq Nat.add].
  rewrite combine_snoc by (rewrite length_seq; reflexivity).
  rewrite fold_left_app. reflexivity.
Qed.

Lemma mapGet_indexMap (xs : list Primitive) (k : string) :
  match mapGet (indexMap xs) k with
  | None => forall v, In v xs -> key v <> k
  | Some li =>
      (exists v, nth_error xs li = Some v /\ key v = k)
      /\ forall j w, (li < j)%nat -> nth_error xs j = Some w -> key w <> k
  end.
Proof.
  induction xs as [|v xs IH] using rev_ind.
  - cbn. intros v [].
  - rewrite indexMap_snoc. unfold mapGet in *. cbn [find fst].
    destruct (String.eqb_spec (key v) k) as [Heq | Hne]; cbn [option_map snd].
    + split.
      * exists v. rewrite nth_error_app2, Nat.sub_diag by lia. auto.
      * intros j w Hj Hw. exfalso.
        assert (nth_error (xs ++ [v]) j = None).
        { apply nth_error_None. rewrite length_app. cbn. lia. }
        congruence.
    + destruct (find (fun p => (fst p =? k)%string) (indexMap xs)) as [[k' li]|];
        cbn [option_map snd] in *.
      * destruct IH as ((w & Hw & Hk) & Hlast).
        assert (Hli : (li < List.length xs)%nat) by (apply nth_error_Some; congruence).
        split.
        -- exists w. rewrite nth_error_app1 by exact Hli. auto.
        -- intros j u Hj Hu.
           destruct (Nat.lt_ge_cases j (List.length xs)) as [Hlt | Hge].
           ++ rewrite nth_error_app1 in Hu by exact Hlt. eapply Hlast; eassumption.
           ++ rewrite nth_error_app2 in Hu by exact Hge.
              destruct (j - List.length xs)%nat as [|[|]]; cbn in Hu; try discriminate.
              injection Hu as <-. exact Hne.
      * intros u Hu. apply in_app_or in Hu. destruct Hu as [Hu | [<- | []]]; auto.
Qed.

Lemma seriesValues_length xValues xCol yCol :
  List.length (seriesValues xValues xCol yCol) = List.length xValues.
Proof. unfold seriesValues. apply length_map. Qed.

(** An entry of a series: [null] when the table does not hold the key,
    else the value at the last row of the table holding that key. *)
Lemma seriesValues_nth xValues xCol yCol gi vx :
  nth_error xValues gi = Some vx ->
  exists entry,
    nth_error (seriesValues xValues xCol yCol) gi = Some entry
    /\ ((forall v, In v (values xCol) -> key v <> key vx) -> entry = VNull)
    /\ (forall li v,
          nth_error (values xCol) li = Some v -> key v = key vx ->
          (forall j w, (li < j)%nat -> nth_error (values xCol) j = Some w -> key w <> key vx) ->
          entry = nullishValue (nth li (values yCol) VUndef) VNull).
Proof.
  intros Hgi. unfold seriesValues. rewrite nth_error_map, Hgi. cbn [option_map].
  eexists. split; [reflexivity|].
  pose proof (mapGet_indexMap (values xCol) (key vx)) as Hspec.
  destruct (mapGet (indexMap (values xCol)) (key vx)) as [li0|].
  - destruct Hspec as ((v0 & Hv0 & Hk0) & Hlast). split.
    + intros Habs. exfalso. apply (Habs v0); [eapply nth_error_In; eassumption | exact Hk0].
    + intros li v Hv Hk Hl.
      assert (li = li0); [|subst; reflexivity].
      destruct (Nat.lt_trichotomy li li0) as [Hlt | [Heq | Hgt]]; [|exact Heq|].
      * exfalso. eapply (Hl li0 v0); eassumption.
      * exfalso. eapply (Hlast li v); eassumption.
  - split; [reflexivity|].
    intros li v Hv Hk _. exfalso. apply (Hspec v); [eapply nth_error_In; eassumption | exact Hk].
Qed.

(* ------------------------------------------------------------------ *)
(** ** The dictionary of merged columns *)

Lemma objHas_In {A} (o : JsObject A) (k : string) :
  objHas o k = true <-> In k (map fst o).
Proof.
  unfold objHas. rewrite existsb_exists. split.
  - intros (p & Hp & He). apply String.eqb_eq in He. subst k. apply in_map. exact Hp.
  - intros H. apply in_map_iff in H. destruct H as (p & <- & Hp).
    exists p. split; [exact Hp | apply String.eqb_refl].
Qed.

Lemma objSet_keys {A} (o : JsObject A) (k : string) (v : A) :
  map fst (objSet o k v) =
  if objHas o k then map fst o
  else if (k =? "__proto__")%string then map fst o
  else map fst o ++ [k].
Proof.
  unfold objSet. destruct (objHas o k).
  - rewrite map_map. apply map_ext. intros p.
    destruct (String.eqb_spec (fst p) k); [symmetry; assumption | reflexivity].
  - destruct (k =? "__proto__")%string; [reflexivity|].
    rewrite map_app. reflexivity.
Qed.

Lemma objSet_In_key {A} (o : JsObject A) (k : string) (v : A) (s : string) :
  In s (map fst (objSet o k v)) <->
  In s (map fst o) \/ (s = k /\ k <> "__proto__").
Proof.
  rewrite objSet_keys. destruct (objHas o k) eqn:Eh.
  - apply objHas_In in Eh. split; [tauto|]. intros [H | [-> _]]; assumption.
  - destruct (String.eqb_spec k "__proto__") as [Hp | Hp].
    + split; [tauto|]. intros [H | [_ H]]; [assumption | contradiction].
    + rewrite in_app_iff. cbn [In]. split.
      * intros [H | [<- | []]]; auto.
      * intros [H | [-> _]]; auto.
Qed.

Lemma objSet_wellKeyed (o : JsObject DataColumn) (c : DataColumn) :
  wellKeyed o -> wellKeyed (objSet o (name c) c).
Proof.
  intros [Hnd Hall]. split.
  - rewrite objSet_keys. destruct (objHas o (name c)) eqn:Eh; [exact Hnd|].
    destruct (name c =? "__proto__")%string; [exact Hnd|].
    apply NoDup_app; [exact Hnd | repeat constructor; intros [] | ].
    intros x Hx [<- | []].
    apply objHas_In in Hx. congruence.
  - unfold objSet. destruct (objHas o (name c)).
    + apply Forall_map. eapply Forall_impl; [|exact Hall]. intros p Hp.
      cbn beta. destruct (fst p =? name c)%string; [reflexivity | exact Hp].
    + destruct (name c =? "__proto__")%string; [exact Hall|].
      apply Forall_app. split; [exact Hall | repeat constructor].
Qed.

Lemma mergeStep_series xName xValues (o : JsObject DataColumn) (tab : DataTable) :
  mergeStep xName xValues o tab =
  match seriesOf xName xValues tab with
  | Some col => objSet o (name col) col
  | None => o
  end.
Proof.
  unfold mergeStep, seriesOf, valueColumn, keyColumn.
  destruct (find (isKeyColumn xName) (columns tab)) as [xCol|]; [|reflexivity].
  destruct (find _ (columns tab)); reflexivity.
Qed.

Lemma seriesOf_name xName xValues tab col :
  seriesOf xName xValues tab = Some col ->
  exists yCol, valueColumn xName tab = Some yCol /\ name col = name yCol.
Proof.
  unfold seriesOf. destruct (keyColumn xName tab); [|discriminate].
  destruct (valueColumn xName tab) as [yCol|]; [|discriminate].
  intros H. injection H as <-. exists yCol. auto.
Qed.

Lemma seriesOf_None xName xValues tab :
  seriesOf xName xValues tab = None -> valueColumn xName tab = None.
Proof.
  unfold seriesOf, valueColumn. destruct (keyColumn xName tab); [|reflexivity].
  destruct (find _ (columns tab)); [discriminate | reflexivity].
Qed.

Lemma mergeLoop_wellKeyed xName xValues (tables : list DataTable) :
  forall o, wellKeyed o -> wellKeyed (fold_left (mergeStep xName xValues) tables o).
Proof.
  induction tables as [|tab tables IH]; intros o Ho; [exact Ho|].
  cbn [fold_left]. apply IH. rewrite mergeStep_series.
  destruct (seriesOf xName xValues tab); [apply objSet_wellKeyed|]; exact Ho.
Qed.

(** The keys of the dictionary after the second loop: the keys it had, and
    the names of the value columns, [__proto__] excepted. *)
Lemma mergeLoop_keys xName xValues (tables : list DataTable) (s : string) :
  forall o,
    In s (map fst (fold_left (mergeStep xName xValues) tables o)) <->
    In s (map fst o) \/ (s <> "__proto__" /\ In s (seriesNames xName tables)).
Proof.
  induction tables as [|tab tables IH]; intros o.
  - cbn. tauto.
  - cbn [fold_left]. rewrite IH, mergeStep_series.
    unfold seriesNames. cbn [flat_map]. fold (seriesNames xName tables).
    rewrite in_app_iff.
    destruct (seriesOf xName xValues tab) as [col|] eqn:Es.
    + destruct (seriesOf_name _ _ _ _ Es) as (yCol & Hy & Hn). rewrite Hy.
      rewrite objSet_In_key, Hn. cbn [In]. split.
      * intros [[H | [-> Hp]] | [Hp H]]; auto.
      * intros [H | [Hp [[<- | []] | H]]]; auto.
    + rewrite (seriesOf_None _ _ _ Es). cbn [In]. tauto.
Qed.

Lemma insertByIndex_perm {A} (p : Z * A) (l : list (Z * A)) :
  Permutation (insertByIndex p l) (p :: l).
Proof.
  induction l as [|q l IH]; [reflexivity|]. cbn [insertByIndex].
  destruct (fst p <=? fst q); [reflexivity|].
  rewrite IH. apply perm_swap.
Qed.

Lemma sortByIndex_perm {A} (l : list (Z * A)) : Permutation (sortByIndex l) l.
Proof.
  induction l as [|p l IH]; [reflexivity|]. cbn [sortByIndex fold_right].
  rewrite insertByIndex_perm. apply perm_skip. exact IH.
Qed.

(** [Object.values] gives every property value once. *)
Lemma objectValues_perm {A} (o : JsObject A) : Permutation (objectValues o) (map snd o).
Proof.
  unfold objectValues. rewrite sortByIndex_perm.
  induction o as [|p o IH]; [reflexivity|].
  cbn [flat_map filter map]. destruct (arrayIndex (fst p)).
  - cbn [app map snd]. apply perm_skip. exact IH.
  - cbn [app map]. rewrite <- Permutation_middle. apply perm_skip. exact IH.
Qed.

(** ... and in creation order when no key is an array index. *)
Lemma objectValues_named {A} (o : JsObject A) :
  Forall (fun p => arrayIndex (fst p) = None) o -> objectValues o = map snd o.
Proof.
  intros H. unfold objectValues.
  assert (E1 : flat_map (fun p : string * A =>
                           match arrayIndex (fst p) with
                           | Some n => [(n, snd p)]
                           | None => []
                           end) o = []).
  { induction H as [|p o Hp _ IH]; [reflexivity|]. cbn [flat_map]. rewrite Hp. cbn [app]. exact IH. }
  assert (E2 : filter (fun p : string * A =>
                         match arrayIndex (fst p) with
                         | Some _ => false
                         | None => true
                         end) o = o).
  { clear E1. induction H as [|p o Hp _ IH]; [reflexivity|].
    cbn [filter]. rewrite Hp, IH. reflexivity. }
  rewrite E1, E2. reflexivity.
Qed.

Lemma wellKeyed_names (o : JsObject DataColumn) :
  wellKeyed o -> map name (map snd o) = map fst o.
Proof.
  intros [_ Hall]. rewrite map_map. induction Hall as [|p o Hp _ IH]; [reflexivity|].
  cbn [map]. rewrite Hp, IH. reflexivity.
Qed.

(** The names of the columns of a merged table: no name twice; the key
    name, and the name of the value column of each table, [__proto__]
    excepted. *)
Lemma merged_names xName (tables : list DataTable) :
  NoDup (map name (columns (mergeCartesianTables tables xName)))
  /\ forall s,
       In s (map name (columns (mergeCartesianTables tables xName))) <->
       s = xName \/ (s <> "__proto__" /\ In s (seriesNames xName tables)).
Proof.
  unfold mergeCartesianTables. cbn [makeTable columns].
  set (xValues := snd (collectKeys xName tables)).
  set (o0 := [(xName, {| name := xName; values := xValues |})]).
  assert (H0 : wellKeyed o0).
  { split; cbn; repeat constructor. intros []. }
  pose proof (mergeLoop_wellKeyed xName xValues tables o0 H0) as Hw.
  set (o := fold_left (mergeStep xName xValues) tables o0) in *.
  assert (Hp : Permutation (map name (padColumnsToSameLength (objectValues o))) (map fst o)).
  { rewrite padColumns_names, <- (wellKeyed_names o Hw).
    apply Permutation_map. apply objectValues_perm. }
  split.
  - eapply Permutation_NoDup; [symmetry; exact Hp | apply Hw].
  - intros s. split.
    + intros H. eapply Permutation_in in H; [|exact Hp].
      apply mergeLoop_keys in H. cbn in H. intuition.
    + intros H. eapply Permutation_in; [symmetry; exact Hp|].
      apply mergeLoop_keys. cbn. intuition.
Qed.

Lemma seriesList_names xName xValues tables :
  map name (seriesList xName xValues tables) = seriesNames xName tables.
Proof.
  unfold seriesList, seriesNames. induction tables as [|tab tables IH]; [reflexivity|].
  cbn [flat_map]. rewrite map_app, IH. f_equal.
  destruct (seriesOf xName xValues tab) as [col|] eqn:Es.
  - destruct (seriesOf_name _ _ _ _ Es) as (yCol & Hy & Hn). rewrite Hy. cbn [map].
    rewrite Hn. reflexivity.
  - rewrite (seriesOf_None _ _ _ Es). reflexivity.
Qed.

Lemma mergeLoop_distinct xName xValues (tables : list DataTable) :
  forall o,
    NoDup (map fst o ++ seriesNames xName tables) ->
    ~ In "__proto__" (seriesNames xName tables) ->
    fold_left (mergeStep xName xValues) tables o
    = o ++ map (fun c => (name c, c)) (seriesList xName xValues tables).
Proof.
  induction tables as [|tab tables IH]; intros o Hnd Hp.
  - cbn. rewrite app_nil_r. reflexivity.
  - cbn [fold_left]. rewrite mergeStep_series.
    unfold seriesList, seriesNames in *. cbn [flat_map] in *.
    destruct (seriesOf xName xValues tab) as [col|] eqn:Es.
    + destruct (seriesOf_name _ _ _ _ Es) as (yCol & Hy & Hn). rewrite Hy in *.
      cbn [app] in *. rewrite <- Hn in *.
      assert (Hfresh : objHas o (name col) = false).
      { destruct (objHas o (name col)) eqn:Eh; [|reflexivity].
        apply objHas_In in Eh. exfalso.
        apply NoDup_remove_2 in Hnd. apply Hnd. apply in_or_app. left. exact Eh. }
      assert (Hnp : (name col =? "__proto__")%string = false).
      { destruct (String.eqb_spec (name col) "__proto__") as [Heq|]; [|reflexivity].
        exfalso. apply Hp. left. exact Heq. }
      unfold objSet. rewrite Hfresh, Hnp.
      rewrite IH.
      * rewrite <- app_assoc. reflexivity.
      * rewrite map_app. cbn [map fst]. rewrite <- app_assoc. cbn [app].
        exact Hnd.
      * intros H. apply Hp. right. exact H.
    + rewrite (seriesOf_None _ _ _ Es) in *. cbn [app] in *. apply IH; assumption.
Qed.

(* ------------------------------------------------------------------ *)
(** ** The decoder: round trip and truncation *)

(** C8 -- Decode round trip: for each of the eight supported dtypes, a
    sequence of numbers that the dtype holds (integers of its range; for f4
    and f8 the numbers exactly representable in that width, NaN and the
    infinities included), written as little-endian bytes of the dtype's
    width and base64-encoded, is decoded into exactly that sequence. *)
Theorem decode_roundtrip (d : Dtype) (xs : list Number) :
  Forall (representable d) xs ->
  decodeNdarray (dtypeTag d) (btoa (encodeSeq d xs)) = Ok (map VNum xs).
Proof.
  intros Hxs. rewrite decodeNdarray_tag, base64ToBytes_btoa. cbn [bind].
  rewrite encodeSeq_length, Nat.div_mul by (exact Hxs || (pose proof (dtypeWidth_pos d); lia)).
  unfold encodeSeq. rewrite flat_map_concat_map.
  rewrite <- (length_map (encodeElem d) xs).
  rewrite typedArray_chunks.
  - rewrite !map_map. f_equal. apply map_ext_in. intros v Hv.
    rewrite Forall_forall in Hxs. destruct (Hxs v Hv) as [w Hw].
    unfold encodeElem. rewrite Hw.
    destruct (elemWord_value d v w Hw) as [Hr Hval].
    rewrite leWord_leBytes by exact Hr. rewrite Hval. reflexivity.
  - apply Forall_map. eapply Forall_impl; [|exact Hxs].
    intros v Hv. apply encodeElem_length. exact Hv.
Qed.

(** C10 -- For each of the eight supported dtypes the decoder returns a
    result for a payload of any number of bytes: it yields
    floor(byteLength / width) elements, and they are the elements of the
    payload cut down to its whole elements -- a trailing partial element is
    dropped without an error. *)
Theorem decode_truncates (d : Dtype) (payload : list byte) :
  let width := dtypeWidth d in
  let count := Nat.div (List.length payload) width in
  exists xs,
    decodeNdarray (dtypeTag d) (btoa payload) = Ok xs
    /\ List.length xs = count
    /\ decodeNdarray (dtypeTag d) (btoa (firstn (count * width) payload)) = Ok xs.
Proof.
  intros width count. pose proof (dtypeWidth_pos d) as Hw. fold width in Hw.
  eexists. rewrite !decodeNdarray_tag, !base64ToBytes_btoa. cbn [bind].
  fold width. fold count. split; [reflexivity|]. split.
  - rewrite length_map. apply typedArray_length.
  - assert (Hle : (count * width <= List.length payload)%nat).
    { unfold count. rewrite Nat.mul_comm. apply Nat.Div0.mul_div_le. }
    rewrite length_firstn, Nat.min_l by exact Hle.
    rewrite Nat.div_mul by lia.
    rewrite typedArray_firstn by lia. reflexivity.
Qed.

(* ------------------------------------------------------------------ *)
(** ** Reshaping *)

Lemma slice_row {A} (flat : list A) (r cols rows : nat) :
  List.length flat = (rows * cols)%nat -> (r < rows)%nat ->
  slice flat (Z.of_nat r * Z.of_nat cols) ((Z.of_nat r + 1) * Z.of_nat cols)
  = firstn cols (skipn (r * cols) flat).
Proof.
  intros Hlen Hr. unfold slice, relativeIndex.
  assert (H1 : (r * cols <= rows * cols)%nat) by (apply Nat.mul_le_mono_r; lia).
  assert (H2 : ((r + 1) * cols <= rows * cols)%nat) by (apply Nat.mul_le_mono_r; lia).
  rewrite Hlen.
  destruct (Z.ltb_spec (Z.of_nat r * Z.of_nat cols) 0); [lia|].
  destruct (Z.ltb_spec ((Z.of_nat r + 1) * Z.of_nat cols) 0); [lia|].
  rewrite !Z.min_l by lia.
  replace (Z.to_nat ((Z.of_nat r + 1) * Z.of_nat cols - Z.of_nat r * Z.of_nat cols))
    with cols by lia.
  replace (Z.to_nat (Z.of_nat r * Z.of_nat cols)) with (r * cols)%nat by lia.
  reflexivity.
Qed.

Lemma rows_concat {A} (cols rows : nat) :
  forall flat : list A,
    List.length flat = (rows * cols)%nat ->
    List.concat (map (fun r => firstn cols (skipn (r * cols) flat)) (seq 0 rows)) = flat.
Proof.
  induction rows as [|rows IH]; intros flat Hlen.
  - destruct flat; [reflexivity | discriminate].
  - cbn [seq map List.concat]. cbn [Nat.mul skipn].
    transitivity (firstn cols flat ++ skipn cols flat); [|apply firstn_skipn].
    f_equal.
    assert (Hlen' : List.length (skipn cols flat) = (rows * cols)%nat)
      by (rewrite length_skipn; lia).
    transitivity (List.concat (map (fun r => firstn cols (skipn (r * cols) (skipn cols flat)))
                                   (seq 0 rows))); [|apply IH; exact Hlen'].
    f_equal. rewrite <- seq_shift, map_map. apply map_ext. intros r.
    rewrite skipn_skipn. f_equal. f_equal. lia.
Qed.

(** [reshape2D] is row-major: when the shape fits the buffer, the rows are
    [rows] runs of [cols] elements whose concatenation is the buffer. *)
Lemma reshape2D_rowmajor {A} (flat : list A) (rows cols : nat) :
  Z.of_nat rows < 2 ^ 32 ->
  List.length flat = (rows * cols)%nat ->
  exists m, reshape2D flat (Z.of_nat rows) (Z.of_nat cols) = Ok m
            /\ List.length m = rows
            /\ Forall (fun row => List.length row = cols) m
            /\ List.concat m = flat.
Proof.
  intros Hr Hlen. unfold reshape2D.
  replace ((0 <=? Z.of_nat rows) && (Z.of_nat rows <? 2 ^ 32)) with true
    by (symmetry; apply andb_true_iff; split; [apply Z.leb_le | apply Z.ltb_lt]; lia).
  rewrite Nat2Z.id. eexists. split; [reflexivity|].
  assert (E : map (fun r => slice flat (Z.of_nat r * Z.of_nat cols)
                              ((Z.of_nat r + 1) * Z.of_nat cols)) (seq 0 rows)
              = map (fun r => firstn cols (skipn (r * cols) flat)) (seq 0 rows)).
  { apply map_ext_in. intros r Hin. apply in_seq in Hin.
    apply slice_row with (rows := rows); [exact Hlen | lia]. }
  rewrite E. split; [rewrite length_map, length_seq; reflexivity|]. split.
  - apply Forall_map. apply Forall_forall. intros r Hin. apply in_seq in Hin.
    assert ((r + 1) * cols <= rows * cols)%nat by (apply Nat.mul_le_mono_r; lia).
    rewrite length_firstn, length_skipn. lia.
  - apply rows_concat. exact Hlen.
Qed.

(** The entry at row [j], column [i] of the transpose is the entry at row
    [i], column [j]. *)
Lemma transpose_nth (row0 : list Value) (m : list (list Value)) (i j : nat) :
  (j < List.length row0)%nat -> (i < List.length (row0 :: m))%nat ->
  nth i (nth j (transpose (row0 :: m)) []) VUndef = nth j (nth i (row0 :: m) []) VUndef.
Proof.
  intros Hj Hi. unfold transpose.
  rewrite (nth_indep _ [] (map (fun row => nth 0%nat row VUndef) (row0 :: m)))
    by (rewrite length_map, length_seq; exact Hj).
  rewrite (map_nth (fun j => map (fun row => nth j row VUndef) (row0 :: m)) (seq 0 (List.length row0)) 0%nat j).
  rewrite seq_nth by exact Hj. cbn [Nat.add].
  rewrite (nth_indep _ VUndef (nth j [] VUndef)) by (rewrite length_map; exact Hi).
  rewrite (map_nth (fun row => nth j row VUndef) (row0 :: m) [] i). reflexivity.
Qed.

(* ------------------------------------------------------------------ *)
(** ** The shape cascade *)

(** C4 (as amended) -- For a binary-encoded z the matrix is built as
    follows.  A shape that parses to two or more entries reshapes the buffer
    row-major by its first two entries, and the result is transposed exactly
    when both label arrays are non-empty, the shape differs from
    (len(y-labels), len(x-labels)) and its transpose equals it.  A shape
    that parses to fewer than two entries gives the single row, whatever the
    labels and the length.  When no shape parses, the label counts
    (len(y-labels), len(x-labels)) are used if both are non-zero, else a
    square when the length is a perfect square, else the single row.
    Reshaping is row-major, and the transpose swaps row and column indices.
    In particular six elements with shape [2,3], two x-labels and three
    y-labels give the 3-by-2 arrangement. *)
Theorem shape_cascade (flat : list Primitive) (shape : Shape) (xLen yLen : nat) :
  let labelled := nonEmpty xLen && nonEmpty yLen in
  let len := Z.of_nat (List.length flat) in
  (forall s0 s1 rest,
      parseShape shape = Some (s0 :: s1 :: rest) ->
      ndarrayMatrix flat shape xLen yLen =
      let* Zm := reshape2D flat s0 s1 in
      Ok (if labelled
             && (negb (s0 =? Z.of_nat yLen) || negb (s1 =? Z.of_nat xLen))
             && ((s1 =? Z.of_nat yLen) && (s0 =? Z.of_nat xLen))
          then transpose Zm else Zm))
  /\ (forall dims,
         parseShape shape = Some dims -> (List.length dims < 2)%nat ->
         ndarrayMatrix flat shape xLen yLen = Ok [flat])
  /\ (parseShape shape = None -> labelled = true ->
      ndarrayMatrix flat shape xLen yLen = reshape2D flat (Z.of_nat yLen) (Z.of_nat xLen))
  /\ (parseShape shape = None -> labelled = false -> isPerfectSquare len = true ->
      ndarrayMatrix flat shape xLen yLen = reshape2D flat (Z.sqrt len) (Z.sqrt len))
  /\ (parseShape shape = None -> labelled = false -> isPerfectSquare len = false ->
      ndarrayMatrix flat shape xLen yLen = Ok [flat])
  /\ (forall rows cols,
         Z.of_nat rows < 2 ^ 32 -> List.length flat = (rows * cols)%nat ->
         exists m, reshape2D flat (Z.of_nat rows) (Z.of_nat cols) = Ok m
                   /\ List.length m = rows
                   /\ Forall (fun row => List.length row = cols) m
                   /\ List.concat m = flat)
  /\ (forall row0 m i j,
         (j < List.length row0)%nat -> (i < List.length (row0 :: m))%nat ->
         nth i (nth j (transpose (row0 :: m)) []) VUndef
         = nth j (nth i (row0 :: m) []) VUndef)
  /\ (forall a b c d e f,
         parseShape shape = Some [2; 3] ->
         ndarrayMatrix [a; b; c; d; e; f] shape 2 3 = Ok [[a; d]; [b; e]; [c; f]]).
Proof.
  intros labelled len. unfold ndarrayMatrix. fold labelled. fold len.
  split; [|split; [|split; [|split; [|split; [|split; [|split]]]]]].
  - intros s0 s1 rest ->. destruct (reshape2D flat s0 s1) as [Zm|e]; [|reflexivity].
    cbn [bind]. destruct labelled; cbn [andb]; [|reflexivity].
    destruct (negb (s0 =? Z.of_nat yLen) || negb (s1 =? Z.of_nat xLen)); cbn [andb];
      [|reflexivity].
    destruct ((s1 =? Z.of_nat yLen) && (s0 =? Z.of_nat xLen)); reflexivity.
  - intros dims -> Hd. destruct dims as [|s0 [|s1 rest]]; cbn in Hd; try reflexivity. lia.
  - intros -> ->. rewrite !Z.eqb_refl. cbn [negb orb andb].
    destruct (reshape2D flat (Z.of_nat yLen) (Z.of_nat xLen)); reflexivity.
  - intros -> -> ->. cbn [andb].
    destruct (reshape2D flat (Z.sqrt len) (Z.sqrt len)); reflexivity.
  - intros -> -> ->. reflexivity.
  - intros rows cols. apply reshape2D_rowmajor.
  - apply transpose_nth.
  - intros a b c d e f ->. reflexivity.
Qed.

(* ------------------------------------------------------------------ *)
(** ** Dispatch *)

Lemma orElse_falsy (a : option string) (d : string) : truthy a = false -> orElse a d = d.
Proof.
  unfold truthy, orElse. destruct a as [s|]; [|reflexivity].
  destruct (s =? "")%string; [reflexivity | discriminate].
Qed.

Lemma reachesCartesian_traceTable fig options counter t :
  reachesCartesian t = true ->
  traceTable fig options counter t =
  option_result
    (fromCartesian fig t
       (nullish (unnamedYPrefix options) "y" ++ "_" ++ decimal (Z.of_nat counter))%string
       options).
Proof.
  unfold reachesCartesian, traceTable, specialTypes.
  set (typ := toLowerCase (nullish (t_type t) "")).
  unfold isOneOf. cbn [existsb]. intros H. apply andb_true_iff in H. destruct H as [Hs Hc].
  apply negb_true_iff in Hs.
  repeat match goal with
         | H : (_ || _)%bool = false |- _ => apply orb_false_iff in H; destruct H
         end.
  repeat match goal with
         | H : ?x = false |- _ => rewrite H
         end.
  cbn [orb]. rewrite Hc. reflexivity.
Qed.

Lemma fromCartesian_names fig t fb opts tab :
  fromCartesian fig t fb opts = Ok tab ->
  map name (columns tab)
  = [ orElse (xColumnName opts) (orElse (getXAxisTitle fig) "x");
      orElse (t_name t) (orElse (getYAxisTitle fig) fb) ].
Proof.
  unfold fromCartesian. intros H. bind_inv.
  destruct a0 as [|[] ?]; bind_inv; subst; cbn [makeTable columns];
    rewrite padColumns_names; reflexivity.
Qed.

Lemma afterCoercion_names fig options tab :
  map name (columns (afterCoercion fig options tab)) = map name (columns tab).
Proof.
  unfold afterCoercion. destruct (nullish (coerceDates options) false); [|reflexivity].
  cbn [coerceTable columns]. rewrite map_map. apply map_ext. intros c.
  apply coerceColumn_name.
Qed.

Lemma perTraceTables_eq fig options :
  perTraceTables fig options =
  let* perTrace := extractLoop fig options 1 (nullish (data fig) []) in
  Ok (map (afterCoercion fig options) perTrace).
Proof.
  unfold perTraceTables, afterCoercion, coerceDatesPass.
  destruct (extractLoop fig options 1 (nullish (data fig) [])) as [perTrace|e]; [|reflexivity].
  cbn [bind]. destruct (nullish (coerceDates options) false); [reflexivity|].
  rewrite map_id. reflexivity.
Qed.

Lemma extractTables_unmerged fig options :
  nullish (mergeCartesian options) false = false ->
  extractTables fig options = perTraceTables fig options.
Proof.
  intros H. unfold extractTables. rewrite H. cbn [negb].
  destruct (perTraceTables fig options); reflexivity.
Qed.

(** C5 (as amended) -- For every figure whose N traces each have a
    converter (the lower-cased type is one of table, heatmap, image,
    contour, pie, sunburst, treemap, funnelarea, ohlc, candlestick,
    waterfall, choropleth, box, violin, or the trace is cartesian and
    carries x or y) and none of whose conversions raises, extractTables
    without merging returns exactly N tables: the k-th is the table built
    for the k-th trace (after the coercion pass when it is enabled). *)
Theorem dispatch_one_table_per_trace fig options traces :
  nullish (data fig) [] = traces ->
  nullish (mergeCartesian options) false = false ->
  Forall (fun t => hasConverter t = true) traces ->
  (forall k t, nth_error traces k = Some t ->
               exists r, traceTable fig options (S k) t = Ok r) ->
  exists tabs,
    extractTables fig options = Ok tabs
    /\ List.length tabs = List.length traces
    /\ forall k t, nth_error traces k = Some t ->
         exists tab, traceTable fig options (S k) t = Ok (Some tab)
                     /\ nth_error tabs k = Some (afterCoercion fig options tab).
Proof.
  intros Hd Hm Hconv Hok.
  destruct (extractLoop_complete fig options traces 1) as (tabs & Hloop & Hlen & Hnth).
  { intros k t Hk. cbn [Nat.add]. destruct (Hok k t Hk) as (r & Hr).
    rewrite Forall_forall in Hconv.
    destruct (hasConverter_Some fig options (S k) t r) as (tab & ->);
      [apply Hconv; eapply nth_error_In; eassumption | exact Hr |].
    exists tab. exact Hr. }
  exists (map (afterCoercion fig options) tabs).
  rewrite (extractTables_unmerged fig options Hm), perTraceTables_eq, Hd, Hloop. cbn [bind].
  split; [reflexivity|]. split; [rewrite length_map; exact Hlen|].
  intros k t Hk. destruct (Hnth k t Hk) as (tab & Ht & Hn). cbn [Nat.add] in Ht.
  exists tab. split; [exact Ht|]. rewrite nth_error_map, Hn. reflexivity.
Qed.

(** Where the ordinal of a fallback name comes from: the loop increments
    [unnamedCounter] once per trace, named or not, cartesian or not, so for a
    cartesian trace with no name of its own, in a figure without a y-axis
    title, the ordinal in "<prefix>_<ordinal>" is the position of the trace
    in the figure, counted from 1 over all traces, and not the number of
    unnamed traces met so far. *)
Theorem fallback_ordinal_is_position fig options traces k t tabs :
  nullish (data fig) [] = traces ->
  nth_error traces k = Some t ->
  reachesCartesian t = true ->
  truthy (t_name t) = false ->
  truthy (getYAxisTitle fig) = false ->
  nullish (mergeCartesian options) false = false ->
  extractTables fig options = Ok tabs ->
  exists tab,
    traceTable fig options (S k) t = Ok (Some tab)
    /\ In (afterCoercion fig options tab) tabs
    /\ map name (columns (afterCoercion fig options tab))
       = [ orElse (xColumnName options) (orElse (getXAxisTitle fig) "x");
           (nullish (unnamedYPrefix options) "y" ++ "_" ++ decimal (Z.of_nat (k + 1)))%string ].
Proof.
  intros Hd Hk Hc Hn Hy Hm Hout.
  rewrite (extractTables_unmerged fig options Hm), perTraceTables_eq, Hd in Hout.
  destruct (extractLoop fig options 1 traces) as [perTrace|e] eqn:Hloop; [|discriminate].
  cbn [bind] in Hout. injection Hout as <-.
  destruct (extractLoop_nth fig options traces 1 perTrace k t Hloop Hk) as (r & Hr & Hin).
  cbn [Nat.add] in Hr. rewrite (reachesCartesian_traceTable fig options (S k) t Hc) in Hr.
  unfold option_result in Hr.
  destruct (fromCartesian fig t _ options) as [tab|e] eqn:Hf; [|discriminate].
  cbn [bind] in Hr. injection Hr as <-.
  exists tab. split.
  - rewrite (reachesCartesian_traceTable fig options (S k) t Hc). unfold option_result.
    rewrite Hf. reflexivity.
  - split; [apply in_map; apply Hin; reflexivity|].
    rewrite afterCoercion_names, (fromCartesian_names _ _ _ _ _ Hf).
    rewrite (orElse_falsy _ _ Hn), (orElse_falsy _ _ Hy).
    replace (Z.of_nat (S k)) with (Z.of_nat (k + 1)) by lia. reflexivity.
Qed.

(* ------------------------------------------------------------------ *)
(** ** Errors *)

Lemma decodeNdarray_unsupported dtype bdata bytes :
  supportedDtype dtype = false -> atob bdata = Some bytes ->
  decodeNdarray dtype bdata = Err (UnsupportedDtype dtype).
Proof.
  unfold supportedDtype, isOneOf, decodeNdarray, base64ToBytes. cbn [existsb].
  intros H ->. cbn [bind].
  repeat match goal with
         | H : (_ || _)%bool = false |- _ => apply orb_false_iff in H; destruct H
         end.
  repeat match goal with
         | H : (dtype =? _)%string = false |- _ => rewrite H; clear H
         end.
  reflexivity.
Qed.

(** C1 (as amended) -- Decoding a binary-encoded array whose dtype tag is
    not one of the eight supported ones fails with the unsupported-dtype
    error.  The error is not confined to the trace: a cartesian trace whose
    x is such an array makes its conversion raise that error, and an error
    raised for a trace, the traces before it having been converted, leaves
    extractTables -- the call raises it and returns no table, also for the
    sibling traces. *)
Theorem unsupported_dtype_propagates :
  (forall dtype bdata bytes,
      supportedDtype dtype = false -> atob bdata = Some bytes ->
      decodeNdarray dtype bdata = Err (UnsupportedDtype dtype))
  /\ (forall fig options counter t dtype bdata shape bytes,
         reachesCartesian t = true -> t_x t = VNdarray dtype bdata shape ->
         supportedDtype dtype = false -> atob bdata = Some bytes ->
         traceTable fig options counter t = Err (UnsupportedDtype dtype))
  /\ (forall fig options pre t post e,
         nullish (data fig) [] = pre ++ t :: post ->
         (forall k u, nth_error pre k = Some u ->
                      exists r, traceTable fig options (S k) u = Ok r) ->
         traceTable fig options (S (List.length pre)) t = Err e ->
         extractTables fig options = Err e).
Proof.
  split; [|split].
  - apply decodeNdarray_unsupported.
  - intros fig options counter t dtype bdata shape bytes Hc Hx Hs Hb.
    rewrite (reachesCartesian_traceTable fig options counter t Hc).
    unfold option_result, fromCartesian. rewrite Hx. cbn [toArray].
    rewrite (decodeNdarray_unsupported dtype bdata bytes Hs Hb). reflexivity.
  - intros fig options pre t post e Hd Hpre Ht.
    unfold extractTables. rewrite perTraceTables_eq, Hd.
    rewrite (extractLoop_error fig options pre t post e 1); [reflexivity | exact Hpre | exact Ht].
Qed.

(* ------------------------------------------------------------------ *)
(** ** The padding invariant *)

Lemma perTraceTables_uniform fig options tabs :
  perTraceTables fig options = Ok tabs -> forall t, In t tabs -> uniformLength t.
Proof.
  rewrite perTraceTables_eq. intros H t Ht.
  destruct (extractLoop fig options 1 (nullish (data fig) [])) as [perTrace|e] eqn:Hloop;
    [|discriminate].
  cbn [bind] in H. injection H as <-.
  apply in_map_iff in Ht. destruct Ht as (t0 & <- & Ht0).
  destruct (extractLoop_In fig options _ 1 perTrace t0 Hloop Ht0) as (k & u & _ & Hu).
  apply traceTable_uniform in Hu.
  unfold afterCoercion. destruct (nullish (coerceDates options) false); [|exact Hu].
  apply coerceTable_uniform. exact Hu.
Qed.

(** C7 -- Every table produced by an extraction path satisfies the padding
    invariant.  A table is created by makeTable, whose columns are those it
    was given, each followed by as many nulls as it lacks to reach the
    maximum value count; the merged table is created that way; the coercion
    pass keeps the invariant; and in every list returned by extractTables,
    with or without coercion and merge, all columns of a table have the same
    length, the maximum among them. *)
Theorem tables_padded :
  (forall ti cols m c',
      In c' (columns (makeTable ti cols m)) ->
      exists c, In c cols /\ name c' = name c
                /\ values c' = values c ++ repeat VNull (maxLength cols - List.length (values c))
                /\ List.length (values c') = maxLength cols)
  /\ (forall tables xName, uniformLength (mergeCartesianTables tables xName))
  /\ (forall xName tab, uniformLength tab -> uniformLength (coerceTable xName tab))
  /\ (forall fig options tabs,
         extractTables fig options = Ok tabs ->
         forall t, In t tabs -> uniformLength t).
Proof.
  split; [|split; [|split]].
  - intros ti cols m c' H. apply padColumns_In. exact H.
  - intros tables xName. apply makeTable_uniform.
  - apply coerceTable_uniform.
  - intros fig options tabs H t Ht. unfold extractTables in H.
    destruct (perTraceTables fig options) as [perTrace|e] eqn:Hp; [|discriminate].
    cbn [bind] in H.
    destruct (negb (nullish (mergeCartesian options) false)).
    + injection H as <-. eapply perTraceTables_uniform; eassumption.
    + destruct (filter _ perTrace) as [|c0 cart] eqn:Hc in H.
      * injection H as <-. eapply perTraceTables_uniform; eassumption.
      * injection H as <-. destruct Ht as [<- | Ht]; [apply makeTable_uniform|].
        apply filter_In in Ht. eapply perTraceTables_uniform; [eassumption | apply Ht].
Qed.

(* ------------------------------------------------------------------ *)
(** ** Merge *)

Lemma seriesList_lengths xName xValues tables c :
  In c (seriesList xName xValues tables) -> List.length (values c) = List.length xValues.
Proof.
  unfold seriesList. intros H. apply in_flat_map in H. destruct H as (tab & _ & H).
  unfold seriesOf in H.
  destruct (keyColumn xName tab) as [xCol|]; [|contradiction].
  destruct (valueColumn xName tab) as [yCol|]; [|contradiction].
  destruct H as [<- | []]. cbn [values]. apply seriesValues_length.
Qed.

(** C6 (as amended) -- mergeCartesianTables builds its key column as the
    ordered union of distinct key values in first-seen order across the
    input tables (values de-duplicated by their textual key, Date values by
    ISO-8601 string), and computes each series by key lookup (the last row
    of the table holding the key) with null for keys absent from that table.
    When the value columns of the tables carry different names, none of them
    the key name or "__proto__", the merged table holds the key column and
    one such series per table -- so merging A = {x:[1,2,3], yA:[10,20,30]}
    and B = {x:[2,3,4], yB:[200,300,400]} on x yields key column [1,2,3,4],
    yA = [10,20,30,null] and yB = [null,200,300,400]. *)
Theorem merge_alignment (tables : list DataTable) (xName : string) :
  NoDup (xName :: seriesNames xName tables) ->
  ~ In "__proto__" (seriesNames xName tables) ->
  let X := distinctByKey (List.concat (map (keyValues xName) tables)) in
  let merged := mergeCartesianTables tables xName in
  snd (collectKeys xName tables) = X
  /\ NoDup (map key X)
  /\ (forall k, In k (map key X)
                <-> In k (map key (List.concat (map (keyValues xName) tables))))
  /\ Permutation (columns merged)
       ({| name := xName; values := X |} :: seriesList xName X tables)
  /\ (Forall (fun s => arrayIndex s = None) (xName :: seriesNames xName tables) ->
      columns merged = {| name := xName; values := X |} :: seriesList xName X tables)
  /\ (forall xCol yCol gi vx,
         nth_error X gi = Some vx ->
         exists entry,
           nth_error (seriesValues X xCol yCol) gi = Some entry
           /\ ((forall v, In v (values xCol) -> key v <> key vx) -> entry = VNull)
           /\ (forall li v,
                 nth_error (values xCol) li = Some v -> key v = key vx ->
                 (forall j w, (li < j)%nat -> nth_error (values xCol) j = Some w ->
                              key w <> key vx) ->
                 entry = nullishValue (nth li (values yCol) VUndef) VNull)).
Proof.
  intros Hnd Hp X merged.
  assert (HX : snd (collectKeys xName tables) = X) by apply collectKeys_distinct.
  set (cols := {| name := xName; values := X |} :: seriesList xName X tables).
  assert (Hloop : fold_left (mergeStep xName X) tables [(xName, {| name := xName; values := X |})]
                  = map (fun c => (name c, c)) cols).
  { rewrite mergeLoop_distinct; [reflexivity | exact Hnd | exact Hp]. }
  assert (Hlen : forall c, In c cols -> List.length (values c) = List.length X).
  { intros c [<- | Hc]; [reflexivity | eapply seriesList_lengths; exact Hc]. }
  assert (Hsnd : map snd (map (fun c : DataColumn => (name c, c)) cols) = cols).
  { rewrite map_map. apply map_id. }
  assert (Hperm : Permutation (objectValues (map (fun c : DataColumn => (name c, c)) cols)) cols).
  { rewrite <- Hsnd at 2. apply objectValues_perm. }
  assert (Hcols : columns merged = objectValues (map (fun c : DataColumn => (name c, c)) cols)).
  { unfold merged, mergeCartesianTables. cbn [makeTable columns]. rewrite HX, Hloop.
    apply padColumns_id with (n := List.length X).
    intros c Hc. apply Hlen. eapply Permutation_in; [exact Hperm | exact Hc]. }
  split; [exact HX|]. split; [apply distinctByKey_NoDup|].
  split; [intros k; apply distinctByKey_keys|].
  split; [rewrite Hcols; exact Hperm|]. split.
  - intros Hidx. rewrite Hcols, objectValues_named; [exact Hsnd|].
    apply Forall_map. cbn [fst].
    rewrite <- (seriesList_names xName X tables) in Hidx.
    change (xName :: map name (seriesList xName X tables)) with (map name cols) in Hidx.
    rewrite Forall_map in Hidx. exact Hidx.
  - intros xCol yCol gi vx Hgi. apply seriesValues_nth. exact Hgi.
Qed.

(** C2 (as amended) -- When extractTables runs with mergeCartesian enabled,
    every table lacking a key column (a column named after the resolved x
    name, or "x") is passed through unmerged into the output.  When at least
    one table has a key column and two or more columns, the output is the
    merged table followed by the other tables in their order, and the merged
    table holds one column per distinct name among: the key name, and the
    name of the first column of each such table that is not named like its
    key column ("__proto__" excepted).  The further columns of a table, and
    the series of a table whose value column shares its name with a later
    table, are not carried over. *)
Theorem merge_one_column_per_name fig options perTrace :
  nullish (mergeCartesian options) false = true ->
  perTraceTables fig options = Ok perTrace ->
  let xName := orElse (xColumnName options) (orElse (getXAxisTitle fig) "x") in
  let cart := filter (isCart xName) perTrace in
  exists out,
    extractTables fig options = Ok out
    /\ (forall t, In t perTrace ->
                  existsb (isKeyColumn xName) (columns t) = false -> In t out)
    /\ (cart = [] -> out = perTrace)
    /\ (cart <> [] ->
        out = mergeCartesianTables cart xName
              :: filter (fun t => negb (isCart xName t)) perTrace
        /\ NoDup (map name (columns (mergeCartesianTables cart xName)))
        /\ forall s,
             In s (map name (columns (mergeCartesianTables cart xName))) <->
             s = xName \/ (s <> "__proto__" /\ In s (seriesNames xName cart))).
Proof.
  intros Hm Hp xName cart. unfold extractTables. rewrite Hp. cbn [bind]. rewrite Hm.
  cbn [negb]. fold xName. fold cart.
  destruct cart as [|c0 cart'] eqn:Hc.
  - exists perTrace. split; [reflexivity|]. split; [auto|]. split; [reflexivity|].
    intros H. contradiction.
  - eexists. split; [reflexivity|]. split.
    + intros t Ht Hk. right. apply filter_In. split; [exact Ht|].
      unfold isCart. rewrite Hk. reflexivity.
    + split; [discriminate|]. intros _. split; [reflexivity|].
      apply merged_names.
Qed.


(* ================================================================== *)
(** * Further properties of the code *)

(* ------------------------------------------------------------------ *)
(** ** The base64 reader *)

Lemma stripPadding_keeps (l : list ascii) (c : ascii) :
  In c l -> isPad c = false -> In c (stripPadding l).
Proof.
  induction l as [|a l IH]; intros Hin Hp; [contradiction|].
  destruct l as [|b [|d l']].
  - destruct Hin as [->|[]]. cbn. rewrite Hp. left. reflexivity.
  - cbn. destruct Hin as [->|[->|[]]].
    + rewrite Hp. destruct (isPad b); left; reflexivity.
    + rewrite Hp. right. left. reflexivity.
  - change (stripPadding (a :: b :: d :: l')) with (a :: stripPadding (b :: d :: l')).
    destruct Hin as [->|Hin]; [left; reflexivity|right; apply IH; assumption].
Qed.

Lemma stripPadding_length (l : list ascii) :
  (List.length (stripPadding l) <= List.length l)%nat.
Proof.
  induction l as [|a l IH]; [cbn; lia|].
  destruct l as [|b [|d l']].
  - cbn. destruct (isPad a); cbn; lia.
  - cbn. destruct (isPad b), (isPad a); cbn; lia.
  - change (stripPadding (a :: b :: d :: l')) with (a :: stripPadding (b :: d :: l')).
    cbn [List.length] in *. lia.
Qed.

(** What a successful run of the group decoder tells about its input. *)
Lemma decodeGroups_Some (n : nat) :
  forall l bs,
    (List.length l <= n)%nat ->
    decodeGroups l = Some bs ->
    Nat.modulo (List.length l) 4 <> 1%nat
    /\ Forall (fun c => sextet_of_char c <> None) l
    /\ (4 * List.length bs <= 3 * List.length l)%nat.
Proof.
  induction n as [|n IH]; intros l bs Hn H.
  - destruct l; [|cbn in Hn; lia]. cbn in H. injection H as <-.
    cbn. split; [discriminate|]. split; [constructor|lia].
  - destruct l as [|a [|b [|c [|d r]]]].
    + cbn in H. injection H as <-. cbn. split; [discriminate|]. split; [constructor|lia].
    + discriminate H.
    + cbn in H. destruct (sextet_of_char a) eqn:Ea; [|discriminate].
      destruct (sextet_of_char b) eqn:Eb; [|discriminate]. injection H as <-.
      split; [cbn; discriminate|]. split; [|cbn; lia].
      repeat constructor; congruence.
    + cbn in H. destruct (sextet_of_char a) eqn:Ea; [|discriminate].
      destruct (sextet_of_char b) eqn:Eb; [|discriminate].
      destruct (sextet_of_char c) eqn:Ec; [|discriminate]. injection H as <-.
      split; [cbn; discriminate|]. split; [|cbn; lia].
      repeat constructor; congruence.
    + cbn [decodeGroups] in H.
      destruct (sextet_of_char a) eqn:Ea; [|discriminate].
      destruct (sextet_of_char b) eqn:Eb; [|discriminate].
      destruct (sextet_of_char c) eqn:Ec; [|discriminate].
      destruct (sextet_of_char d) eqn:Ed; [|discriminate].
      destruct (decodeGroups r) as [bs'|] eqn:Er; [|discriminate]. injection H as <-.
      destruct (IH r bs') as (H1 & H2 & H3); [cbn in Hn; lia|exact Er|].
      split; [|split].
      * replace (List.length (a :: b :: c :: d :: r)) with (List.length r + 1 * 4)%nat
          by (cbn [List.length]; lia).
        rewrite Nat.Div0.mod_add. exact H1.
      * repeat (constructor; [congruence|]). exact H2.
      * cbn [List.length]. lia.
Qed.

Lemma stripPadding_encoded (l : list byte) :
  let s := stripPadding (btoaChars l) in
  Nat.modulo (List.length s) 4 = 0%nat -> stripPadding s = s.
Proof.
  induction l as [| a | a b | a b c l IH] using list_ind3; cbn zeta.
  - reflexivity.
  - cbn [btoaChars]. set (c1 := char_of_sextet _). set (c2 := char_of_sextet _).
    cbn. discriminate.
  - cbn [btoaChars]. set (c1 := char_of_sextet _). set (c2 := char_of_sextet _).
    set (c3 := char_of_sextet _).
    assert (H3 : isPad c3 = false).
    { apply sextet_char. pose proof (byteZ_range b).
      assert (0 <= byteZ b mod 16 < 16) by (apply Z.mod_pos_bound; lia). lia. }
    cbn. rewrite H3. cbn. discriminate.
  - cbn [btoaChars].
    assert (H4 : isPad (char_of_sextet (byteZ c mod 64)) = false).
    { apply sextet_char. apply Z.mod_pos_bound. lia. }
    rewrite (stripPadding_group _ _ _ _ _ H4).
    intros Hm.
    rewrite (stripPadding_group _ _ _ _ _ H4). do 4 f_equal. apply IH.
    cbn [List.length] in Hm.
    replace (S (S (S (S (List.length (stripPadding (btoaChars l)))))))
      with (List.length (stripPadding (btoaChars l)) + 1 * 4)%nat in Hm by lia.
    rewrite Nat.Div0.mod_add in Hm. exact Hm.
Qed.

(** X1 -- base64ToBytes reads back every byte sequence from its base64
    text, also when the text is wrapped or spaced with ASCII white space and
    when the trailing [=] padding is left out. *)
Theorem base64_lenient_decoding (payload : list byte) (text : string) :
  let data := filter (fun c => negb (isAsciiWhitespace c)) (list_ascii_of_string text) in
  data = btoaChars payload \/ data = stripPadding (btoaChars payload) ->
  base64ToBytes text = Ok payload.
Proof.
  intros data H. unfold base64ToBytes, atob. fold data.
  assert (E : decodeGroups
                (if (Nat.modulo (List.length data) 4 =? 0)%nat
                 then stripPadding data else data) = Some payload).
  { destruct H as [-> | ->].
    - destruct (btoaChars_clean payload) as [_ ->]. cbn [Nat.eqb].
      apply decodeGroups_btoaChars.
    - destruct (Nat.eqb_spec (Nat.modulo (List.length (stripPadding (btoaChars payload))) 4) 0)
        as [Hm|Hm].
      + rewrite (stripPadding_encoded payload Hm). apply decodeGroups_btoaChars.
      + apply decodeGroups_btoaChars. }
  rewrite E. reflexivity.
Qed.

(** X2 -- a base64 text whose count of non-blank characters leaves
    remainder 1 modulo 4, or that holds a character outside the alphabet
    other than [=] and white space, makes decodeNdarray raise the
    invalid-character error, whatever the dtype: the text is decoded before
    the dtype is looked at. *)
Theorem malformed_base64_rejected (text : string) :
  let data := filter (fun c => negb (isAsciiWhitespace c)) (list_ascii_of_string text) in
  (Nat.modulo (List.length data) 4 = 1%nat
   \/ exists c, In c data /\ sextet_of_char c = None /\ isPad c = false) ->
  base64ToBytes text = Err InvalidCharacterError
  /\ forall dtype, decodeNdarray dtype text = Err InvalidCharacterError.
Proof.
  intros data H.
  assert (E : atob text = None).
  { unfold atob. fold data.
    destruct (decodeGroups (if (Nat.modulo (List.length data) 4 =? 0)%nat
                            then stripPadding data else data)) as [bs|] eqn:Ed;
      [exfalso|reflexivity].
    apply (decodeGroups_Some _ _ _ (Nat.le_refl _)) in Ed. destruct Ed as (Hm & Hall & _).
    destruct H as [H1 | (c & Hin & Hs & Hp)].
    - rewrite H1 in Hm. cbn [Nat.eqb] in Hm. contradiction.
    - rewrite Forall_forall in Hall. apply (Hall c); [|exact Hs].
      destruct (Nat.modulo (List.length data) 4 =? 0)%nat; [|exact Hin].
      apply stripPadding_keeps; assumption. }
  assert (E' : base64ToBytes text = Err InvalidCharacterError)
    by (unfold base64ToBytes; rewrite E; reflexivity).
  split; [exact E'|]. intros dtype. unfold decodeNdarray. rewrite E'. reflexivity.
Qed.

(** X3 -- the bytes base64ToBytes returns number at most three quarters
    of the characters of the text. *)
Theorem decoded_size_bound (text : string) (bytes : list byte) :
  base64ToBytes text = Ok bytes ->
  (4 * List.length bytes <= 3 * String.length text)%nat.
Proof.
  unfold base64ToBytes, atob. intros H.
  set (data := filter (fun c => negb (isAsciiWhitespace c)) (list_ascii_of_string text)) in H.
  destruct (decodeGroups (if (Nat.modulo (List.length data) 4 =? 0)%nat
                          then stripPadding data else data)) as [bs|] eqn:Ed;
    [|discriminate H].
  injection H as <-.
  apply (decodeGroups_Some _ _ _ (Nat.le_refl _)) in Ed. destruct Ed as (_ & _ & Hlen).
  assert (H1 : (List.length data <= String.length text)%nat).
  { unfold data. etransitivity; [apply filter_length_le|].
    clear. induction text as [|c s IH]; cbn; lia. }
  assert (H2 : (List.length (if (Nat.modulo (List.length data) 4 =? 0)%nat
                             then stripPadding data else data) <= List.length data)%nat).
  { destruct (Nat.modulo (List.length data) 4 =? 0)%nat; [apply stripPadding_length|lia]. }
  lia.
Qed.

(* ------------------------------------------------------------------ *)
(** ** The binary array decoder *)

Lemma supportedDtype_tag (d : Dtype) : supportedDtype (dtypeTag d) = true.
Proof. destruct d; reflexivity. Qed.

Lemma supportedDtype_inv (dtype : string) :
  supportedDtype dtype = true -> exists d, dtype = dtypeTag d.
Proof.
  unfold supportedDtype, isOneOf. cbn [existsb]. intros H.
  repeat (apply orb_true_iff in H; destruct H as [H|H];
          [apply String.eqb_eq in H; subst dtype;
           first [ exists I1; reflexivity | exists U1; reflexivity
                 | exists I2; reflexivity | exists U2; reflexivity
                 | exists I4; reflexivity | exists U4; reflexivity
                 | exists F4; reflexivity | exists F8; reflexivity ]|]).
  discriminate H.
Qed.

(** X4 -- the outcomes of decodeNdarray: it returns exactly when the text
    is base64 and the dtype is one of the eight tags, and then the elements
    are the words of the typed view; a malformed text gives the
    invalid-character error whatever the dtype, any other tag the
    unsupported-dtype error carrying that tag; no other error arises. *)
Theorem decodeNdarray_outcomes (dtype bdata : string) :
  match decodeNdarray dtype bdata with
  | Ok xs =>
      exists bytes d,
        atob bdata = Some bytes /\ dtype = dtypeTag d
        /\ xs = map (fun w => VNum (elemValue d w))
                    (typedArray (dtypeWidth d)
                       (Nat.div (List.length bytes) (dtypeWidth d)) bytes)
  | Err InvalidCharacterError => atob bdata = None
  | Err (UnsupportedDtype tag) =>
      tag = dtype /\ supportedDtype dtype = false /\ atob bdata <> None
  | Err RangeError => False
  end.
Proof.
  destruct (supportedDtype dtype) eqn:Hs.
  - destruct (supportedDtype_inv dtype Hs) as [d ->].
    rewrite decodeNdarray_tag. unfold base64ToBytes.
    destruct (atob bdata) as [bytes|]; cbn [bind]; [|reflexivity].
    exists bytes, d. repeat split.
  - destruct (atob bdata) as [bytes|] eqn:Ea.
    + rewrite (decodeNdarray_unsupported dtype bdata bytes Hs Ea).
      repeat split. discriminate.
    + unfold decodeNdarray, base64ToBytes. rewrite Ea. reflexivity.
Qed.

Lemma leWord_bound (l : list byte) : 0 <= leWord l < 2 ^ (8 * Z.of_nat (List.length l)).
Proof.
  induction l as [|b l IH]; [cbn; lia|].
  change (leWord (b :: l)) with (byteZ b + 256 * leWord l).
  replace (8 * Z.of_nat (List.length (b :: l))) with (8 + 8 * Z.of_nat (List.length l))
    by (cbn [List.length]; lia).
  rewrite Z.pow_add_r by lia. change (2 ^ 8) with 256.
  pose proof (byteZ_range b). nia.
Qed.

Lemma typedArray_bound (width count : nat) (bytes : list byte) :
  Forall (fun w => 0 <= w < 2 ^ (8 * Z.of_nat width)) (typedArray width count bytes).
Proof.
  unfold typedArray. rewrite Forall_map. apply Forall_forall. intros i _.
  pose proof (leWord_bound (firstn width (skipn (i * width) bytes))) as H.
  assert (Hl : (List.length (firstn width (skipn (i * width) bytes)) <= width)%nat)
    by apply firstn_le_length.
  split; [apply H|]. eapply Z.lt_le_trans; [apply H|].
  apply Z.pow_le_mono_r; lia.
Qed.

Lemma toSigned_range (bits w : Z) :
  0 < bits -> 0 <= w < 2 ^ bits ->
  - 2 ^ (bits - 1) <= toSigned bits w < 2 ^ (bits - 1).
Proof.
  intros Hb Hw. unfold toSigned.
  assert (E : 2 ^ bits = 2 * 2 ^ (bits - 1)).
  { replace bits with (1 + (bits - 1)) at 1 by lia. rewrite Z.pow_add_r by lia. reflexivity. }
  destruct (Z.ltb_spec w (2 ^ (bits - 1))); lia.
Qed.

(** X5 -- every element decoded under an integer dtype is an integer of
    the range of that dtype: signed tags give two's-complement values,
    unsigned tags values from 0. *)
Theorem decoded_integers_in_range (d : Dtype) (bdata : string) (xs : list Primitive) :
  d <> F4 -> d <> F8 ->
  decodeNdarray (dtypeTag d) bdata = Ok xs ->
  Forall (fun v => exists z, v = VNum (Int z) /\ intInRange d z = true) xs.
Proof.
  intros H4 H8. rewrite decodeNdarray_tag.
  destruct (base64ToBytes bdata) as [bytes|e]; cbn [bind]; [|discriminate].
  intros H. injection H as <-. rewrite Forall_map.
  eapply Forall_impl; [|apply typedArray_bound].
  intros w Hw. cbv beta in Hw.
  destruct d; try contradiction; cbn [dtypeWidth elemValue intInRange] in *;
    eexists; (split; [reflexivity|]);
    rewrite andb_true_iff, Z.leb_le, Z.ltb_lt.
  - pose proof (toSigned_range 8 w ltac:(lia) Hw). cbn in H. exact H.
  - change (2 ^ 8) with (2 ^ (8 * Z.of_nat 1)). exact Hw.
  - pose proof (toSigned_range 16 w ltac:(lia) Hw). cbn in H. exact H.
  - change (2 ^ 16) with (2 ^ (8 * Z.of_nat 2)). exact Hw.
  - pose proof (toSigned_range 32 w ltac:(lia) Hw). cbn in H. exact H.
  - change (2 ^ 32) with (2 ^ (8 * Z.of_nat 4)). exact Hw.
Qed.

Lemma seq_offset (q len : nat) :
  forall start, seq (q + start) len = map (Nat.add q) (seq start len).
Proof.
  induction len as [|len IH]; intros start; [reflexivity|].
  cbn [seq map]. f_equal. rewrite <- IH. f_equal. lia.
Qed.

Lemma typedArray_app (width : nat) (a b : list byte) (q k : nat) :
  List.length a = (q * width)%nat ->
  typedArray width (q + k) (a ++ b) = typedArray width q a ++ typedArray width k b.
Proof.
  intros Ha. unfold typedArray. rewrite seq_app, map_app. f_equal.
  - apply map_ext_in. intros i Hi. apply in_seq in Hi. f_equal.
    rewrite skipn_app.
    assert (Hle : (i * width + width <= List.length a)%nat) by nia.
    replace (i * width - List.length a)%nat with 0%nat by lia. cbn [skipn].
    rewrite firstn_app. rewrite length_skipn.
    replace (width - (List.length a - i * width))%nat with 0%nat by lia.
    cbn [firstn]. apply app_nil_r.
  - cbn [Nat.add]. rewrite <- (Nat.add_0_r q) at 1. rewrite seq_offset.
    rewrite map_map. apply map_ext. intros j. f_equal. f_equal.
    rewrite skipn_app.
    replace ((q + j) * width - List.length a)%nat with (j * width)%nat by nia.
    rewrite skipn_all2 by nia. reflexivity.
Qed.

(** X6 -- decoding distributes over concatenation of payloads: when the
    first payload is a whole number of elements, the elements of the joined
    payload are those of the first followed by those of the second. *)
Theorem decode_concatenation (d : Dtype) (a b : list byte) :
  Nat.modulo (List.length a) (dtypeWidth d) = 0%nat ->
  decodeNdarray (dtypeTag d) (btoa (a ++ b)) =
  let* xs := decodeNdarray (dtypeTag d) (btoa a) in
  let* ys := decodeNdarray (dtypeTag d) (btoa b) in
  Ok (xs ++ ys).
Proof.
  intros Hm. rewrite !decodeNdarray_tag, !base64ToBytes_btoa. cbn [bind].
  pose proof (dtypeWidth_pos d) as Hw.
  apply Nat.Div0.div_exact in Hm.
  set (w := dtypeWidth d) in *. set (q := Nat.div (List.length a) w) in *.
  rewrite length_app.
  replace (Nat.div (List.length a + List.length b) w)
    with (q + Nat.div (List.length b) w)%nat.
  - rewrite (typedArray_app w a b q _) by lia. rewrite map_app. reflexivity.
  - rewrite Hm. rewrite (Nat.mul_comm w q). rewrite Nat.div_add_l by lia. reflexivity.
Qed.

(* ------------------------------------------------------------------ *)
(** ** Shapes *)

Lemma chars_app (s1 s2 : string) :
  list_ascii_of_string (s1 ++ s2) = list_ascii_of_string s1 ++ list_ascii_of_string s2.
Proof.
  induction s1 as [|c s1 IH]; [reflexivity|]. cbn. f_equal. exact IH.
Qed.

Lemma digitsValue_acc (u : Decimal.uint) :
  forall acc : positive,
    digitsValue (Zpos acc) (list_ascii_of_string (NilEmpty.string_of_uint u))
    = Some (Zpos (Pos.of_uint_acc u acc)).
Proof.
  induction u as [|u IH|u IH|u IH|u IH|u IH|u IH|u IH|u IH|u IH|u IH]; intros acc;
    [reflexivity|..];
    cbn [NilEmpty.string_of_uint list_ascii_of_string digitsValue Pos.of_uint_acc];
    match goal with
    | |- context [digitValue ?c] =>
        let v := eval vm_compute in (digitValue c) in change (digitValue c) with v
    end;
    cbv iota; rewrite <- IH; f_equal; lia.
Qed.

Lemma digitsValue_uint (u : Decimal.uint) :
  digitsValue 0 (list_ascii_of_string (NilEmpty.string_of_uint u)) = Some (Z.of_uint u).
Proof.
  induction u as [|u IH|u IH|u IH|u IH|u IH|u IH|u IH|u IH|u IH|u IH];
    [reflexivity|exact IH|..];
    cbn [NilEmpty.string_of_uint list_ascii_of_string digitsValue];
    match goal with
    | |- context [digitValue ?c] =>
        let v := eval vm_compute in (digitValue c) in change (digitValue c) with v
    end;
    cbv iota; apply digitsValue_acc.
Qed.

Lemma uint_chars_digits (u : Decimal.uint) :
  Forall (fun c => isShapeSeparator c = false /\ (charCode c =? 45) = false
                   /\ (charCode c =? 43) = false)
         (list_ascii_of_string (NilEmpty.string_of_uint u)).
Proof.
  induction u; cbn [NilEmpty.string_of_uint list_ascii_of_string];
    constructor; try assumption; repeat split.
Qed.

Lemma pos_uint_nonempty (p : positive) :
  NilEmpty.string_of_uint (Pos.to_uint p) <> "".
Proof.
  intros E.
  pose proof (digitsValue_uint (Pos.to_uint p)) as H. rewrite E in H. cbn in H.
  pose proof (DecimalZ.of_to (Zpos p)) as H'. cbn in H'.
  injection H as H. rewrite <- H in H'. discriminate H'.
Qed.

Lemma nilzero_pos (p : positive) :
  NilZero.string_of_uint (Pos.to_uint p) = NilEmpty.string_of_uint (Pos.to_uint p).
Proof.
  pose proof (pos_uint_nonempty p) as H.
  destruct (Pos.to_uint p); [exfalso; apply H; reflexivity|reflexivity..].
Qed.

(** The decimal form of an integer is a token that [Number] reads back. *)
Lemma decimal_token (z : Z) :
  tokenToInteger (list_ascii_of_string (decimal z)) = Some z
  /\ list_ascii_of_string (decimal z) <> []
  /\ Forall (fun c => isShapeSeparator c = false) (list_ascii_of_string (decimal z)).
Proof.
  unfold decimal. destruct z as [|p|p].
  - cbn. repeat split; [discriminate|]. repeat constructor.
  - cbn [Z.to_int NilZero.string_of_int]. rewrite nilzero_pos.
    pose proof (pos_uint_nonempty p) as Hne.
    pose proof (uint_chars_digits (Pos.to_uint p)) as Hd.
    pose proof (digitsValue_uint (Pos.to_uint p)) as Hv.
    pose proof (DecimalZ.of_to (Zpos p)) as Hz. cbn [Z.to_int Z.of_int] in Hz.
    rewrite Hz in Hv.
    destruct (list_ascii_of_string (NilEmpty.string_of_uint (Pos.to_uint p)))
      as [|c r] eqn:E.
    + exfalso. apply Hne. rewrite <- (string_of_list_ascii_of_string (NilEmpty.string_of_uint _)).
      rewrite E. reflexivity.
    + split; [|split; [discriminate|]].
      * unfold tokenToInteger. inversion Hd as [|? ? (_ & H45 & H43) _]; subst.
        rewrite H45, H43. exact Hv.
      * eapply Forall_impl; [|exact Hd]. intros a Ha. apply Ha.
  - cbn [Z.to_int NilZero.string_of_int]. rewrite nilzero_pos.
    pose proof (pos_uint_nonempty p) as Hne.
    pose proof (uint_chars_digits (Pos.to_uint p)) as Hd.
    pose proof (digitsValue_uint (Pos.to_uint p)) as Hv.
    pose proof (DecimalZ.of_to (Zpos p)) as Hz. cbn [Z.to_int Z.of_int] in Hz.
    rewrite Hz in Hv.
    cbn [list_ascii_of_string].
    destruct (list_ascii_of_string (NilEmpty.string_of_uint (Pos.to_uint p)))
      as [|c r] eqn:E.
    + exfalso. apply Hne. rewrite <- (string_of_list_ascii_of_string (NilEmpty.string_of_uint _)).
      rewrite E. reflexivity.
    + split; [|split; [discriminate|]].
      * unfold tokenToInteger. change (charCode "-" =? 45) with true. cbv iota.
        rewrite Hv. reflexivity.
      * constructor; [reflexivity|].
        eapply Forall_impl; [|exact Hd]. intros a Ha. apply Ha.
Qed.

Lemma shapeTokens_run (tok : list ascii) :
  Forall (fun c => isShapeSeparator c = false) tok ->
  forall cur rest, shapeTokens cur (tok ++ rest) = shapeTokens (rev tok ++ cur) rest.
Proof.
  induction 1 as [|c tok Hc _ IH]; intros cur rest; [reflexivity|].
  cbn [app shapeTokens rev]. rewrite Hc. rewrite IH. rewrite <- app_assoc. reflexivity.
Qed.

Lemma shapeTokens_separators (sep : list ascii) :
  Forall (fun c => isShapeSeparator c = true) sep ->
  forall rest, shapeTokens [] (sep ++ rest) = shapeTokens [] rest.
Proof.
  induction 1 as [|c sep Hc _ IH]; intros rest; [reflexivity|].
  cbn [app shapeTokens]. rewrite Hc. apply IH.
Qed.

Lemma shapeTokens_token (tok sep rest : list ascii) :
  tok <> [] -> Forall (fun c => isShapeSeparator c = false) tok ->
  sep <> [] -> Forall (fun c => isShapeSeparator c = true) sep ->
  shapeTokens [] (tok ++ sep ++ rest) = tok :: shapeTokens [] rest.
Proof.
  intros Ht Hf Hs Hsep. rewrite (shapeTokens_run tok Hf). rewrite app_nil_r.
  destruct sep as [|c sep]; [contradiction|].
  inversion Hsep as [|? ? Hc Hsep']; subst.
  cbn [app shapeTokens]. rewrite Hc.
  destruct (rev tok) as [|a r] eqn:E.
  - exfalso. apply Ht. rewrite <- (rev_involutive tok), E. reflexivity.
  - rewrite <- E, rev_involutive. f_equal. apply shapeTokens_separators. exact Hsep'.
Qed.

Lemma shapeTokens_last (tok : list ascii) :
  tok <> [] -> Forall (fun c => isShapeSeparator c = false) tok ->
  shapeTokens [] tok = [tok].
Proof.
  intros Ht Hf. rewrite <- (app_nil_r tok) at 1. rewrite (shapeTokens_run tok Hf).
  rewrite app_nil_r. cbn [shapeTokens].
  destruct (rev tok) as [|a r] eqn:E.
  - exfalso. apply Ht. rewrite <- (rev_involutive tok), E. reflexivity.
  - rewrite <- E, rev_involutive. reflexivity.
Qed.

Lemma shapeText_tokens (sep : string) (dims : list Z) :
  sep <> "" ->
  Forall (fun c => isShapeSeparator c = true) (list_ascii_of_string sep) ->
  map tokenToInteger (shapeTokens [] (list_ascii_of_string (shapeText sep dims)))
  = map Some dims.
Proof.
  intros Hs Hsep. unfold shapeText.
  induction dims as [|z dims IH]; [reflexivity|].
  destruct (decimal_token z) as (Hv & Hne & Hf).
  destruct dims as [|z' dims].
  - cbn [map String.concat]. rewrite (shapeTokens_last _ Hne Hf). cbn [map].
    rewrite Hv. reflexivity.
  - change (String.concat sep (map decimal (z :: z' :: dims)))
      with (decimal z ++ sep ++ String.concat sep (map decimal (z' :: dims)))%string.
    rewrite !chars_app. rewrite (shapeTokens_token _ _ _ Hne Hf); [|  |exact Hsep].
    + cbn [map]. rewrite Hv. f_equal. exact IH.
    + intros E. apply Hs. rewrite <- (string_of_list_ascii_of_string sep), E. reflexivity.
Qed.

Lemma allSome_map_Some {A} (l : list A) : allSome (map Some l) = Some l.
Proof.
  induction l as [|a l IH]; [reflexivity|]. cbn [map allSome]. rewrite IH. reflexivity.
Qed.

(** X7 -- a shape written as text is read back: integer entries of
    magnitude at most 2^53 (those that [Number] reads exactly), printed in
    decimal and joined by any non-empty run of commas and white space, parse
    to the same list of entries. *)
Theorem parseShape_reads_decimal_text (sep : string) (dims : list Z) :
  dims <> [] -> sep <> "" ->
  Forall (fun c => isShapeSeparator c = true) (list_ascii_of_string sep) ->
  Forall (fun z => Z.abs z <= 2 ^ 53) dims ->
  parseShape (ShapeString (shapeText sep dims)) = Some dims.
Proof.
  intros Hd Hs Hsep _. unfold parseShape.
  destruct (String.eqb_spec (shapeText sep dims) "") as [E|_].
  - exfalso. destruct dims as [|z dims]; [contradiction|].
    destruct (decimal_token z) as (_ & Hne & _). apply Hne.
    unfold shapeText in E. destruct dims as [|z' dims].
    + cbn [map String.concat] in E. rewrite E. reflexivity.
    + change (String.concat sep (map decimal (z :: z' :: dims)))
        with (decimal z ++ sep ++ String.concat sep (map decimal (z' :: dims)))%string in E.
      destruct (decimal z); [reflexivity|discriminate E].
  - rewrite (shapeText_tokens sep dims Hs Hsep). apply allSome_map_Some.
Qed.

(** X8 -- a shape string made only of commas and white space is not
    absent: it parses to the empty shape, and the matrix built from a binary
    array is then the single row of all elements, whatever the label counts
    and the element count. *)
Theorem blank_shape_gives_single_row (s : string) (flat : list Primitive) (xLen yLen : nat) :
  s <> "" ->
  Forall (fun c => isShapeSeparator c = true) (list_ascii_of_string s) ->
  parseShape (ShapeString s) = Some []
  /\ ndarrayMatrix flat (ShapeString s) xLen yLen = Ok [flat].
Proof.
  intros Hs Hsep.
  assert (E : parseShape (ShapeString s) = Some []).
  { unfold parseShape. destruct (String.eqb_spec s "") as [E|_]; [contradiction|].
    rewrite <- (app_nil_r (list_ascii_of_string s)).
    rewrite (shapeTokens_separators _ Hsep). reflexivity. }
  split; [exact E|]. unfold ndarrayMatrix. rewrite E. reflexivity.
Qed.

(* ------------------------------------------------------------------ *)
(** ** Reshaping and transposition *)

Lemma slice_nat {A} (l : list A) (a b : nat) :
  slice l (Z.of_nat a) (Z.of_nat b) = firstn (b - a) (skipn a l).
Proof.
  unfold slice, relativeIndex.
  destruct (Z.ltb_spec (Z.of_nat a) 0) as [H|_]; [lia|].
  destruct (Z.ltb_spec (Z.of_nat b) 0) as [H|_]; [lia|].
  destruct (Nat.le_gt_cases (List.length l) a) as [Ha|Ha].
  - rewrite (Z.min_r (Z.of_nat a)) by lia. rewrite Nat2Z.id. rewrite !skipn_all2 by lia.
    rewrite !firstn_nil. reflexivity.
  - rewrite (Z.min_l (Z.of_nat a)) by lia. rewrite Nat2Z.id.
    destruct (Nat.le_gt_cases b (List.length l)) as [Hb|Hb].
    + rewrite (Z.min_l (Z.of_nat b)) by lia. f_equal. lia.
    + rewrite (Z.min_r (Z.of_nat b)) by lia.
      rewrite !firstn_all2; [reflexivity|rewrite length_skipn; lia|rewrite length_skipn; lia].
Qed.

Lemma firstn_plus {A} (a b : nat) :
  forall l : list A, firstn (a + b) l = firstn a l ++ firstn b (skipn a l).
Proof.
  induction a as [|a IH]; intros l; [reflexivity|].
  destruct l as [|x l]; [cbn; rewrite firstn_nil; reflexivity|].
  cbn. f_equal. apply IH.
Qed.

Lemma rows_prefix {A} (flat : list A) (c n : nat) :
  List.concat (map (fun r => firstn ((r + 1) * c - r * c) (skipn (r * c) flat)) (seq 0 n))
  = firstn (n * c) flat.
Proof.
  induction n as [|n IH]; [reflexivity|].
  rewrite seq_S, map_app, concat_app, IH. cbn [Nat.add map List.concat].
  rewrite app_nil_r.
  replace ((n + 1) * c - n * c)%nat with c by lia.
  replace (S n * c)%nat with (n * c + c)%nat by lia.
  symmetry. apply firstn_plus.
Qed.

(** On integers: the outcome of [reshape2D], and the rows as a prefix of
    the buffer. *)
Lemma reshape2D_prefix {A} (flat : list A) (rows cols : Z) :
  (reshape2D flat rows cols = Err RangeError <-> rows < 0 \/ 2 ^ 32 <= rows)
  /\ (forall m, reshape2D flat rows cols = Ok m ->
        List.length m = Z.to_nat rows
        /\ (0 <= cols ->
            Forall (fun row => (List.length row <= Z.to_nat cols)%nat) m
            /\ List.concat m = firstn (Z.to_nat (rows * cols)) flat)).
Proof.
  unfold reshape2D.
  destruct (Z.leb_spec 0 rows) as [H0|H0]; destruct (Z.ltb_spec rows (2 ^ 32)) as [H1|H1];
    cbn [andb].
  2-4: split; [split; [intros _; lia|reflexivity]|intros m H; discriminate H].
  split; [split; [discriminate|lia]|].
  intros m H. injection H as <-. split; [rewrite length_map, length_seq; reflexivity|].
  intros Hc.
  assert (E : map (fun r : nat => slice flat (Z.of_nat r * cols) ((Z.of_nat r + 1) * cols))
                  (seq 0 (Z.to_nat rows))
              = map (fun r => firstn ((r + 1) * Z.to_nat cols - r * Z.to_nat cols)
                                     (skipn (r * Z.to_nat cols) flat))
                    (seq 0 (Z.to_nat rows))).
  { apply map_ext. intros r.
    replace (Z.of_nat r * cols) with (Z.of_nat (r * Z.to_nat cols)) by nia.
    replace ((Z.of_nat r + 1) * cols) with (Z.of_nat ((r + 1) * Z.to_nat cols)) by nia.
    apply slice_nat. }
  rewrite E. split.
  - rewrite Forall_map. apply Forall_forall. intros r _.
    etransitivity; [apply firstn_le_length|]. nia.
  - rewrite rows_prefix. f_equal. nia.
Qed.

Lemma relativeIndex_zero (len : Z) : 0 <= len -> relativeIndex len 0 = 0.
Proof. intros H. unfold relativeIndex. cbn. lia. Qed.

Lemma relativeIndex_far (len x : Z) :
  0 <= len < 2 ^ 53 -> 2 ^ 53 <= Z.abs x ->
  relativeIndex len x = if x <? 0 then 0 else len.
Proof.
  intros Hl Hx. unfold relativeIndex. destruct (Z.ltb_spec x 0); lia.
Qed.

(** The index that [slice] derives from the product [r * c] computed in
    binary64 is the one it derives from the exact product, on an array of
    fewer than 2^53 elements: the product is exact below 2^53, and beyond
    that both are clamped alike. *)
Lemma sliceBound_product (len : Z) (r : nat) (c : Z) :
  0 <= len < 2 ^ 53 ->
  sliceBound len (timesIndex r (Int c)) = relativeIndex len (Z.of_nat r * c).
Proof.
  intros Hl. unfold timesIndex.
  destruct ((r =? 0)%nat || (c =? 0)) eqn:E0.
  - assert (Ez : Z.of_nat r * c = 0).
    { apply orb_true_iff in E0. destruct E0 as [E|E].
      - apply Nat.eqb_eq in E. subst r. reflexivity.
      - apply Z.eqb_eq in E. subst c. lia. }
    rewrite Ez, relativeIndex_zero by lia.
    destruct (c <? 0); cbn [sliceBound num_trunc]; [reflexivity|].
    apply relativeIndex_zero. lia.
  - apply orb_false_iff in E0. destruct E0 as [Er Ec].
    apply Nat.eqb_neq in Er. apply Z.eqb_neq in Ec.
    set (m := Z.of_nat r * Z.abs c).
    assert (Hm : 0 < m) by (unfold m; nia).
    assert (Hsgn : (if c <? 0 then -1 else 1) * m = Z.of_nat r * c)
      by (unfold m; destruct (Z.ltb_spec c 0); nia).
    unfold roundDouble. fold m.
    destruct (Z.ltb_spec (Z.log2 m) 53) as [Hb|Hb].
    + unfold dyadic. destruct m as [|p|p] eqn:Em; try lia.
      cbn [Z.leb Z.compare]. cbv iota. rewrite Z.pow_0_r, Z.mul_1_r.
      cbn [sliceBound num_trunc]. rewrite <- Hsgn. reflexivity.
    + pose proof (Z.log2_spec m Hm) as [Hlow _].
      assert (H53 : 2 ^ 53 <= m).
      { eapply Z.le_trans; [|exact Hlow]. apply Z.pow_le_mono_r; lia. }
      set (s := Z.log2 m - 52) in *.
      assert (Hs : 1 <= s) by (unfold s; lia).
      assert (Hq : 2 ^ 52 <= m / 2 ^ s).
      { apply Z.div_le_lower_bound; [apply Z.pow_pos_nonneg; lia|].
        rewrite <- Z.pow_add_r by lia. replace (s + 52) with (Z.log2 m) by (unfold s; lia).
        exact Hlow. }
      set (q' := if (2 ^ (s - 1) <? m mod 2 ^ s)
                    || ((m mod 2 ^ s =? 2 ^ (s - 1)) && Z.odd (m / 2 ^ s))
                 then m / 2 ^ s + 1 else m / 2 ^ s).
      assert (Hq' : 2 ^ 52 <= q').
      { unfold q'. destruct (_ || _); lia. }
      assert (Hfar : 2 ^ 53 <= Z.abs (Z.of_nat r * c)).
      { rewrite <- Hsgn. destruct (c <? 0); lia. }
      rewrite (relativeIndex_far len _ Hl Hfar).
      assert (Hneg : (Z.of_nat r * c <? 0) = (c <? 0)).
      { destruct (Z.ltb_spec c 0); [apply Z.ltb_lt|apply Z.ltb_ge]; nia. }
      rewrite Hneg.
      destruct (1024 <=? Z.log2 q' + (0 + s)).
      * destruct (c <? 0); reflexivity.
      * unfold dyadic. destruct q' as [|p|p] eqn:Eq; try lia.
        replace (0 <=? 0 + s) with true by (symmetry; apply Z.leb_le; lia).
        cbn [sliceBound num_trunc].
        assert (Hbig : 2 ^ 53 <= Z.pos p * 2 ^ (0 + s)).
        { replace (0 + s) with (1 + (s - 1)) by lia.
          rewrite Z.pow_add_r by lia.
          assert (0 < 2 ^ (s - 1)) by (apply Z.pow_pos_nonneg; lia).
          change (2 ^ 53) with (2 ^ 52 * 2). change (2 ^ 1) with 2. nia. }
        rewrite (relativeIndex_far len _ Hl).
        -- destruct (c <? 0).
           ++ replace (-1 * (Z.pos p * 2 ^ (0 + s)) <? 0) with true
                by (symmetry; apply Z.ltb_lt; lia). reflexivity.
           ++ replace (1 * (Z.pos p * 2 ^ (0 + s)) <? 0) with false
                by (symmetry; apply Z.ltb_ge; lia). reflexivity.
        -- destruct (c <? 0); lia.
Qed.

Lemma reshape2DNumber_integers {A} (flat : list A) (r c : Z) :
  Z.of_nat (List.length flat) < 2 ^ 32 ->
  reshape2DNumber flat (Int r) (Int c) = reshape2D flat r c.
Proof.
  intros Hl. unfold reshape2DNumber, reshape2D, arrayOfLength.
  destruct ((0 <=? r) && (r <? 2 ^ 32)); [|reflexivity].
  cbn [bind]. f_equal. apply map_ext. intros i. unfold sliceNumber, slice.
  assert (Hlen : 0 <= Z.of_nat (List.length flat) < 2 ^ 53) by lia.
  rewrite !(sliceBound_product _ _ _ Hlen).
  replace (Z.of_nat (i + 1)) with (Z.of_nat i + 1) by lia. reflexivity.
Qed.

(** X9 -- reshape2D on any two numbers.  It raises a RangeError exactly
    when the row count is not an array length, that is unless it is an
    integer from 0 to 2^32 - 1 or the negative zero (so for a negative, a
    fractional, an infinite or a NaN count), and raises nothing else;
    otherwise it returns that many rows.  For an integer row count and an
    integer width, on a buffer of fewer than 2^32 elements, the rows are
    those given by exact integer arithmetic; for a non-negative integer
    width no row is longer than the width, and the rows read in order are
    the first rows x cols elements of the buffer (all of it when it is
    shorter): nothing is reordered, repeated or invented. *)
Theorem reshape2D_rows {A} (flat : list A) (rows cols : Number) :
  (reshape2DNumber flat rows cols = Err RangeError
   <-> rows <> NegZero /\ forall r, 0 <= r < 2 ^ 32 -> rows <> Int r)
  /\ (forall e, reshape2DNumber flat rows cols = Err e -> e = RangeError)
  /\ (forall m, reshape2DNumber flat rows cols = Ok m ->
         List.length m = Z.to_nat (num_trunc rows))
  /\ (forall r c,
         rows = Int r -> cols = Int c -> Z.of_nat (List.length flat) < 2 ^ 32 ->
         reshape2DNumber flat rows cols = reshape2D flat r c)
  /\ (forall r c m,
         rows = Int r -> cols = Int c -> 0 <= c ->
         Z.of_nat (List.length flat) < 2 ^ 32 ->
         reshape2DNumber flat rows cols = Ok m ->
         Forall (fun row => (List.length row <= Z.to_nat c)%nat) m
         /\ List.concat m = firstn (Z.to_nat (r * c)) flat).
Proof.
  split; [|split; [|split; [|split]]].
  - unfold reshape2DNumber, arrayOfLength.
    destruct rows as [| | | |z|n k]; cbn [bind];
      try (split; [intros _; split; [discriminate|intros r _; discriminate]|reflexivity]).
    + split; [discriminate|]. intros [H _]. contradiction.
    + destruct (Z.leb_spec 0 z) as [H0|H0]; destruct (Z.ltb_spec z (2 ^ 32)) as [H1|H1];
        cbn [andb bind].
      * split; [discriminate|]. intros [_ H]. exfalso. apply (H z); [lia|reflexivity].
      * split; [|reflexivity]. intros _. split; [discriminate|].
        intros r Hr E. injection E as ->. lia.
      * split; [|reflexivity]. intros _. split; [discriminate|].
        intros r Hr E. injection E as ->. lia.
      * split; [|reflexivity]. intros _. split; [discriminate|].
        intros r Hr E. injection E as ->. lia.
  - intros e. unfold reshape2DNumber, arrayOfLength.
    destruct rows as [| | | |z|n k]; cbn [bind]; try (intros H; injection H as <-; reflexivity);
      try discriminate.
    destruct ((0 <=? z) && (z <? 2 ^ 32)); cbn [bind]; [discriminate|].
    intros H. injection H as <-. reflexivity.
  - intros m. unfold reshape2DNumber, arrayOfLength.
    destruct rows as [| | | |z|n k]; cbn [bind]; try discriminate.
    + intros H. injection H as <-. reflexivity.
    + destruct ((0 <=? z) && (z <? 2 ^ 32)); cbn [bind]; [|discriminate].
      intros H. injection H as <-. rewrite length_map, length_seq. reflexivity.
  - intros r c -> -> Hl. apply reshape2DNumber_integers. exact Hl.
  - intros r c m -> -> Hc Hl H. rewrite (reshape2DNumber_integers flat r c Hl) in H.
    destruct (reshape2D_prefix flat r c) as [_ Hp].
    destruct (Hp m H) as [_ Hrows]. exact (Hrows Hc).
Qed.

Lemma map_nth_seq {A} (d : A) (l : list A) :
  map (fun j => nth j l d) (seq 0 (List.length l)) = l.
Proof.
  induction l as [|a l IH]; [reflexivity|].
  cbn [List.length seq map nth]. f_equal.
  rewrite <- seq_shift, map_map. exact IH.
Qed.

Lemma nth_map_in {A B} (f : A -> B) (l : list A) (i : nat) (d : A) (d' : B) :
  (i < List.length l)%nat -> nth i (map f l) d' = f (nth i l d).
Proof.
  intros H. rewrite (nth_indep _ d' (f d)) by (rewrite length_map; exact H).
  apply map_nth.
Qed.

(** X10 -- transposition of a matrix of r >= 1 rows and c >= 1 columns
    gives c rows of r entries, and transposing twice gives the matrix
    back. *)
Theorem transpose_involutive (m : list (list Value)) (r c : nat) :
  (0 < r)%nat -> (0 < c)%nat -> rectangular r c m ->
  rectangular c r (transpose m) /\ transpose (transpose m) = m.
Proof.
  intros Hr Hc [Hlen Hrows].
  destruct m as [|row0 m']; [cbn in Hlen; lia|].
  assert (H0 : List.length row0 = c) by (inversion Hrows; assumption).
  set (m := row0 :: m') in *.
  assert (Et : transpose m = map (fun j => map (fun row => nth j row VUndef) m) (seq 0 c)).
  { unfold transpose, m. rewrite H0. reflexivity. }
  split.
  - rewrite Et. split; [rewrite length_map, length_seq; reflexivity|].
    rewrite Forall_map. apply Forall_forall. intros j _. rewrite length_map. exact Hlen.
  - destruct c as [|c']; [lia|].
    rewrite Et. cbn [seq map]. unfold transpose at 1.
    rewrite length_map, Hlen.
    change (map (fun row => nth 0 row VUndef) m
            :: map (fun j => map (fun row => nth j row VUndef) m) (seq 1 c'))
      with (map (fun j => map (fun row => nth j row VUndef) m) (seq 0 (S c'))).
    transitivity (map (fun i => nth i m []) (seq 0 r)).
    + apply map_ext_in. intros i Hi. apply in_seq in Hi. rewrite map_map.
      transitivity (map (fun j => nth j (nth i m []) VUndef) (seq 0 (S c'))).
      * apply map_ext. intros j.
        apply (nth_map_in (fun row => nth j row VUndef) m i [] VUndef). lia.
      * assert (Hl : List.length (nth i m []) = S c').
        { rewrite Forall_forall in Hrows. apply Hrows. apply nth_In. lia. }
        rewrite <- Hl. apply map_nth_seq.
    + rewrite <- Hlen. apply map_nth_seq.
Qed.

(* ------------------------------------------------------------------ *)
(** ** The heat map reader *)

Lemma fitMatrix_rectangular (Zm : list (list Primitive)) (rows cols : nat) :
  rectangular rows cols (fitMatrix Zm rows cols).
Proof.
  unfold fitMatrix, rectangular. split.
  - rewrite length_map, length_app, repeat_length, length_map, length_firstn. lia.
  - rewrite Forall_map. apply Forall_app. split.
    + rewrite Forall_map. apply Forall_forall. intros r _. cbv beta.
      unfold Primitive in *.
      pose proof (firstn_le_length cols r) as Hle.
      destruct (_ <? cols)%nat eqn:E.
      * apply Nat.ltb_lt in E. rewrite length_app, repeat_length. lia.
      * apply Nat.ltb_ge in E. lia.
    + apply Forall_forall. intros r Hr. apply repeat_spec in Hr. subst r.
      rewrite repeat_length, Nat.ltb_irrefl. apply repeat_length.
Qed.

Lemma nth_repeat_same {A} (a : A) (n i : nat) : nth i (repeat a n) a = a.
Proof.
  revert i. induction n as [|n IH]; intros [|i]; cbn; auto.
Qed.

Lemma nth_firstn_lt {A} (l : list A) (n i : nat) (d : A) :
  (i < n)%nat -> nth i (firstn n l) d = nth i l d.
Proof.
  revert l i. induction n as [|n IH]; intros l i H; [lia|].
  destruct l as [|a l]; [reflexivity|]. destruct i as [|i]; [reflexivity|].
  cbn. apply IH. lia.
Qed.

Lemma nth_pad (l : list Value) (k i : nat) :
  nth i (l ++ repeat VNull k) VNull = nth i l VNull.
Proof.
  destruct (Nat.lt_ge_cases i (List.length l)) as [H|H].
  - apply app_nth1. exact H.
  - rewrite app_nth2 by exact H. rewrite nth_repeat_same.
    symmetry. apply nth_overflow. exact H.
Qed.

(** X11 -- the trim-and-pad step of the heat map reader returns exactly
    rows x cols cells; a cell inside both the requested size and the given
    matrix keeps its value, every other cell is null. *)
Theorem fitMatrix_trims_and_pads (Zm : list (list Primitive)) (rows cols : nat) :
  rectangular rows cols (fitMatrix Zm rows cols)
  /\ forall i j, (i < rows)%nat -> (j < cols)%nat ->
       nth j (nth i (fitMatrix Zm rows cols) []) VNull = nth j (nth i Zm []) VNull.
Proof.
  split; [apply fitMatrix_rectangular|].
  intros i j Hi Hj. unfold fitMatrix. unfold Primitive in *.
  set (pad := fun r : list Value =>
                if (List.length r <? cols)%nat
                then r ++ repeat VNull (cols - List.length r) else r).
  assert (Hpad : forall r, nth j (pad r) VNull = nth j r VNull).
  { intros r. unfold pad. destruct (List.length r <? cols)%nat; [apply nth_pad|reflexivity]. }
  set (Z1 := map (fun r => firstn cols r) (firstn rows Zm)).
  assert (Hl1 : List.length Z1 = Nat.min rows (List.length Zm))
    by (unfold Z1; rewrite length_map, length_firstn; reflexivity).
  rewrite (nth_map_in pad _ i [] [])
    by (rewrite length_app, repeat_length; lia).
  rewrite Hpad.
  destruct (Nat.lt_ge_cases i (List.length Zm)) as [Hin|Hout].
  - rewrite app_nth1 by lia. unfold Z1.
    rewrite (nth_map_in (fun r => firstn cols r) _ i [] [])
      by (rewrite length_firstn; lia).
    rewrite (nth_firstn_lt _ cols j VNull Hj). rewrite (nth_firstn_lt Zm rows i [] Hi).
    reflexivity.
  - rewrite app_nth2 by lia.
    rewrite (nth_overflow Zm) by exact Hout.
    destruct (nth_in_or_default (i - List.length Z1)
                (repeat (repeat VNull cols) (rows - List.length Z1)) []) as [Hr|Hr].
    + apply repeat_spec in Hr. rewrite Hr. rewrite nth_repeat_same. destruct j; reflexivity.
    + rewrite Hr. reflexivity.
Qed.

Lemma nonEmpty_length {A} (l : list A) : l <> [] -> nonEmpty (List.length l) = true.
Proof. destruct l; [contradiction|reflexivity]. Qed.

(** X12 -- a heat map with x labels and y labels that converts at all
    gives a grid: whatever the z member holds, the table has one column for
    the y labels and one for each x label, every column has one cell per y
    label, and padding adds nothing. *)
Theorem labelled_heatmap_grid fig t xs ys tab :
  toArray (t_x t) = Ok xs -> toArray (t_y t) = Ok ys ->
  xs <> [] -> ys <> [] ->
  fromHeatmapLike fig t = Ok tab ->
  (exists Zm,
      rectangular (List.length ys) (List.length xs) Zm
      /\ columns tab =
         {| name := orElse (getYAxisTitle fig) "y"; values := ys |}
         :: map (fun c =>
                   {| name := ToString (nullishValue (nth c xs VUndef)
                                          (VStr (colName "col_" c)));
                      values := map (fun row => nullishValue (nth c row VUndef) VNull) Zm |})
                (seq 0 (List.length xs)))
  /\ List.length (columns tab) = S (List.length xs)
  /\ Forall (fun c => List.length (values c) = List.length ys) (columns tab).
Proof.
  intros Hx Hy Hxs Hys H. unfold fromHeatmapLike in H. rewrite Hx, Hy in H.
  cbn [bind] in H. destruct (heatmapMatrix t xs ys) as [Z0|e]; cbn [bind] in H;
    [|discriminate H].
  rewrite (nonEmpty_length xs Hxs), (nonEmpty_length ys Hys) in H.
  injection H as <-. cbn [columns makeTable].
  set (Zm := fitMatrix Z0 (List.length ys) (List.length xs)).
  pose proof (fitMatrix_rectangular Z0 (List.length ys) (List.length xs)) as Hrect.
  fold Zm in Hrect.
  match goal with
  | |- context [padColumnsToSameLength ?cs] => set (cols := cs)
  end.
  assert (Hall : forall c, In c cols -> List.length (values c) = List.length ys).
  { intros c [<-|Hc]; [reflexivity|]. apply in_map_iff in Hc.
    destruct Hc as (j & <- & _). cbn [values]. rewrite length_map. apply Hrect. }
  rewrite (padColumns_id cols _ Hall).
  split; [exists Zm; split; [exact Hrect|reflexivity]|].
  split.
  - unfold cols. cbn [List.length]. rewrite length_map, length_seq. reflexivity.
  - apply Forall_forall. exact Hall.
Qed.

Lemma mapM_toArray_arrays (rows : list (list Value)) :
  mapM toArray (map VArr rows) = Ok rows.
Proof.
  induction rows as [|r rows IH]; [reflexivity|].
  cbn [map mapM toArray bind]. rewrite IH. reflexivity.
Qed.

Lemma fitMatrix_id (m : list (list Primitive)) (r c : nat) :
  rectangular r c m -> fitMatrix m r c = m.
Proof.
  intros [Hl Hrows]. unfold fitMatrix. unfold Primitive in *.
  rewrite firstn_all2 by lia.
  assert (E : map (fun row : list Value => firstn c row) m = m).
  { rewrite <- (map_id m) at 2. apply map_ext_in. intros row Hin.
    rewrite Forall_forall in Hrows. apply firstn_all2. rewrite (Hrows row Hin). lia. }
  rewrite E. replace (r - List.length m)%nat with 0%nat by lia.
  cbn [repeat]. rewrite app_nil_r.
  rewrite <- (map_id m) at 2. apply map_ext_in. intros row Hin.
  rewrite Forall_forall in Hrows. rewrite (Hrows row Hin), Nat.ltb_irrefl. reflexivity.
Qed.

(** X13 -- a heat map whose z is given as one array per y label, each
    with one entry per x label, is tabulated cell for cell: the column of
    the c-th x label holds the c-th entry of every row, in row order, a
    missing entry read as null. *)
Theorem nested_heatmap_columns fig t xs ys zrows :
  toArray (t_x t) = Ok xs -> toArray (t_y t) = Ok ys ->
  xs <> [] -> ys <> [] ->
  t_z t = VArr (map VArr zrows) ->
  rectangular (List.length ys) (List.length xs) zrows ->
  exists tab,
    fromHeatmapLike fig t = Ok tab
    /\ columns tab =
       {| name := orElse (getYAxisTitle fig) "y"; values := ys |}
       :: map (fun c =>
                 {| name := ToString (nullishValue (nth c xs VUndef)
                                        (VStr (colName "col_" c)));
                    values := map (fun row => nullishValue (nth c row VUndef) VNull) zrows |})
              (seq 0 (List.length xs)).
Proof.
  intros Hx Hy Hxs Hys Hz Hrect.
  assert (Hm : heatmapMatrix t xs ys = Ok zrows).
  { unfold heatmapMatrix. rewrite Hz.
    destruct zrows as [|r0 rest].
    - destruct Hrect as [Hl _]. destruct ys; [contradiction|discriminate Hl].
    - change (map VArr (r0 :: rest)) with (VArr r0 :: map VArr rest).
      cbv iota. apply (mapM_toArray_arrays (r0 :: rest)). }
  unfold fromHeatmapLike. rewrite Hx, Hy. cbn [bind]. rewrite Hm. cbn [bind].
  rewrite (nonEmpty_length xs Hxs), (nonEmpty_length ys Hys).
  rewrite (fitMatrix_id zrows _ _ Hrect).
  eexists. split; [reflexivity|]. cbn [columns makeTable].
  apply (padColumns_id _ (List.length ys)).
  intros c [<-|Hc]; [reflexivity|]. apply in_map_iff in Hc.
  destruct Hc as (j & <- & _). cbn [values]. rewrite length_map. apply Hrect.
Qed.

(* ------------------------------------------------------------------ *)
(** ** Tables as arrays of rows *)

Lemma nullishValue_defined (v : Value) : nullishValue v VNull <> VUndef.
Proof. destruct v; discriminate. Qed.

(** X14 -- tableToArrays gives a rectangular array for any table, ragged
    or not: a header row with the column names, then one row per index
    below the longest column; every row has one cell per column, the cell of
    row r under a column is the r-th value of the column, null when the
    column is shorter or holds null or undefined there, and no cell is
    undefined. *)
Theorem tableToArrays_grid (table : DataTable) :
  let rows := tableToArrays table in
  List.length rows = S (maxLength (columns table))
  /\ Forall (fun row => List.length row = List.length (columns table)) rows
  /\ hd [] rows = map (fun c => VStr (name c)) (columns table)
  /\ (forall r ci c,
        (r < maxLength (columns table))%nat ->
        nth_error (columns table) ci = Some c ->
        nth_error (nth (S r) rows []) ci
        = Some (nullishValue (nth r (values c) VUndef) VNull))
  /\ Forall (fun row => ~ In VUndef row) rows.
Proof.
  cbn zeta. unfold tableToArrays. set (cols := columns table). set (n := maxLength cols).
  split; [cbn [List.length]; rewrite length_map, length_seq; reflexivity|].
  split; [|split; [reflexivity|split]].
  - constructor; [apply length_map|]. rewrite Forall_map. apply Forall_forall.
    intros r _. apply length_map.
  - intros r ci c Hr Hc. cbn [nth].
    rewrite (nth_map_in _ (seq 0 n) r 0%nat []) by (rewrite length_seq; exact Hr).
    rewrite seq_nth by exact Hr. cbn [Nat.add].
    rewrite nth_error_map, Hc. reflexivity.
  - constructor.
    + intros Hin. apply in_map_iff in Hin. destruct Hin as (c & Hc & _). discriminate Hc.
    + rewrite Forall_map. apply Forall_forall. intros r _ Hin.
      apply in_map_iff in Hin. destruct Hin as (c & Hc & _).
      exact (nullishValue_defined _ Hc).
Qed.

Lemma extractTables_uniform fig options tabs :
  extractTables fig options = Ok tabs -> forall t, In t tabs -> uniformLength t.
Proof.
  intros H t Ht. unfold extractTables in H.
  destruct (perTraceTables fig options) as [perTrace|e] eqn:Hp; [|discriminate].
  cbn [bind] in H.
  destruct (negb (nullish (mergeCartesian options) false)).
  - injection H as <-. eapply perTraceTables_uniform; eassumption.
  - destruct (filter _ perTrace) as [|c0 cart] eqn:Hc in H.
    + injection H as <-. eapply perTraceTables_uniform; eassumption.
    + injection H as <-. destruct Ht as [<- | Ht]; [apply makeTable_uniform|].
      apply filter_In in Ht. eapply perTraceTables_uniform; [eassumption | apply Ht].
Qed.

Lemma tableToArrays_column (tab : DataTable) (ci : nat) (c : DataColumn) :
  uniformLength tab -> nth_error (columns tab) ci = Some c ->
  map (fun row => nth ci row VUndef) (tl (tableToArrays tab))
  = map (fun v => nullishValue v VNull) (values c).
Proof.
  intros Hu Hc. unfold tableToArrays. cbn [tl]. rewrite map_map.
  assert (Hin : In c (columns tab)) by (eapply nth_error_In; exact Hc).
  rewrite <- (Hu c Hin).
  rewrite <- (map_nth_seq VUndef (values c)) at 2. rewrite map_map.
  apply map_ext. intros r.
  assert (Hlt : (ci < List.length (columns tab))%nat)
    by (apply nth_error_Some; rewrite Hc; discriminate).
  rewrite (nth_map_in _ (columns tab) ci c VUndef Hlt).
  rewrite (nth_error_nth _ _ _ Hc). reflexivity.
Qed.

(** X15 -- figureTo2DArrays fails exactly as extractTables does, and
    otherwise gives one array of rows per extracted table, in order; each is
    the header row followed by as many rows as the columns of the table are
    long, and reading an array down a column gives back the values of that
    column of the table, undefined being turned into null. *)
Theorem figureTo2DArrays_columns fig opts :
  match extractTables fig opts with
  | Err e => figureTo2DArrays fig opts = Err e
  | Ok tabs =>
      figureTo2DArrays fig opts = Ok (map tableToArrays tabs)
      /\ forall tab ci c,
           In tab tabs -> nth_error (columns tab) ci = Some c ->
           List.length (tl (tableToArrays tab)) = List.length (values c)
           /\ nth_error (hd [] (tableToArrays tab)) ci = Some (VStr (name c))
           /\ map (fun row => nth ci row VUndef) (tl (tableToArrays tab))
              = map (fun v => nullishValue v VNull) (values c)
  end.
Proof.
  unfold figureTo2DArrays.
  destruct (extractTables fig opts) as [tabs|e] eqn:He; cbn [bind]; [|reflexivity].
  split; [reflexivity|]. intros tab ci c Hin Hc.
  pose proof (extractTables_uniform fig opts tabs He tab Hin) as Hu.
  split; [|split].
  - unfold tableToArrays. cbn [tl]. rewrite length_map, length_seq.
    symmetry. apply Hu. eapply nth_error_In. exact Hc.
  - unfold tableToArrays. cbn [hd]. rewrite nth_error_map, Hc. reflexivity.
  - apply tableToArrays_column; assumption.
Qed.

(* ------------------------------------------------------------------ *)
(** ** Traces without a converter *)

Lemma no_converter_traceTable fig options counter t :
  hasConverter t = false ->
  traceTable fig options counter t =
  let typ := toLowerCase (nullish (t_type t) "") in
  let* cols := fallbackColumns (fallbackKeys t) in
  match cols with
  | [] => Ok None
  | _ :: _ =>
      Ok (Some (makeTable (Some (orElse (t_name t) (orElse (Some typ) "trace"))) cols
                  (Some [("traceType", VStr (orElse (Some typ) "unknown"))])))
  end.
Proof.
  unfold hasConverter. intros H. apply orb_false_iff in H. destruct H as [Hs Hc].
  unfold traceTable. rewrite Hc.
  unfold isOneOf, specialTypes in Hs. cbn [existsb] in Hs.
  repeat (apply orb_false_iff in Hs; destruct Hs as [?E Hs]).
  unfold isOneOf. cbn [existsb].
  repeat match goal with
         | E : String.eqb _ _ = false |- _ => rewrite E; clear E
         end.
  reflexivity.
Qed.

Lemma fallbackColumns_spec (members : list (string * Value)) :
  let present := filter (fun kv => notNull (snd kv)) members in
  match fallbackColumns members with
  | Ok cols =>
      Forall2 (fun c kv => name c = fst kv /\ toArray (snd kv) = Ok (values c)) cols present
  | Err e =>
      exists pre k v post,
        present = pre ++ (k, v) :: post
        /\ Forall (fun kv => exists vs, toArray (snd kv) = Ok vs) pre
        /\ toArray v = Err e
  end.
Proof.
  cbn zeta. induction members as [|[k v] rest IH]; [constructor|].
  cbn [fallbackColumns filter snd].
  destruct (notNull v) eqn:Hv; [|exact IH].
  destruct (toArray v) as [vals|e] eqn:Hvals; cbn [bind].
  - destruct (fallbackColumns rest) as [cols|e]; cbn [bind].
    + constructor; [split; [reflexivity|exact Hvals]|exact IH].
    + destruct IH as (pre & k' & v' & post & Hp & Hpre & He).
      exists ((k, v) :: pre), k', v', post. rewrite Hp. split; [reflexivity|].
      split; [|exact He]. constructor; [exists vals; exact Hvals|exact Hpre].
  - exists [], k, v, (filter (fun kv => notNull (snd kv)) rest).
    split; [reflexivity|]. split; [constructor|exact Hvals].
Qed.

Lemma padColumns_explicit (cols : list DataColumn) :
  padColumnsToSameLength cols
  = map (fun c => {| name := name c;
                     values := values c
                               ++ repeat VNull (maxLength cols - List.length (values c)) |})
        cols.
Proof.
  unfold padColumnsToSameLength. apply map_ext. intros [nm vals]. cbn [name values].
  destruct (Nat.eqb_spec (List.length vals) (maxLength cols)) as [E|E]; [|reflexivity].
  rewrite E, Nat.sub_diag. cbn [repeat]. rewrite app_nil_r. reflexivity.
Qed.

(** X16 -- a trace that no converter takes (its type, written in ASCII,
    is in lower case none of the special ones and the trace fails the
    cartesian test, for instance a type spelt [Scatter]) is dumped member by
    member.  It gives no table exactly
    when all ten array members are absent.  Otherwise the table has one
    column per present member, in the fixed order x, y, z, labels, values,
    locations, open, high, low, close: the column is named by the key of the
    member and holds the values of the member, followed by nulls up to the
    longest of them; the title is the trace name, else the lower-cased type,
    else trace; the metadata give the lower-cased type, else unknown.  The
    conversion fails exactly with the error of the first present member
    whose decoding fails. *)
Theorem fallback_dumps_present_members fig options counter t :
  isAsciiString (nullish (t_type t) "") = true ->
  hasConverter t = false ->
  let typ := toLowerCase (nullish (t_type t) "") in
  let present := filter (fun kv => notNull (snd kv)) (fallbackKeys t) in
  match traceTable fig options counter t with
  | Ok None => present = []
  | Ok (Some tab) =>
      present <> []
      /\ exists raw,
           Forall2 (fun c kv => name c = fst kv /\ toArray (snd kv) = Ok (values c))
                   raw present
           /\ tab =
              {| title := Some (orElse (t_name t) (orElse (Some typ) "trace"));
                 columns :=
                   map (fun c =>
                          {| name := name c;
                             values := values c
                                       ++ repeat VNull
                                            (maxLength raw - List.length (values c)) |})
                       raw;
                 meta := Some [("traceType", VStr (orElse (Some typ) "unknown"))] |}
  | Err e =>
      exists pre k v post,
        present = pre ++ (k, v) :: post
        /\ Forall (fun kv => exists vs, toArray (snd kv) = Ok vs) pre
        /\ toArray v = Err e
  end.
Proof.
  intros _ H typ present. rewrite (no_converter_traceTable fig options counter t H). cbn zeta.
  pose proof (fallbackColumns_spec (fallbackKeys t)) as Hspec. cbn zeta in Hspec.
  fold present in Hspec. fold typ.
  destruct (fallbackColumns (fallbackKeys t)) as [cols|e]; cbn [bind]; [|exact Hspec].
  destruct cols as [|c cols].
  - inversion Hspec. reflexivity.
  - split.
    + intros E. rewrite E in Hspec. inversion Hspec.
    + exists (c :: cols). split; [exact Hspec|].
      unfold makeTable. rewrite padColumns_explicit. reflexivity.
Qed.

(* ------------------------------------------------------------------ *)
(** ** The long form of cartesian traces *)

Lemma map_const_repeat {A B} (b : B) (l : list A) :
  map (fun _ => b) l = repeat b (List.length l).
Proof. induction l as [|a l IH]; [reflexivity|]. cbn. f_equal. exact IH. Qed.

Lemma longRows_arrays (xs : list Primitive) (subs : list (list Value)) :
  forall i,
    longRows xs i (map VArr subs)
    = Ok (List.concat
            (mapiFrom i (fun k sub =>
                           repeat (nullishValue (nth k xs VUndef) (VNum (Int (Z.of_nat k))))
                                  (List.length sub)) subs),
          List.concat subs).
Proof.
  induction subs as [|sub subs IH]; intros i; [reflexivity|].
  cbn [map longRows toArray bind]. rewrite IH. cbn [bind fst snd mapiFrom List.concat].
  rewrite map_const_repeat. reflexivity.
Qed.

Lemma length_concat_mapiFrom {A} (f : nat -> A) (subs : list (list Value)) :
  forall i,
    List.length (List.concat (mapiFrom i (fun k sub => repeat (f k) (List.length sub)) subs))
    = List.length (List.concat subs).
Proof.
  induction subs as [|sub subs IH]; intros i; [reflexivity|].
  cbn [mapiFrom List.concat]. rewrite !length_app, repeat_length, IH. reflexivity.
Qed.

(** X17 -- a cartesian trace whose y is an array of arrays is put in long
    form: the value column is the sub-arrays joined in order, the x column
    repeats, for every element of the i-th sub-array, the i-th x value (the
    index i when x has none there); both columns have the same length, so no
    padding is added. *)
Theorem long_form_pairs fig t fb opts xs subs :
  toArray (t_x t) = Ok xs -> t_y t = VArr (map VArr subs) -> subs <> [] ->
  exists tab,
    fromCartesian fig t fb opts = Ok tab
    /\ columns tab =
       [ {| name := orElse (xColumnName opts) (orElse (getXAxisTitle fig) "x");
            values :=
              List.concat
                (mapi (fun i sub =>
                         repeat (nullishValue (nth i xs VUndef) (VNum (Int (Z.of_nat i))))
                                (List.length sub)) subs) |};
         {| name := orElse (t_name t) (orElse (getYAxisTitle fig) fb);
            values := List.concat subs |} ]
    /\ meta tab = Some [("traceType", VStr (nullish (t_type t) "cartesian"));
                        ("longForm", VBool true)].
Proof.
  intros Hx Hy Hs. unfold fromCartesian. rewrite Hx, Hy. cbn [toArray bind].
  destruct subs as [|s0 subs]; [contradiction|].
  change (map VArr (s0 :: subs)) with (VArr s0 :: map VArr subs). cbv iota.
  change (VArr s0 :: map VArr subs) with (map VArr (s0 :: subs)).
  rewrite longRows_arrays. cbn [bind fst snd].
  eexists. split; [reflexivity|]. split; [|reflexivity].
  cbn [columns makeTable]. unfold mapi.
  apply (padColumns_id _ (List.length (List.concat (s0 :: subs)))).
  intros c [<-|[<-|[]]]; cbn [values]; [apply length_concat_mapiFrom|reflexivity].
Qed.

(* ------------------------------------------------------------------ *)
(** ** Table traces *)

Lemma nth_error_mapiFrom {A B} (f : nat -> A -> B) (l : list A) :
  forall i k, nth_error (mapiFrom i f l) k = option_map (f (i + k)%nat) (nth_error l k).
Proof.
  induction l as [|a l IH]; intros i k; [destruct k; reflexivity|].
  destruct k as [|k]; cbn [mapiFrom nth_error option_map].
  - rewrite Nat.add_0_r. reflexivity.
  - rewrite IH. replace (S i + k)%nat with (i + S k)%nat by lia. reflexivity.
Qed.

Lemma length_mapiFrom {A B} (f : nat -> A -> B) (l : list A) :
  forall i, List.length (mapiFrom i f l) = List.length l.
Proof.
  induction l as [|a l IH]; intros i; [reflexivity|]. cbn. rewrite IH. reflexivity.
Qed.

Lemma padColumns_nth (cols : list DataColumn) (i : nat) (c : DataColumn) :
  nth_error cols i = Some c ->
  exists c', nth_error (padColumnsToSameLength cols) i = Some c'
             /\ name c' = name c
             /\ values c' = values c ++ repeat VNull (maxLength cols - List.length (values c)).
Proof.
  intros H. unfold padColumnsToSameLength. rewrite nth_error_map, H. cbn [option_map].
  eexists. split; [reflexivity|].
  destruct (Nat.eqb_spec (List.length (values c)) (maxLength cols)) as [E|E].
  - split; [reflexivity|]. rewrite E, Nat.sub_diag. cbn [repeat]. symmetry. apply app_nil_r.
  - split; reflexivity.
Qed.

(** X18 -- a table trace with cell columns gives one column per cell
    column, holding its cells (then nulls up to the longest).  The names
    come from the first element of header.values only: the i-th column is
    named by the i-th entry of that element, and by col_(i+1) when the
    entry is missing, null or undefined. *)
Theorem table_trace_columns t hs headers cols cells :
  t_header_values t = VArr hs -> toArray (hd VUndef hs) = Ok headers ->
  t_cells_values t = VArr cols -> mapM toArray cols = Ok cells -> cells <> [] ->
  exists tab,
    fromTableTrace t = Ok tab
    /\ List.length (columns tab) = List.length cells
    /\ forall i col,
         nth_error cells i = Some col ->
         exists c,
           nth_error (columns tab) i = Some c
           /\ name c = ToString (nullishValue (nth i headers VUndef)
                                   (VStr (colName "col_" (i + 1))))
           /\ exists k, values c = col ++ repeat VNull k.
Proof.
  intros Hh Hhs Hc Hcs Hne. unfold fromTableTrace. rewrite Hh, Hc.
  assert (E : match hs with h0 :: _ => toArray h0 | [] => Ok [] end = Ok headers).
  { destruct hs; [exact Hhs|exact Hhs]. }
  rewrite E, Hcs. cbn [bind].
  destruct cells as [|c0 cells']; [contradiction|].
  eexists. split; [reflexivity|]. cbn [columns makeTable].
  split.
  - rewrite padColumns_length. unfold mapi. apply length_mapiFrom.
  - intros i col Hi.
    match goal with
    | |- context [padColumnsToSameLength ?cs] => set (raw := cs)
    end.
    assert (Hraw : nth_error raw i
                   = Some {| name := ToString (nullishValue (nth i headers VUndef)
                                                 (VStr (colName "col_" (i + 1))));
                             values := col |}).
    { unfold raw, mapi. rewrite nth_error_mapiFrom, Hi. reflexivity. }
    destruct (padColumns_nth raw i _ Hraw) as (c & Hn & Hname & Hvals).
    exists c. split; [exact Hn|]. split; [exact Hname|].
    eexists. exact Hvals.
Qed.

(* ------------------------------------------------------------------ *)
(** ** Size of the extraction *)

Lemma extractLoop_length fig options traces :
  forall counter tabs,
    extractLoop fig options counter traces = Ok tabs ->
    (List.length tabs <= List.length traces)%nat.
Proof.
  induction traces as [|t rest IH]; intros counter tabs H.
  - injection H as <-. cbn. lia.
  - cbn [extractLoop] in H.
    destruct (traceTable fig options counter t) as [pushed|e]; cbn [bind] in H;
      [|discriminate H].
    destruct (extractLoop fig options (S counter) rest) as [more|e] eqn:Hm;
      cbn [bind] in H; [|discriminate H].
    injection H as <-. specialize (IH _ _ Hm).
    destruct pushed; cbn [List.length]; lia.
Qed.

(** X19 -- extractTables never returns more tables than the figure has
    traces, with or without coercion and merge; a figure without traces
    gives the empty list. *)
Theorem never_more_tables_than_traces fig options :
  (forall tabs,
      extractTables fig options = Ok tabs ->
      (List.length tabs <= List.length (nullish (data fig) []))%nat)
  /\ (nullish (data fig) [] = [] -> extractTables fig options = Ok []).
Proof.
  split.
  - intros tabs H. unfold extractTables in H. rewrite perTraceTables_eq in H.
    destruct (extractLoop fig options 1 (nullish (data fig) [])) as [perTrace|e] eqn:Hl;
      cbn [bind] in H; [|discriminate H].
    pose proof (extractLoop_length fig options _ _ _ Hl) as Hlen.
    set (tabs0 := map (afterCoercion fig options) perTrace) in H.
    assert (H0 : (List.length tabs0 <= List.length (nullish (data fig) []))%nat)
      by (unfold tabs0; rewrite length_map; exact Hlen).
    destruct (negb (nullish (mergeCartesian options) false)).
    + injection H as <-. exact H0.
    + set (xName := orElse (xColumnName options) (orElse (getXAxisTitle fig) "x")) in H.
      pose proof (filter_length (isCart xName) tabs0) as Hf.
      destruct (filter (isCart xName) tabs0) as [|c0 cart].
      * injection H as <-. exact H0.
      * injection H as <-. cbn [List.length] in *. lia.
  - intros Hd. unfold extractTables. rewrite perTraceTables_eq, Hd. cbn.
    destruct (negb (nullish (mergeCartesian options) false)); reflexivity.
Qed.

(* ------------------------------------------------------------------ *)
(** ** More on the merge *)

Lemma objSet_Forall {A} (P : A -> Prop) (o : JsObject A) (k : string) (v : A) :
  Forall (fun p => P (snd p)) o -> P v -> Forall (fun p => P (snd p)) (objSet o k v).
Proof.
  intros Ho Hv. unfold objSet. destruct (objHas o k).
  - rewrite Forall_map. eapply Forall_impl; [|exact Ho].
    intros p Hp. cbv beta. destruct (fst p =? k)%string; [exact Hv|exact Hp].
  - destruct (k =? "__proto__")%string; [exact Ho|].
    apply Forall_app. split; [exact Ho|]. constructor; [exact Hv|constructor].
Qed.

Lemma mergeLoop_lengths xName xValues (tables : list DataTable) :
  forall o,
    Forall (fun p => List.length (values (snd p)) = List.length xValues) o ->
    Forall (fun p => List.length (values (snd p)) = List.length xValues)
           (fold_left (mergeStep xName xValues) tables o).
Proof.
  induction tables as [|tab tables IH]; intros o Ho; [exact Ho|].
  cbn [fold_left]. apply IH. rewrite mergeStep_series.
  destruct (seriesOf xName xValues tab) as [col|] eqn:Es; [|exact Ho].
  apply (objSet_Forall (fun c => List.length (values c) = List.length xValues)); [exact Ho|].
  unfold seriesOf in Es.
  destruct (keyColumn xName tab) as [xCol|]; [|discriminate Es].
  destruct (valueColumn xName tab) as [yCol|]; [|discriminate Es].
  injection Es as <-. apply seriesValues_length.
Qed.

(** X21 -- the merged table has exactly one row per distinct key: whatever
    the input tables and their column names, every column of the result of
    mergeCartesianTables has as many cells as there are distinct textual
    keys among the key columns, a column named by the key name is present,
    and no two columns share a name. *)
Theorem merged_table_rows (tables : list DataTable) (xName : string) :
  let X := distinctByKey (List.concat (map (keyValues xName) tables)) in
  let merged := mergeCartesianTables tables xName in
  NoDup (map key X)
  /\ Forall (fun c => List.length (values c) = List.length X) (columns merged)
  /\ In xName (map name (columns merged))
  /\ NoDup (map name (columns merged)).
Proof.
  intros X merged. split; [apply distinctByKey_NoDup|].
  destruct (merged_names xName tables) as [Hnd Hin].
  split; [|split; [apply Hin; left; reflexivity|exact Hnd]].
  unfold merged, mergeCartesianTables. cbn [makeTable columns].
  rewrite collectKeys_distinct. fold X.
  set (o := fold_left (mergeStep xName X) tables [(xName, {| name := xName; values := X |})]).
  assert (Ho : Forall (fun p => List.length (values (snd p)) = List.length X) o).
  { apply mergeLoop_lengths. constructor; [reflexivity|constructor]. }
  assert (Hv : forall c, In c (objectValues o) -> List.length (values c) = List.length X).
  { intros c Hc. eapply Permutation_in in Hc; [|apply objectValues_perm].
    apply in_map_iff in Hc. destruct Hc as (p & <- & Hp).
    rewrite Forall_forall in Ho. exact (Ho p Hp). }
  rewrite (padColumns_id _ _ Hv). apply Forall_forall. exact Hv.
Qed.

Lemma filter_keeps_all {T} (keep : T -> bool) (xs : list T) :
  Forall (fun x => keep x = true) xs -> filter keep xs = xs.
Proof.
  induction 1 as [|x xs Hx _ IH]; [reflexivity|].
  cbn [filter]. rewrite Hx, IH. reflexivity.
Qed.

Lemma distinctByKey_app (xs ys : list Primitive) :
  distinctByKey (xs ++ ys)
  = distinctByKey xs
    ++ filter (fun w => negb (existsb (String.eqb (key w)) (map key xs))) (distinctByKey ys).
Proof.
  induction xs as [|v xs IH].
  - cbn [app distinctByKey map]. symmetry. apply filter_keeps_all. apply Forall_forall. reflexivity.
  - cbn [app distinctByKey]. rewrite IH, filter_app, filter_filter_and. cbn [app].
    do 2 f_equal. apply filter_ext. intros w. cbn [map existsb].
    rewrite negb_orb. reflexivity.
Qed.

Lemma distinctByKey_id (xs : list Primitive) :
  NoDup (map key xs) -> distinctByKey xs = xs.
Proof.
  induction xs as [|v xs IH]; intros H; [reflexivity|].
  inversion H as [|? ? Hn Hnd]; subst. cbn [distinctByKey]. rewrite (IH Hnd). f_equal.
  apply filter_keeps_all. apply Forall_forall. intros w Hw. apply negb_true_iff. apply String.eqb_neq. intros E.
  apply Hn. rewrite <- E. apply in_map. exact Hw.
Qed.

Lemma distinctByKey_repeated (xs : list Primitive) (blocks : list (list Primitive)) :
  NoDup (map key xs) -> Forall (fun b => b = xs) blocks ->
  distinctByKey (xs ++ List.concat blocks) = xs.
Proof.
  intros Hnd Hb. rewrite distinctByKey_app, (distinctByKey_id xs Hnd).
  transitivity (xs ++ []); [f_equal|apply app_nil_r].
  assert (Hsub : forall w, In w (distinctByKey (List.concat blocks)) -> In (key w) (map key xs)).
  { intros w Hw. apply (in_map key) in Hw. apply (proj1 (distinctByKey_keys _ _)) in Hw.
    apply in_map_iff in Hw. destruct Hw as (u & <- & Hu).
    apply in_concat in Hu. destruct Hu as (b & Hbin & Hub).
    rewrite Forall_forall in Hb. rewrite (Hb b Hbin) in Hub. apply in_map. exact Hub. }
  induction (distinctByKey (List.concat blocks)) as [|w l IH]; [reflexivity|].
  cbn [filter].
  assert (E : existsb (String.eqb (key w)) (map key xs) = true).
  { apply existsb_exists. exists (key w). split; [apply Hsub; left; reflexivity|].
    apply String.eqb_refl. }
  rewrite E. cbn [negb]. apply IH. intros u Hu. apply Hsub. right. exact Hu.
Qed.

Lemma seriesValues_aligned (xCol yCol : DataColumn) :
  NoDup (map key (values xCol)) ->
  seriesValues (values xCol) xCol yCol
  = map (fun i => nullishValue (nth i (values yCol) VUndef) VNull)
        (seq 0 (List.length (values xCol))).
Proof.
  intros Hnd. apply nth_error_ext. intros gi.
  destruct (nth_error (values xCol) gi) as [vx|] eqn:Hgi.
  - destruct (seriesValues_nth (values xCol) xCol yCol gi vx Hgi) as (entry & He & _ & Hlast).
    rewrite He. rewrite nth_error_map.
    assert (Hlt : (gi < List.length (values xCol))%nat)
      by (apply nth_error_Some; rewrite Hgi; discriminate).
    rewrite nth_error_seq. destruct (Nat.ltb_spec gi (List.length (values xCol))); [|lia].
    cbn [option_map Nat.add]. f_equal. apply (Hlast gi vx Hgi eq_refl).
    intros j w Hj Hw E.
    assert (Hk1 : nth_error (map key (values xCol)) gi = Some (key vx))
      by (rewrite nth_error_map, Hgi; reflexivity).
    assert (Hk2 : nth_error (map key (values xCol)) j = Some (key vx))
      by (rewrite nth_error_map, Hw; cbn [option_map]; rewrite E; reflexivity).
    rewrite NoDup_nth_error in Hnd.
    assert (gi = j); [|lia].
    apply Hnd; [rewrite length_map; exact Hlt|congruence].
  - assert (Hge : (List.length (values xCol) <= gi)%nat) by (apply nth_error_None; exact Hgi).
    transitivity (@None Value).
    + apply nth_error_None. rewrite seriesValues_length. exact Hge.
    + symmetry. apply nth_error_None. rewrite length_map, length_seq. exact Hge.
Qed.

Lemma aligned_series xName xs (tables : list DataTable) (ys : list DataColumn) :
  NoDup (map key xs) ->
  Forall2 (fun tab yCol => keyValues xName tab = xs /\ valueColumn xName tab = Some yCol)
          tables ys ->
  seriesNames xName tables = map name ys
  /\ seriesList xName xs tables
     = map (fun yCol =>
              {| name := name yCol;
                 values := map (fun i => nullishValue (nth i (values yCol) VUndef) VNull)
                               (seq 0 (List.length xs)) |}) ys
  /\ Forall (fun b => b = xs) (map (keyValues xName) tables).
Proof.
  intros Hnd H. induction H as [|tab yCol tables ys [Hk Hv] _ (IH1 & IH2 & IH3)].
  - repeat split. constructor.
  - unfold seriesNames, seriesList in *. cbn [flat_map map].
    rewrite Hv, IH1, IH2. split; [reflexivity|]. split.
    + unfold seriesOf. rewrite Hv.
      unfold keyValues in Hk. unfold valueColumn in Hv.
      destruct (keyColumn xName tab) as [xCol|]; [|discriminate Hv].
      cbn [app]. f_equal. f_equal. rewrite <- Hk. apply seriesValues_aligned.
      rewrite Hk. exact Hnd.
    + constructor; [exact Hk|exact IH3].
Qed.

(** X22 -- merging series that are given against the same keys is a plain
    side-by-side join: when every table has the same key column, free of
    repeated keys, and the value columns carry distinct names (none the key
    name, [__proto__] or an array index), the merged table is that key
    column followed by the value column of each table in table order, cut or
    null-filled to the number of keys, undefined cells becoming null. *)
Theorem merge_of_aligned_series (tables : list DataTable) (ys : list DataColumn)
    (xName : string) (xs : list Primitive) :
  tables <> [] ->
  NoDup (map key xs) ->
  Forall2 (fun tab yCol => keyValues xName tab = xs /\ valueColumn xName tab = Some yCol)
          tables ys ->
  NoDup (xName :: map name ys) ->
  ~ In "__proto__" (map name ys) ->
  Forall (fun s => arrayIndex s = None) (xName :: map name ys) ->
  columns (mergeCartesianTables tables xName)
  = {| name := xName; values := xs |}
    :: map (fun yCol =>
              {| name := name yCol;
                 values := map (fun i => nullishValue (nth i (values yCol) VUndef) VNull)
                               (seq 0 (List.length xs)) |}) ys.
Proof.
  intros Hne Hnd Hall Hnames Hproto Hidx.
  destruct (aligned_series xName xs tables ys Hnd Hall) as (Hsn & Hsl & Hblocks).
  assert (HX : snd (collectKeys xName tables) = xs).
  { rewrite collectKeys_distinct. destruct tables as [|tab tables]; [contradiction|].
    cbn [map List.concat] in *.
    rewrite (Forall_inv Hblocks). apply distinctByKey_repeated; [exact Hnd|].
    exact (Forall_inv_tail Hblocks). }
  unfold mergeCartesianTables. cbn [makeTable columns]. rewrite HX.
  rewrite mergeLoop_distinct; [|cbn [map fst app]; rewrite Hsn; exact Hnames
                               |rewrite Hsn; exact Hproto].
  rewrite Hsl. set (series := map _ ys).
  change ([(xName, {| name := xName; values := xs |})]
          ++ map (fun c : DataColumn => (name c, c)) series)
    with (map (fun c : DataColumn => (name c, c))
              ({| name := xName; values := xs |} :: series)).
  rewrite objectValues_named.
  - rewrite map_map. cbn [snd]. rewrite map_id.
    apply (padColumns_id _ (List.length xs)).
    intros c [<-|Hc]; [reflexivity|]. unfold series in Hc. apply in_map_iff in Hc.
    destruct Hc as (y & <- & _). cbn [values]. rewrite length_map, length_seq. reflexivity.
  - rewrite Forall_map. cbn [fst].
    assert (E : map name ({| name := xName; values := xs |} :: series) = xName :: map name ys).
    { cbn [map name]. f_equal. unfold series. rewrite map_map. reflexivity. }
    rewrite <- E in Hidx. rewrite Forall_map in Hidx. exact Hidx.
Qed.

Lemma sortByIndex_head {A} (l : list (Z * A)) :
  l <> [] -> exists p, hd_error (sortByIndex l) = Some p /\ In p l.
Proof.
  intros Hl. destruct (sortByIndex l) as [|p r] eqn:E.
  - exfalso. apply Hl. apply Permutation_nil. rewrite <- E. apply sortByIndex_perm.
  - exists p. split; [reflexivity|].
    eapply Permutation_in; [apply sortByIndex_perm|]. rewrite E. left. reflexivity.
Qed.

(** X23 -- the key column is not always first: Object.values lists
    properties named as array indices before all others, so when some
    series is named by a canonical non-negative integer (a year, say) and
    the key name is not, the merged table begins with a series named by
    such an integer and the key column comes later. *)
Theorem integer_named_series_precede_key (tables : list DataTable) (xName s : string) :
  arrayIndex xName = None ->
  In s (seriesNames xName tables) -> arrayIndex s <> None ->
  exists c n rest,
    columns (mergeCartesianTables tables xName) = c :: rest
    /\ arrayIndex (name c) = Some n
    /\ name c <> xName
    /\ In xName (map name rest).
Proof.
  intros Hx Hs Hidx.
  destruct (merged_names xName tables) as [_ Hin].
  assert (Hkey : In xName (map name (columns (mergeCartesianTables tables xName))))
    by (apply Hin; left; reflexivity).
  revert Hkey. unfold mergeCartesianTables. cbn [makeTable columns].
  set (xValues := snd (collectKeys xName tables)).
  set (o0 := [(xName, {| name := xName; values := xValues |})]).
  assert (H0 : wellKeyed o0).
  { split; cbn; repeat constructor. intros []. }
  pose proof (mergeLoop_wellKeyed xName xValues tables o0 H0) as Hw.
  assert (Hso : In s (map fst (fold_left (mergeStep xName xValues) tables o0))).
  { apply mergeLoop_keys. right. split; [|exact Hs].
    intros ->. apply Hidx. reflexivity. }
  set (o := fold_left (mergeStep xName xValues) tables o0) in *.
  unfold objectValues.
  set (indexed := flat_map (fun p => match arrayIndex (fst p) with
                                     | Some n => [(n, snd p)]
                                     | None => []
                                     end) o).
  assert (Hne : indexed <> []).
  { apply in_map_iff in Hso. destruct Hso as (p & Hp & Hpin).
    destruct (arrayIndex s) as [n|] eqn:En; [|contradiction].
    intros E. assert (Hin' : In (n, snd p) indexed).
    { unfold indexed. apply in_flat_map. exists p. split; [exact Hpin|].
      rewrite Hp, En. left. reflexivity. }
    rewrite E in Hin'. contradiction. }
  destruct (sortByIndex_head indexed Hne) as ([n c] & Hhd & Hc).
  destruct (sortByIndex indexed) as [|q sorted] eqn:Esort; [discriminate Hhd|].
  injection Hhd as ->.
  assert (Hname : arrayIndex (name c) = Some n).
  { unfold indexed in Hc. apply in_flat_map in Hc. destruct Hc as (p & Hp & Hc).
    destruct (arrayIndex (fst p)) as [m|] eqn:Em; [|contradiction].
    destruct Hc as [Hc|[]]. injection Hc as Hm Hc'. rewrite <- Hm, <- Hc'.
    destruct Hw as [_ Hall]. rewrite Forall_forall in Hall.
    rewrite (Hall p Hp). exact Em. }
  cbn [map app snd]. unfold padColumnsToSameLength. cbn [map].
  intros Hkey. eexists. exists n. eexists. split; [reflexivity|].
  match goal with
  | |- arrayIndex (name ?h) = _ /\ _ =>
      assert (Eh : name h = name c) by (destruct (_ =? _)%nat; reflexivity)
  end.
  rewrite Eh. split; [exact Hname|].
  assert (Hneq : name c <> xName) by (intros E; rewrite E, Hx in Hname; discriminate Hname).
  split; [exact Hneq|].
  cbn [map] in Hkey. destruct Hkey as [Hk|Hk]; [|exact Hk].
  exfalso. apply Hneq. rewrite <- Eh. exact Hk.
Qed.

(* ------------------------------------------------------------------ *)
(** ** Heat maps without labels, and heat maps from binary arrays *)

(** X24 -- a heat map with neither x nor y labels, whose z is an array of
    r >= 1 rows of c entries each, is tabulated under generated headers: a
    first column holding the row indices 0 .. r-1, then one column per
    entry position, named col_0, col_1, ... (counted from zero), holding
    that entry of every row. *)
Theorem unlabelled_heatmap_columns fig t zrows r c :
  toArray (t_x t) = Ok [] -> toArray (t_y t) = Ok [] ->
  t_z t = VArr (map VArr zrows) ->
  rectangular r c zrows -> (0 < r)%nat ->
  exists tab,
    fromHeatmapLike fig t = Ok tab
    /\ columns tab =
       {| name := orElse (getYAxisTitle fig) "y";
          values := map (fun i => VNum (Int (Z.of_nat i))) (seq 0 r) |}
       :: map (fun j =>
                 {| name := colName "col_" j;
                    values := map (fun row => nullishValue (nth j row VUndef) VNull) zrows |})
              (seq 0 c).
Proof.
  intros Hx Hy Hz Hrect Hr.
  assert (Hm : heatmapMatrix t [] [] = Ok zrows).
  { unfold heatmapMatrix. rewrite Hz.
    destruct zrows as [|r0 rest].
    - destruct Hrect as [Hl _]. cbn in Hl. lia.
    - change (map VArr (r0 :: rest)) with (VArr r0 :: map VArr rest).
      cbv iota. apply (mapM_toArray_arrays (r0 :: rest)). }
  unfold fromHeatmapLike. rewrite Hx, Hy. cbn [bind]. rewrite Hm. cbn [bind].
  cbn [List.length nonEmpty Nat.eqb negb]. unfold Primitive in *.
  assert (Hrows : List.length zrows = r) by apply Hrect.
  assert (Hcols : match zrows with r0 :: _ => List.length r0 | [] => 0%nat end = c).
  { destruct zrows as [|r0 rest]; [cbn in Hrows; lia|].
    destruct Hrect as [_ Hall]. inversion Hall; assumption. }
  rewrite Hrows, Hcols. rewrite (fitMatrix_id zrows _ _ Hrect).
  eexists. split; [reflexivity|]. cbn [columns makeTable].
  rewrite (padColumns_id _ r).
  - f_equal. apply map_ext. intros j. f_equal. destruct j; reflexivity.
  - intros col [<-|Hc]; [cbn [values]; rewrite length_map, length_seq; reflexivity|].
    apply in_map_iff in Hc. destruct Hc as (j & <- & _). cbn [values].
    rewrite length_map. exact Hrows.
Qed.

Lemma reshape2D_explicit {A} (flat : list A) (r c : nat) :
  Z.of_nat r < 2 ^ 32 ->
  reshape2D flat (Z.of_nat r) (Z.of_nat c)
  = Ok (map (fun i => firstn c (skipn (i * c) flat)) (seq 0 r)).
Proof.
  intros Hr. unfold reshape2D.
  destruct (Z.leb_spec 0 (Z.of_nat r)); [|lia].
  destruct (Z.ltb_spec (Z.of_nat r) (2 ^ 32)); [|lia].
  cbn [andb]. rewrite Nat2Z.id. f_equal. apply map_ext. intros i.
  replace (Z.of_nat i * Z.of_nat c) with (Z.of_nat (i * c)) by lia.
  replace ((Z.of_nat i + 1) * Z.of_nat c) with (Z.of_nat ((i + 1) * c)) by lia.
  rewrite slice_nat. f_equal. lia.
Qed.

Lemma nth_skipn_add {A} (l : list A) (n j : nat) (d : A) :
  nth j (skipn n l) d = nth (n + j) l d.
Proof.
  revert l. induction n as [|n IH]; intros l; [reflexivity|].
  destruct l as [|a l]; [destruct j; reflexivity|]. cbn. apply IH.
Qed.

Lemma chunks_rectangular (flat : list Value) (r c : nat) :
  List.length flat = (r * c)%nat ->
  rectangular r c (map (fun i => firstn c (skipn (i * c) flat)) (seq 0 r)).
Proof.
  intros Hl. split; [rewrite length_map, length_seq; reflexivity|].
  rewrite Forall_map. apply Forall_forall. intros i Hi. apply in_seq in Hi.
  rewrite length_firstn, length_skipn. nia.
Qed.

Lemma chunk_entry (flat : list Value) (c i j : nat) :
  (j < c)%nat ->
  nth j (firstn c (skipn (i * c) flat)) VUndef = nth (i * c + j) flat VUndef.
Proof.
  intros Hj. rewrite (nth_firstn_lt _ c j VUndef Hj). apply nth_skipn_add.
Qed.

(** X25 -- a heat map whose z is a binary array in row-major order (its
    shape, when given, lists the y count then the x count) is tabulated cell
    for cell: with r y labels and c x labels and r x c decoded elements, the
    cell of the i-th y label under the j-th x label is the element of index
    i times c plus j. *)
Theorem binary_heatmap_row_major fig t xs ys dtype bdata shape flat :
  toArray (t_x t) = Ok xs -> toArray (t_y t) = Ok ys ->
  xs <> [] -> ys <> [] -> Z.of_nat (List.length ys) < 2 ^ 32 ->
  t_z t = VNdarray dtype bdata shape ->
  decodeNdarray dtype bdata = Ok flat ->
  List.length flat = (List.length ys * List.length xs)%nat ->
  (parseShape shape = None
   \/ parseShape shape = Some [Z.of_nat (List.length ys); Z.of_nat (List.length xs)]) ->
  exists tab,
    fromHeatmapLike fig t = Ok tab
    /\ columns tab =
       {| name := orElse (getYAxisTitle fig) "y"; values := ys |}
       :: map (fun j =>
                 {| name := ToString (nullishValue (nth j xs VUndef)
                                        (VStr (colName "col_" j)));
                    values :=
                      map (fun i => nullishValue
                                      (nth (i * List.length xs + j) flat VUndef) VNull)
                          (seq 0 (List.length ys)) |})
              (seq 0 (List.length xs)).
Proof.
  intros Hx Hy Hxs Hys Hlim Hz Hdec Hlen Hshape.
  set (r := List.length ys) in *. set (c := List.length xs) in *.
  set (Zm := map (fun i => firstn c (skipn (i * c) flat)) (seq 0 r)).
  assert (Hnx : nonEmpty c = true) by (apply nonEmpty_length; exact Hxs).
  assert (Hny : nonEmpty r = true) by (apply nonEmpty_length; exact Hys).
  assert (Hm : ndarrayMatrix flat shape c r = Ok Zm).
  { unfold ndarrayMatrix. cbv zeta. rewrite Hnx, Hny. cbn [andb].
    destruct Hshape as [-> | ->]; cbv iota;
      rewrite (reshape2D_explicit flat r c Hlim); cbn [bind];
      rewrite !Z.eqb_refl; reflexivity. }
  unfold fromHeatmapLike. rewrite Hx, Hy. cbn [bind].
  unfold heatmapMatrix. rewrite Hz, Hdec. cbn [bind]. fold r c. rewrite Hm. cbn [bind].
  rewrite Hnx, Hny.
  pose proof (chunks_rectangular flat r c Hlen) as Hrect. fold Zm in Hrect.
  rewrite (fitMatrix_id Zm _ _ Hrect).
  eexists. split; [reflexivity|]. cbn [columns makeTable].
  rewrite (padColumns_id _ r).
  - f_equal. apply map_ext_in. intros j Hj. apply in_seq in Hj. f_equal.
    unfold Zm. rewrite map_map. apply map_ext. intros i.
    rewrite chunk_entry by lia. reflexivity.
  - intros col [<-|Hc]; [reflexivity|].
    apply in_map_iff in Hc. destruct Hc as (j & <- & _). cbn [values].
    rewrite length_map. apply Hrect.
Qed.

Lemma transpose_rectangular (m : list (list Value)) (a b : nat) :
  rectangular a b m -> (0 < a)%nat ->
  transpose m = map (fun j => map (fun row => nth j row VUndef) m) (seq 0 b).
Proof.
  intros [Hl Hrows] Ha. destruct m as [|row0 m']; [cbn in Hl; lia|].
  unfold transpose. inversion Hrows as [|? ? H0 _]; subst. reflexivity.
Qed.

(** X26 -- orientation repair: when the shape of the binary array lists
    the x count first and the y count second, and the two counts differ, the
    matrix is transposed before it is tabulated, so that the cell of the
    i-th y label under the j-th x label is the element of index j times r
    plus i of the decoded sequence, r being the number of y labels. *)
Theorem binary_heatmap_transposed fig t xs ys dtype bdata shape flat :
  toArray (t_x t) = Ok xs -> toArray (t_y t) = Ok ys ->
  xs <> [] -> ys <> [] -> Z.of_nat (List.length xs) < 2 ^ 32 ->
  List.length xs <> List.length ys ->
  t_z t = VNdarray dtype bdata shape ->
  decodeNdarray dtype bdata = Ok flat ->
  List.length flat = (List.length xs * List.length ys)%nat ->
  parseShape shape = Some [Z.of_nat (List.length xs); Z.of_nat (List.length ys)] ->
  exists tab,
    fromHeatmapLike fig t = Ok tab
    /\ columns tab =
       {| name := orElse (getYAxisTitle fig) "y"; values := ys |}
       :: map (fun j =>
                 {| name := ToString (nullishValue (nth j xs VUndef)
                                        (VStr (colName "col_" j)));
                    values :=
                      map (fun i => nullishValue
                                      (nth (j * List.length ys + i) flat VUndef) VNull)
                          (seq 0 (List.length ys)) |})
              (seq 0 (List.length xs)).
Proof.
  intros Hx Hy Hxs Hys Hlim Hneq Hz Hdec Hlen Hshape. unfold Primitive in *.
  set (r := List.length ys) in *. set (c := List.length xs) in *.
  set (M := map (fun a => firstn r (skipn (a * r) flat)) (seq 0 c)).
  assert (Hnx : nonEmpty c = true) by (apply nonEmpty_length; exact Hxs).
  assert (Hny : nonEmpty r = true) by (apply nonEmpty_length; exact Hys).
  pose proof (chunks_rectangular flat c r Hlen) as HM. fold M in HM.
  assert (Hc0 : (0 < c)%nat) by (unfold c; destruct xs; [contradiction|cbn; lia]).
  assert (Hr0 : (0 < r)%nat) by (unfold r; destruct ys; [contradiction|cbn; lia]).
  assert (Hm : ndarrayMatrix flat shape c r = Ok (transpose M)).
  { unfold ndarrayMatrix. unfold Primitive. cbv zeta. rewrite Hshape. cbv iota.
    rewrite (reshape2D_explicit flat c r Hlim).
    cbn [bind]. fold M. rewrite Hnx, Hny, !Z.eqb_refl. cbn [andb].
    assert (E : (Z.of_nat c =? Z.of_nat r) = false) by (apply Z.eqb_neq; lia).
    rewrite E. reflexivity. }
  assert (HT : transpose M
               = map (fun i => map (fun row => nth i row VUndef) M) (seq 0 r)).
  { apply (transpose_rectangular M c r HM Hc0). }
  assert (Hrect : rectangular r c (transpose M)).
  { rewrite HT. split; [rewrite length_map, length_seq; reflexivity|].
    rewrite Forall_map. apply Forall_forall. intros i _. rewrite length_map. apply HM. }
  unfold fromHeatmapLike. rewrite Hx, Hy. cbn [bind].
  unfold heatmapMatrix. rewrite Hz, Hdec. cbn [bind]. unfold Primitive. fold r c.
  rewrite Hm. cbn [bind].
  rewrite Hnx, Hny. rewrite (fitMatrix_id _ _ _ Hrect).
  eexists. split; [reflexivity|]. cbn [columns makeTable].
  rewrite (padColumns_id _ r).
  - f_equal. apply map_ext_in. intros j Hj. apply in_seq in Hj. f_equal.
    rewrite HT, map_map. apply map_ext_in. intros i Hi. apply in_seq in Hi. f_equal.
    unfold M.
    rewrite (nth_map_in (fun row : list Value => nth i row VUndef) _ j [] VUndef)
      by (rewrite length_map, length_seq; lia).
    rewrite (nth_map_in (fun a => firstn r (skipn (a * r) flat)) (seq 0 c) j 0%nat [])
      by (rewrite length_seq; lia).
    rewrite seq_nth by lia. cbn [Nat.add]. apply chunk_entry. lia.
  - intros col [<-|Hc]; [reflexivity|].
    apply in_map_iff in Hc. destruct Hc as (j & <- & _). cbn [values].
    rewrite length_map. apply Hrect.
Qed.

(* ------------------------------------------------------------------ *)
(** ** Column headers *)

Lemma isOneOf_In (s : string) (l : list string) : isOneOf s l = true -> In s l.
Proof.
  unfold isOneOf. intros H. apply existsb_exists in H. destruct H as (x & Hx & E).
  apply String.eqb_eq in E. subst x. exact Hx.
Qed.

Ltac dispatch_cases H :=
  apply isOneOf_In in H; cbn [In] in H;
  repeat (destruct H as [H|H]; [rewrite <- H; reflexivity|]); contradiction.

Lemma dispatch_pie fig options counter t :
  isOneOf (toLowerCase (nullish (t_type t) "")) ["pie"; "sunburst"; "treemap"; "funnelarea"]
  = true ->
  traceTable fig options counter t = option_result (fromPieLike t).
Proof. intros H. unfold traceTable. dispatch_cases H. Qed.

Lemma dispatch_ohlc fig options counter t :
  isOneOf (toLowerCase (nullish (t_type t) "")) ["ohlc"; "candlestick"] = true ->
  traceTable fig options counter t = option_result (fromOhlcLike t).
Proof. intros H. unfold traceTable. dispatch_cases H. Qed.

Lemma dispatch_box fig options counter t :
  isOneOf (toLowerCase (nullish (t_type t) "")) ["box"; "violin"] = true ->
  traceTable fig options counter t = option_result (fromBoxOrViolin fig t).
Proof. intros H. unfold traceTable. dispatch_cases H. Qed.

Lemma dispatch_waterfall fig options counter t :
  toLowerCase (nullish (t_type t) "") = "waterfall" ->
  traceTable fig options counter t = option_result (fromWaterfall t).
Proof. intros H. unfold traceTable. rewrite H. reflexivity. Qed.

Lemma dispatch_choropleth fig options counter t :
  toLowerCase (nullish (t_type t) "") = "choropleth" ->
  traceTable fig options counter t = option_result (fromChoropleth fig t).
Proof. intros H. unfold traceTable. rewrite H. reflexivity. Qed.

(** X27 -- the headers of the tables made for the special trace kinds,
    the type being compared in lower case: pie, sunburst, treemap and
    funnelarea give label, value, and parent only when parents are present;
    ohlc and candlestick give x, open, high, low, close; waterfall gives x,
    y, and measure only when present; choropleth gives location and the
    colour title (value when there is none); box and violin give the axis
    titles, x and y by default. *)
Theorem special_trace_headers fig options counter t tab :
  traceTable fig options counter t = Ok (Some tab) ->
  let typ := toLowerCase (nullish (t_type t) "") in
  (isOneOf typ ["pie"; "sunburst"; "treemap"; "funnelarea"] = true ->
   exists parents,
     toArray (t_parents t) = Ok parents
     /\ map name (columns tab)
        = "label" :: "value" :: (if nonEmpty (List.length parents) then ["parent"] else []))
  /\ (isOneOf typ ["ohlc"; "candlestick"] = true ->
      map name (columns tab) = ["x"; "open"; "high"; "low"; "close"])
  /\ (typ = "waterfall" ->
      exists measure,
        toArray (t_measure t) = Ok measure
        /\ map name (columns tab)
           = "x" :: "y" :: (if nonEmpty (List.length measure) then ["measure"] else []))
  /\ (typ = "choropleth" ->
      map name (columns tab) = ["location"; orElse (colorTitleFromFig fig t) "value"])
  /\ (isOneOf typ ["box"; "violin"] = true ->
      map name (columns tab)
      = [orElse (getXAxisTitle fig) "x"; orElse (getYAxisTitle fig) "y"]).
Proof.
  intros H typ. repeat split.
  - intros Hk. rewrite (dispatch_pie fig options counter t Hk) in H.
    unfold option_result, fromPieLike in H. bind_inv. subst.
    eexists. split; [reflexivity|]. cbn [columns makeTable]. rewrite padColumns_names.
    destruct (nonEmpty _); reflexivity.
  - intros Hk. rewrite (dispatch_ohlc fig options counter t Hk) in H.
    unfold option_result, fromOhlcLike in H. bind_inv. subst.
    cbn [columns makeTable]. rewrite padColumns_names. reflexivity.
  - intros Hk. rewrite (dispatch_waterfall fig options counter t Hk) in H.
    unfold option_result, fromWaterfall in H. bind_inv. subst.
    eexists. split; [reflexivity|]. cbn [columns makeTable]. rewrite padColumns_names.
    destruct (nonEmpty _); reflexivity.
  - intros Hk. rewrite (dispatch_choropleth fig options counter t Hk) in H.
    unfold option_result, fromChoropleth in H. bind_inv. subst.
    cbn [columns makeTable]. rewrite padColumns_names. reflexivity.
  - intros Hk. rewrite (dispatch_box fig options counter t Hk) in H.
    unfold option_result, fromBoxOrViolin in H. bind_inv. subst.
    cbn [columns makeTable]. rewrite padColumns_names. reflexivity.
Qed.

Lemma orElse_truthy (a : option string) (d : string) :
  orElse a d = if truthy a then nullish a "" else d.
Proof.
  destruct a as [s|]; [|reflexivity]. cbn. destruct (s =? "")%string; reflexivity.
Qed.

Lemma padColumns_pair (a b : DataColumn) :
  let n := Nat.max (List.length (values a)) (List.length (values b)) in
  padColumnsToSameLength [a; b]
  = [ {| name := name a; values := values a ++ repeat VNull (n - List.length (values a)) |};
      {| name := name b; values := values b ++ repeat VNull (n - List.length (values b)) |} ].
Proof.
  cbn zeta.
  assert (Hm : maxLength [a; b] = Nat.max (List.length (values a)) (List.length (values b))).
  { unfold maxLength. cbn [map fold_right]. rewrite Nat.max_0_r. reflexivity. }
  destruct (padColumns_nth [a; b] 0 a eq_refl) as (a' & Ha & Hna & Hva).
  destruct (padColumns_nth [a; b] 1 b eq_refl) as (b' & Hb & Hnb & Hvb).
  rewrite Hm in Hva, Hvb.
  pose proof (padColumns_length [a; b]) as Hl.
  destruct (padColumnsToSameLength [a; b]) as [|c0 [|c1 [|c2 r]]]; try discriminate Hl.
  cbn in Ha, Hb. injection Ha as ->. injection Hb as ->.
  destruct a' as [na va], b' as [nb vb]. cbn [name values] in *. subst. reflexivity.
Qed.

(** X28 -- the table of a plain cartesian trace (y not an array of
    arrays): two columns holding the x values and the y values, the shorter
    one followed by nulls up to the length of the longer.  The headers follow
    a fixed precedence in which an empty string counts as absent: the x
    column is named by the xColumnName option, else by the x-axis title, else
    x; the y column by the trace name, else by the y-axis title, else by the
    prefix and the counter.  The table is titled by the trace name, else by
    the type, else cartesian. *)
Theorem cartesian_table_contents fig options counter t xs ys :
  reachesCartesian t = true ->
  toArray (t_x t) = Ok xs -> toArray (t_y t) = Ok ys ->
  (forall sub rest, ys <> VArr sub :: rest) ->
  let n := Nat.max (List.length xs) (List.length ys) in
  traceTable fig options counter t
  = Ok (Some
          {| title := Some (orElse (t_name t) (nullish (t_type t) "cartesian"));
             columns :=
               [ {| name :=
                      if truthy (xColumnName options) then nullish (xColumnName options) ""
                      else if truthy (getXAxisTitle fig) then nullish (getXAxisTitle fig) ""
                      else "x";
                    values := xs ++ repeat VNull (n - List.length xs) |};
                 {| name :=
                      if truthy (t_name t) then nullish (t_name t) ""
                      else if truthy (getYAxisTitle fig) then nullish (getYAxisTitle fig) ""
                      else (nullish (unnamedYPrefix options) "y" ++ "_"
                            ++ decimal (Z.of_nat counter))%string;
                    values := ys ++ repeat VNull (n - List.length ys) |} ];
             meta := Some [("traceType", VStr (nullish (t_type t) "cartesian"))] |}).
Proof.
  intros Hr Hx Hy Hflat n.
  rewrite (reachesCartesian_traceTable fig options counter t Hr).
  unfold option_result, fromCartesian. rewrite Hx, Hy. cbn [bind].
  assert (E : forall (A : Type) (long wide : A),
             match ys with
             | VArr _ :: _ => long
             | _ => wide
             end = wide).
  { intros A long wide. destruct ys as [|y0 rest]; [reflexivity|].
    destruct y0; try reflexivity. exfalso. exact (Hflat _ _ eq_refl). }
  rewrite E. cbn [bind]. unfold makeTable. rewrite padColumns_pair.
  cbn [name values]. rewrite !orElse_truthy. reflexivity.
Qed.

(* ------------------------------------------------------------------ *)
(** ** Merging tables that have no key column *)

Lemma objectValues_single {A} (k : string) (v : A) : objectValues [(k, v)] = [v].
Proof.
  unfold objectValues. cbn [flat_map filter fst snd app].
  destruct (arrayIndex k); reflexivity.
Qed.

(** X29 -- mergeCartesianTables called on tables none of which has a key
    column (the empty list included) returns a table whose only column is
    the key column, empty. *)
Theorem merge_without_key_columns (tables : list DataTable) (xName : string) :
  Forall (fun tab => keyColumn xName tab = None) tables ->
  mergeCartesianTables tables xName
  = {| title := Some "merged_cartesian";
       columns := [ {| name := xName; values := [] |} ];
       meta := Some [("merged", VBool true)] |}.
Proof.
  intros H. unfold mergeCartesianTables.
  assert (Hk : snd (collectKeys xName tables) = []).
  { rewrite collectKeys_distinct.
    replace (map (keyValues xName) tables) with (map (fun _ : DataTable => @nil Primitive) tables).
    - clear. induction tables as [|t l IH]; [reflexivity|exact IH].
    - apply map_ext_in. intros tab Hin. rewrite Forall_forall in H.
      unfold keyValues. rewrite (H tab Hin). reflexivity. }
  rewrite Hk.
  assert (Hf : forall o, fold_left (mergeStep xName []) tables o = o).
  { clear Hk. induction H as [|tab tables Ht _ IH]; intros o; [reflexivity|].
    cbn [fold_left].
    assert (E : mergeStep xName [] o tab = o)
      by (unfold mergeStep; unfold keyColumn in Ht; rewrite Ht; reflexivity).
    rewrite E. apply IH. }
  rewrite Hf, objectValues_single. reflexivity.
Qed.

(* ------------------------------------------------------------------ *)
(** ** What the coercion pass changes *)

Lemma traceTable_frame fig (o1 o2 : ExtractOptions) counter t :
  unnamedYPrefix o1 = unnamedYPrefix o2 -> xColumnName o1 = xColumnName o2 ->
  traceTable fig o1 counter t = traceTable fig o2 counter t.
Proof.
  intros Hp Hx. unfold traceTable, fromCartesian. rewrite Hp, Hx. reflexivity.
Qed.

Lemma extractLoop_frame fig (o1 o2 : ExtractOptions) traces :
  unnamedYPrefix o1 = unnamedYPrefix o2 -> xColumnName o1 = xColumnName o2 ->
  forall counter, extractLoop fig o1 counter traces = extractLoop fig o2 counter traces.
Proof.
  intros Hp Hx. induction traces as [|t rest IH]; intros counter; [reflexivity|].
  cbn [extractLoop]. rewrite (traceTable_frame fig o1 o2 counter t Hp Hx), IH. reflexivity.
Qed.

(** X30 -- what the coerceDates option changes.  Without merge, the tables
    extracted with the option on are those extracted with it off, each
    passed through the coercion of its key-like columns; that coercion keeps
    titles, metadata, headers and cell counts, leaves every column untouched
    whose name is neither the resolved x name nor x in any letter case, and
    elsewhere keeps a cell or replaces it by a date. *)
Theorem coercion_only_rewrites_key_cells fig (off on : ExtractOptions) :
  unnamedYPrefix off = unnamedYPrefix on -> xColumnName off = xColumnName on ->
  nullish (coerceDates off) false = false -> nullish (coerceDates on) false = true ->
  nullish (mergeCartesian off) false = false -> nullish (mergeCartesian on) false = false ->
  let xName := orElse (xColumnName on) (orElse (getXAxisTitle fig) "x") in
  extractTables fig on
  = (let* tabs := extractTables fig off in Ok (map (coerceTable xName) tabs))
  /\ (forall tab,
        title (coerceTable xName tab) = title tab
        /\ meta (coerceTable xName tab) = meta tab
        /\ map name (columns (coerceTable xName tab)) = map name (columns tab)
        /\ map (fun c => List.length (values c)) (columns (coerceTable xName tab))
           = map (fun c => List.length (values c)) (columns tab))
  /\ (forall tab i c,
        nth_error (columns tab) i = Some c ->
        name c <> xName -> toLowerCase (name c) <> "x" ->
        nth_error (columns (coerceTable xName tab)) i = Some c)
  /\ (forall tab i c j v,
        nth_error (columns tab) i = Some c -> nth_error (values c) j = Some v ->
        exists c' v',
          nth_error (columns (coerceTable xName tab)) i = Some c'
          /\ nth_error (values c') j = Some v'
          /\ (v' = v \/ exists ms, v' = VDate ms)).
Proof.
  intros Hp Hx Hoff Hon Hm1 Hm2 xName. split; [|split; [|split]].
  - rewrite (extractTables_unmerged fig on Hm2), (extractTables_unmerged fig off Hm1).
    unfold perTraceTables. rewrite Hoff, Hon.
    rewrite (extractLoop_frame fig off on _ Hp Hx).
    destruct (extractLoop fig on 1 (nullish (data fig) [])); reflexivity.
  - intros tab. cbn [coerceTable title meta columns]. repeat split.
    + rewrite map_map. apply map_ext. intros c. apply coerceColumn_name.
    + rewrite map_map. apply map_ext. intros c. apply coerceColumn_length.
  - intros tab i c Hc Hn Hl. cbn [coerceTable columns]. rewrite nth_error_map, Hc.
    cbn [option_map]. f_equal. unfold coerceColumn.
    destruct (String.eqb_spec (name c) xName) as [E|_]; [contradiction|].
    destruct (String.eqb_spec (toLowerCase (name c)) "x") as [E|_]; [contradiction|].
    reflexivity.
  - intros tab i c j v Hc Hv. cbn [coerceTable columns]. rewrite nth_error_map, Hc.
    cbn [option_map]. unfold coerceColumn.
    destruct ((name c =? xName)%string || (toLowerCase (name c) =? "x")%string).
    + eexists. eexists. split; [reflexivity|]. cbn [values].
      rewrite nth_error_map, Hv. cbn [option_map]. split; [reflexivity|].
      apply maybeDate_cases.
    + exists c, v. split; [reflexivity|]. split; [exact Hv|left; reflexivity].
Qed.
End Extraction.

(* ================================================================== *)
(** * The properties on concrete figures

    The functions are evaluated with the example host; none of the figures
    below reaches a host service. *)

Local Notation "'exampleExtractTables'" :=
  (extractTables exampleNumberToString exampleDateToString exampleDateToISOString
     exampleDateParse).
Local Notation "'examplePerTraceTables'" :=
  (perTraceTables exampleNumberToString exampleDateToString exampleDateParse).
Local Notation "'exampleTraceTable'" :=
  (traceTable exampleNumberToString exampleDateToString).
Local Notation "'exampleMerge'" :=
  (mergeCartesianTables exampleNumberToString exampleDateToString exampleDateToISOString).

(** ** Unsupported dtype *)

(** C1, counterexample: in a figure of three traces, the second holding an
    array tagged i8, extractTables raises the unsupported-dtype error; it
    returns no list of tables, although the first and third traces convert
    on their own. *)
Lemma bad_dtype_aborts_extraction :
  exampleExtractTables figBadDtype defaultOptions = Err (UnsupportedDtype "i8")
  /\ ~ (exists tabs, exampleExtractTables figBadDtype defaultOptions = Ok tabs)
  /\ (exists tab, exampleTraceTable figBadDtype defaultOptions 1
                    (pieTrace (VArr [VStr "a"; VStr "b"]) (VArr (ints [1; 2])))
                  = Ok (Some tab))
  /\ (exists tab, exampleTraceTable figBadDtype defaultOptions 3
                    (xyTrace (Some "bar") None (VArr (ints [1; 2])) (VArr (ints [5; 6])))
                  = Ok (Some tab)).
Proof.
  split; [reflexivity|]. split.
  - intros [tabs H]. vm_compute in H. discriminate H.
  - split; eexists; reflexivity.
Qed.

Lemma unsupported_dtype_propagates_witness :
  supportedDtype "i8" = false
  /\ atob "AAAAAAAAAAA=" = Some [x00; x00; x00; x00; x00; x00; x00; x00]
  /\ decodeNdarray "i8" "AAAAAAAAAAA=" = Err (UnsupportedDtype "i8")
  /\ exampleTraceTable figBadDtype defaultOptions 2 badDtypeTrace
     = Err (UnsupportedDtype "i8")
  /\ exampleExtractTables figBadDtype defaultOptions = Err (UnsupportedDtype "i8").
Proof.
  destruct (unsupported_dtype_propagates exampleNumberToString exampleDateToString
              exampleDateToISOString exampleDateParse) as (H1 & H2 & H3).
  assert (Hs : supportedDtype "i8" = false) by reflexivity.
  assert (Hb : atob "AAAAAAAAAAA=" = Some [x00; x00; x00; x00; x00; x00; x00; x00])
    by reflexivity.
  assert (Ht : exampleTraceTable figBadDtype defaultOptions 2 badDtypeTrace
               = Err (UnsupportedDtype "i8")).
  { apply (H2 figBadDtype defaultOptions 2%nat badDtypeTrace "i8" "AAAAAAAAAAA=" ShapeAbsent
              [x00; x00; x00; x00; x00; x00; x00; x00]); [reflexivity | reflexivity | exact Hs | exact Hb]. }
  split; [exact Hs|]. split; [exact Hb|]. split.
  - exact (H1 "i8" "AAAAAAAAAAA=" _ Hs Hb).
  - split; [exact Ht|].
    apply (H3 figBadDtype defaultOptions
              [pieTrace (VArr [VStr "a"; VStr "b"]) (VArr (ints [1; 2]))]
              badDtypeTrace
              [xyTrace (Some "bar") None (VArr (ints [1; 2])) (VArr (ints [5; 6]))]).
    + reflexivity.
    + intros k u Hk. destruct k as [|k]; cbn in Hk; [|destruct k; discriminate Hk].
      injection Hk as <-. eexists. reflexivity.
    + exact Ht.
Defined.

(** ** Merge *)

(** C2, counterexample: two unnamed scatter traces under a y axis titled
    "Sales" give two tables whose value columns are both named "Sales"; the
    merged table has the columns x and Sales only, Sales holding the second
    series, and the values 10, 20, 30 of the first trace occur nowhere in
    the output. *)
Lemma merge_drops_series_sharing_a_name :
  examplePerTraceTables figTwoSeries mergeOptions
  = Ok [ {| title := Some "scatter";
            columns := [ {| name := "x"; values := ints [1; 2; 3] |};
                         {| name := "Sales"; values := ints [10; 20; 30] |} ];
            meta := Some [("traceType", VStr "scatter")] |};
         {| title := Some "scatter";
            columns := [ {| name := "x"; values := ints [2; 3; 4] |};
                         {| name := "Sales"; values := ints [200; 300; 400] |} ];
            meta := Some [("traceType", VStr "scatter")] |} ]
  /\ exampleExtractTables figTwoSeries mergeOptions
     = Ok [ {| title := Some "merged_cartesian";
               columns := [ {| name := "x"; values := ints [1; 2; 3; 4] |};
                            {| name := "Sales";
                               values := VNull :: ints [200; 300; 400] |} ];
               meta := Some [("merged", VBool true)] |} ]
  /\ (forall out t c,
         exampleExtractTables figTwoSeries mergeOptions = Ok out ->
         In t out -> In c (columns t) -> ~ In (VNum (Int 10)) (values c)).
Proof.
  split; [reflexivity|]. split; [reflexivity|].
  intros out t c H Ht Hc Hv. vm_compute in H. injection H as <-.
  destruct Ht as [<- | []].
  destruct Hc as [<- | [<- | []]]; cbn in Hv;
    repeat (destruct Hv as [Hv | Hv]; [discriminate Hv|]); exact Hv.
Qed.

Lemma merge_one_column_per_name_witness :
  exists perTrace out,
    examplePerTraceTables figTwoSeriesAndPie mergeOptions = Ok perTrace
    /\ exampleExtractTables figTwoSeriesAndPie mergeOptions = Ok out
    /\ (forall t, In t perTrace -> existsb (isKeyColumn "x") (columns t) = false -> In t out).
Proof.
  destruct (examplePerTraceTables figTwoSeriesAndPie mergeOptions) as [perTrace|e] eqn:Hp.
  - destruct (merge_one_column_per_name exampleNumberToString exampleDateToString
                exampleDateToISOString exampleDateParse figTwoSeriesAndPie mergeOptions
                perTrace eq_refl Hp) as (out & Hout & Hpass & _).
    exists perTrace, out. split; [reflexivity|]. split; [exact Hout | exact Hpass].
  - vm_compute in Hp. discriminate Hp.
Defined.

(** C6, counterexample: the tables A = {x:[1,2,3], y:[10,20,30]} and
    B = {x:[2,3,4], y:[200,300,400]} merged on x give the key column
    [1,2,3,4] and a single column y = [null,200,300,400]: the series
    [10,20,30,null] of A is not a column of the result. *)
Lemma merge_same_value_name_keeps_last :
  columns (exampleMerge [tableXY "y" [1; 2; 3] [10; 20; 30];
                         tableXY "y" [2; 3; 4] [200; 300; 400]] "x")
  = [ {| name := "x"; values := ints [1; 2; 3; 4] |};
      {| name := "y"; values := VNull :: ints [200; 300; 400] |} ]
  /\ ~ In (ints [10; 20; 30] ++ [VNull])
          (map values
             (columns (exampleMerge [tableXY "y" [1; 2; 3] [10; 20; 30];
                                     tableXY "y" [2; 3; 4] [200; 300; 400]] "x"))).
Proof.
  split; [reflexivity|].
  intros H. vm_compute in H. destruct H as [H | [H | []]]; discriminate H.
Qed.

Lemma merge_alignment_witness :
  NoDup ("x" :: seriesNames "x" [tableXY "yA" [1; 2; 3] [10; 20; 30];
                                 tableXY "yB" [2; 3; 4] [200; 300; 400]])
  /\ columns (exampleMerge [tableXY "yA" [1; 2; 3] [10; 20; 30];
                            tableXY "yB" [2; 3; 4] [200; 300; 400]] "x")
     = [ {| name := "x"; values := ints [1; 2; 3; 4] |};
         {| name := "yA"; values := ints [10; 20; 30] ++ [VNull] |};
         {| name := "yB"; values := VNull :: ints [200; 300; 400] |} ].
Proof.
  assert (Hnd : NoDup ("x" :: seriesNames "x" [tableXY "yA" [1; 2; 3] [10; 20; 30];
                                               tableXY "yB" [2; 3; 4] [200; 300; 400]])).
  { cbn. repeat constructor; cbn; intros H;
      repeat (destruct H as [H | H]; [discriminate H|]); exact H. }
  split; [exact Hnd|].
  destruct (merge_alignment exampleNumberToString exampleDateToString exampleDateToISOString
              [tableXY "yA" [1; 2; 3] [10; 20; 30]; tableXY "yB" [2; 3; 4] [200; 300; 400]]
              "x" Hnd) as (_ & _ & _ & _ & Horder & _).
  { cbn. intros H. repeat (destruct H as [H | H]; [discriminate H|]). exact H. }
  rewrite Horder; [reflexivity|].
  repeat constructor.
Defined.

(** ** Fallback names *)

(** C3 -- the code at the failing input: in a figure of two scatter
    traces, the first named [a] and the second unnamed, with no y-axis
    title, extractTables names the y column of the unnamed trace y_2, and no
    column is named y_1, where the claim gives the only untitled trace the
    ordinal 1. *)
Lemma unnamed_after_named_gets_ordinal_two :
  exists tabs,
    exampleExtractTables figNamedThenUnnamed defaultOptions = Ok tabs
    /\ map (fun t => map name (columns t)) tabs = [["x"; "a"]; ["x"; "y_2"]]
    /\ ~ In "y_1" (flat_map (fun t => map name (columns t)) tabs).
Proof.
  eexists. split; [reflexivity|]. split; [reflexivity|].
  cbn. intros H. repeat (destruct H as [H | H]; [discriminate H|]). exact H.
Qed.

(** The same figure, through the general statement. *)
Lemma fallback_ordinal_is_position_witness :
  exists tabs tab,
    exampleExtractTables figNamedThenUnnamed defaultOptions = Ok tabs
    /\ In (afterCoercion exampleDateParse figNamedThenUnnamed defaultOptions tab) tabs
    /\ map name (columns (afterCoercion exampleDateParse figNamedThenUnnamed defaultOptions tab))
       = ["x"; "y_2"].
Proof.
  destruct (exampleExtractTables figNamedThenUnnamed defaultOptions) as [tabs|e] eqn:Hout.
  - destruct (fallback_ordinal_is_position exampleNumberToString exampleDateToString
                exampleDateToISOString exampleDateParse figNamedThenUnnamed defaultOptions
                [ xyTrace (Some "scatter") (Some "a") (VArr (ints [1])) (VArr (ints [10]));
                  xyTrace (Some "scatter") None (VArr (ints [2])) (VArr (ints [200])) ]
                1%nat (xyTrace (Some "scatter") None (VArr (ints [2])) (VArr (ints [200])))
                tabs eq_refl eq_refl eq_refl eq_refl eq_refl eq_refl Hout)
      as (tab & _ & Hin & Hnames).
    exists tabs, tab. split; [reflexivity|]. split; [exact Hin | exact Hnames].
  - vm_compute in Hout. discriminate Hout.
Defined.

(** ** Shapes *)

(** C4, counterexample: six elements with the explicit shape [6], three
    x-labels and two y-labels.  The cascade as specified falls through to the
    label counts and gives two rows of three; the code gives the single row
    of six.  Likewise twelve elements with the shape [2,2,3] of an image and
    no labels: the cascade as specified gives the single row, the code two
    rows of two. *)
Lemma rank_one_shape_gives_single_row :
  ndarrayMatrix (ints [1; 2; 3; 4; 5; 6]) (ShapeArray [6]) 3 2
  = Ok [ints [1; 2; 3; 4; 5; 6]]
  /\ shapeResolver_claimed (ints [1; 2; 3; 4; 5; 6]) (ShapeArray [6]) 3 2
     = Ok [ints [1; 2; 3]; ints [4; 5; 6]]
  /\ ndarrayMatrix (ints [1; 2; 3; 4; 5; 6]) (ShapeArray [6]) 3 2
     <> shapeResolver_claimed (ints [1; 2; 3; 4; 5; 6]) (ShapeArray [6]) 3 2
  /\ ndarrayMatrix (ints [1; 2; 3; 4; 5; 6; 7; 8; 9; 10; 11; 12]) (ShapeArray [2; 2; 3]) 0 0
     = Ok [ints [1; 2]; ints [3; 4]]
  /\ shapeResolver_claimed (ints [1; 2; 3; 4; 5; 6; 7; 8; 9; 10; 11; 12])
       (ShapeArray [2; 2; 3]) 0 0
     = Ok [ints [1; 2; 3; 4; 5; 6; 7; 8; 9; 10; 11; 12]].
Proof.
  split; [reflexivity|]. split; [reflexivity|]. split.
  - intros H. vm_compute in H. discriminate H.
  - split; reflexivity.
Qed.

Lemma shape_cascade_witness :
  parseShape (ShapeString "2, 3") = Some [2; 3]
  /\ ndarrayMatrix (ints [1; 2; 3; 4; 5; 6]) (ShapeString "2, 3") 2 3
     = Ok [ints [1; 4]; ints [2; 5]; ints [3; 6]]
  /\ ndarrayMatrix (ints [1; 2; 3; 4; 5; 6]) ShapeAbsent 3 2
     = Ok [ints [1; 2; 3]; ints [4; 5; 6]]
  /\ ndarrayMatrix (ints [1; 2; 3; 4]) ShapeAbsent 0 0 = Ok [ints [1; 2]; ints [3; 4]]
  /\ ndarrayMatrix (ints [1; 2; 3]) ShapeAbsent 0 0 = Ok [ints [1; 2; 3]].
Proof.
  assert (Hp : parseShape (ShapeString "2, 3") = Some [2; 3]) by reflexivity.
  split; [exact Hp|]. split.
  - destruct (shape_cascade (ints [1; 2; 3; 4; 5; 6]) (ShapeString "2, 3") 2 3)
      as (H1 & _).
    rewrite (H1 2 3 [] Hp). reflexivity.
  - split.
    + destruct (shape_cascade (ints [1; 2; 3; 4; 5; 6]) ShapeAbsent 3 2)
        as (_ & _ & H3 & _).
      rewrite (H3 eq_refl eq_refl). reflexivity.
    + split.
      * destruct (shape_cascade (ints [1; 2; 3; 4]) ShapeAbsent 0 0)
          as (_ & _ & _ & H4 & _).
        rewrite (H4 eq_refl eq_refl eq_refl). reflexivity.
      * destruct (shape_cascade (ints [1; 2; 3]) ShapeAbsent 0 0)
          as (_ & _ & _ & _ & H5 & _).
        rewrite (H5 eq_refl eq_refl eq_refl). reflexivity.
Defined.

(** ** Dispatch *)

(** C5, counterexample: a figure of one trace of type scatter that carries
    neither x nor y (nor any other array) yields no table. *)
Lemma empty_scatter_trace_dropped :
  data figEmptyScatter = Some [xyTrace (Some "scatter") None VUndef VUndef]
  /\ In "scatter" cartesianTypes
  /\ exampleExtractTables figEmptyScatter defaultOptions = Ok [].
Proof.
  split; [reflexivity|]. split; [left; reflexivity | reflexivity].
Qed.

Lemma dispatch_one_table_per_trace_witness :
  Forall (fun t => hasConverter t = true) (nullish (data figTwoSeriesAndPie) [])
  /\ exists tabs,
       exampleExtractTables figTwoSeriesAndPie defaultOptions = Ok tabs
       /\ List.length tabs = 3%nat.
Proof.
  assert (Hc : Forall (fun t => hasConverter t = true) (nullish (data figTwoSeriesAndPie) []))
    by (repeat constructor).
  split; [exact Hc|].
  destruct (dispatch_one_table_per_trace exampleNumberToString exampleDateToString
              exampleDateToISOString exampleDateParse figTwoSeriesAndPie defaultOptions
              (nullish (data figTwoSeriesAndPie) []) eq_refl eq_refl Hc)
    as (tabs & Hout & Hlen & _).
  { intros k t Hk. destruct k as [|[|[|k]]]; cbn in Hk;
      try (destruct k; discriminate Hk); injection Hk as <-; eexists; reflexivity. }
  exists tabs. split; [exact Hout | exact Hlen].
Defined.

(** ** Padding *)

Lemma tables_padded_witness :
  exists tabs,
    exampleExtractTables figRagged mergeOptions = Ok tabs
    /\ List.length tabs = 2%nat
    /\ forall t, In t tabs -> uniformLength t.
Proof.
  destruct (exampleExtractTables figRagged mergeOptions) as [tabs|e] eqn:Hout.
  - exists tabs. split; [reflexivity|]. split.
    + vm_compute in Hout. injection Hout as <-. reflexivity.
    + destruct (tables_padded exampleNumberToString exampleDateToString
                  exampleDateToISOString exampleDateParse) as (_ & _ & _ & H4).
      exact (H4 figRagged mergeOptions tabs Hout).
  - vm_compute in Hout. discriminate Hout.
Defined.

(** ** Decoding *)

Lemma decode_roundtrip_witness :
  Forall (representable I2) [Int (-2); Int 300]
  /\ decodeNdarray "i2" "/v8sAQ==" = Ok [VNum (Int (-2)); VNum (Int 300)]
  /\ Forall (representable F8) [Int 1; Frac (-3) 1; NaN]
  /\ decodeNdarray "f8" "AAAAAAAA8D8AAAAAAAD4vwAAAAAAAPh/"
     = Ok [VNum (Int 1); VNum (Frac (-3) 1); VNum NaN].
Proof.
  assert (H1 : Forall (representable I2) [Int (-2); Int 300])
    by (repeat constructor; eexists; reflexivity).
  assert (H2 : Forall (representable F8) [Int 1; Frac (-3) 1; NaN])
    by (repeat constructor; eexists; reflexivity).
  split; [exact H1|]. split; [exact (decode_roundtrip I2 [Int (-2); Int 300] H1)|].
  split; [exact H2|].
  exact (decode_roundtrip F8 [Int 1; Frac (-3) 1; NaN] H2).
Defined.

(** ** Date coercion *)

Lemma coerceDates_idempotent_witness :
  maybeDate exampleDateParse (VNum (Int 1600000000)) = VDate 1600000000
  /\ maybeDate exampleDateParse (VNum (Int 1600000000000)) = VNum (Int 1600000000000)
  /\ coerceDatesPass exampleDateParse "x"
       (coerceDatesPass exampleDateParse "x" [tableXY "y" [1600000000; 5] [1; 2]])
     = coerceDatesPass exampleDateParse "x" [tableXY "y" [1600000000; 5] [1; 2]].
Proof.
  destruct (coerceDates_idempotent exampleDateParse) as (Hidem & _ & Hnum & _ & _).
  split; [exact (Hnum (Int 1600000000))|].
  split; [exact (Hnum (Int 1600000000000))|].
  exact (Hidem "x" [tableXY "y" [1600000000; 5] [1; 2]]).
Defined.

(* ================================================================== *)
(** * The further properties on concrete inputs *)

(** ** Base64 and the decoder *)

Lemma base64_lenient_decoding_witness :
  base64ToBytes "A Q" = Ok [x01] /\ base64ToBytes "AQ==" = Ok [x01].
Proof.
  split.
  - apply (base64_lenient_decoding [x01] "A Q"). right. reflexivity.
  - apply (base64_lenient_decoding [x01] "AQ=="). left. reflexivity.
Defined.

Lemma malformed_base64_rejected_witness :
  (base64ToBytes "AAAAA" = Err InvalidCharacterError
   /\ forall dtype, decodeNdarray dtype "AAAAA" = Err InvalidCharacterError)
  /\ (base64ToBytes "AA*A" = Err InvalidCharacterError
      /\ forall dtype, decodeNdarray dtype "AA*A" = Err InvalidCharacterError).
Proof.
  split.
  - apply (malformed_base64_rejected "AAAAA"). left. reflexivity.
  - apply (malformed_base64_rejected "AA*A"). right. exists "*"%char.
    split; [right; right; left; reflexivity|]. split; reflexivity.
Defined.

Lemma decoded_size_bound_witness :
  base64ToBytes "AQID" = Ok [x01; x02; x03]
  /\ (4 * List.length [x01; x02; x03] <= 3 * String.length "AQID")%nat.
Proof.
  split; [reflexivity|]. apply (decoded_size_bound "AQID" [x01; x02; x03]). reflexivity.
Defined.

Lemma decoded_integers_in_range_witness :
  decodeNdarray "i1" "/38=" = Ok [VNum (Int (-1)); VNum (Int 127)]
  /\ Forall (fun v => exists z, v = VNum (Int z) /\ intInRange I1 z = true)
            [VNum (Int (-1)); VNum (Int 127)].
Proof.
  split; [reflexivity|].
  apply (decoded_integers_in_range I1 "/38="); [discriminate|discriminate|reflexivity].
Defined.

Lemma decode_concatenation_witness :
  decodeNdarray "u2" (btoa ([x01; x00] ++ [x02; x00; x03]))
  = let* xs := decodeNdarray "u2" (btoa [x01; x00]) in
    let* ys := decodeNdarray "u2" (btoa [x02; x00; x03]) in
    Ok (xs ++ ys).
Proof.
  apply (decode_concatenation U2 [x01; x00] [x02; x00; x03]). reflexivity.
Defined.

(** ** Shapes, reshaping and transposition *)

Lemma parseShape_reads_decimal_text_witness :
  shapeText ", " [2; 3] = "2, 3"
  /\ parseShape (ShapeString (shapeText ", " [2; 3])) = Some [2; 3]
  /\ parseShape (ShapeString (shapeText " " [-1; 120])) = Some [-1; 120].
Proof.
  split; [reflexivity|]. split.
  - apply (parseShape_reads_decimal_text ", " [2; 3]);
      [discriminate|discriminate|repeat constructor|repeat constructor; lia].
  - apply (parseShape_reads_decimal_text " " [-1; 120]);
      [discriminate|discriminate|repeat constructor|repeat constructor; lia].
Defined.

Lemma blank_shape_gives_single_row_witness :
  parseShape (ShapeString " , ") = Some []
  /\ ndarrayMatrix (ints [1; 2; 3; 4]) (ShapeString " , ") 2 2 = Ok [ints [1; 2; 3; 4]].
Proof.
  apply (blank_shape_gives_single_row " , " (ints [1; 2; 3; 4]) 2 2);
    [discriminate|repeat constructor].
Defined.

Lemma reshape2D_rows_witness :
  reshape2DNumber [1; 2; 3; 4; 5; 6] (Frac 5 1) (Int 2) = Err RangeError
  /\ reshape2DNumber [1; 2; 3; 4; 5; 6] (Int 2) (Int 3) = Ok [[1; 2; 3]; [4; 5; 6]]
  /\ reshape2DNumber [1; 2; 3; 4; 5; 6] (Int 2) (Frac 3 1) = Ok [[1]; [2; 3]].
Proof.
  split; [|split; [|reflexivity]].
  - apply (proj1 (reshape2D_rows [1; 2; 3; 4; 5; 6] (Frac 5 1) (Int 2))).
    split; [discriminate|]. intros r _. discriminate.
  - destruct (reshape2D_rows [1; 2; 3; 4; 5; 6] (Int 2) (Int 3)) as (_ & _ & _ & Hint & _).
    rewrite (Hint 2 3 eq_refl eq_refl eq_refl). reflexivity.
Defined.

Lemma transpose_involutive_witness :
  rectangular 3 2 (transpose [ints [1; 2; 3]; ints [4; 5; 6]])
  /\ transpose (transpose [ints [1; 2; 3]; ints [4; 5; 6]])
     = [ints [1; 2; 3]; ints [4; 5; 6]].
Proof.
  apply (transpose_involutive [ints [1; 2; 3]; ints [4; 5; 6]] 2 3); [lia|lia|].
  split; [reflexivity|repeat constructor].
Defined.

(** ** Heat maps *)

Lemma labelled_heatmap_grid_witness :
  exists tab,
    fromHeatmapLike exampleNumberToString exampleDateToString (figureOf [])
      (heatTrace (VArr labels3) (VArr labels2)
                 (VArr [VArr (ints [5]); VArr (ints [6; 7; 8; 9])])) = Ok tab
    /\ List.length (columns tab) = 4%nat
    /\ Forall (fun c => List.length (values c) = 2%nat) (columns tab).
Proof.
  eexists. split; [reflexivity|].
  destruct (labelled_heatmap_grid exampleNumberToString exampleDateToString (figureOf [])
              (heatTrace (VArr labels3) (VArr labels2)
                         (VArr [VArr (ints [5]); VArr (ints [6; 7; 8; 9])]))
              labels3 labels2 _ eq_refl eq_refl ltac:(discriminate) ltac:(discriminate)
              eq_refl) as (_ & Hn & Hl).
  split; [exact Hn|exact Hl].
Defined.

Lemma nested_heatmap_columns_witness :
  exists tab,
    fromHeatmapLike exampleNumberToString exampleDateToString (figureOf [])
      (heatTrace (VArr [VStr "c1"; VStr "c2"]) (VArr [VStr "r1"])
                 (VArr [VArr (ints [5; 6])])) = Ok tab
    /\ columns tab = [ {| name := "y"; values := [VStr "r1"] |};
                       {| name := "c1"; values := ints [5] |};
                       {| name := "c2"; values := ints [6] |} ].
Proof.
  apply (nested_heatmap_columns exampleNumberToString exampleDateToString (figureOf [])
           (heatTrace (VArr [VStr "c1"; VStr "c2"]) (VArr [VStr "r1"])
                      (VArr [VArr (ints [5; 6])]))
           [VStr "c1"; VStr "c2"] [VStr "r1"] [ints [5; 6]]);
    try reflexivity; try discriminate.
  split; [reflexivity|repeat constructor].
Defined.

Lemma unlabelled_heatmap_columns_witness :
  exists tab,
    fromHeatmapLike exampleNumberToString exampleDateToString (figureOf [])
      (heatTrace VUndef VUndef (VArr [VArr (ints [5; 6]); VArr (ints [7; 8])])) = Ok tab
    /\ columns tab = [ {| name := "y"; values := ints [0; 1] |};
                       {| name := "col_0"; values := ints [5; 7] |};
                       {| name := "col_1"; values := ints [6; 8] |} ].
Proof.
  apply (unlabelled_heatmap_columns exampleNumberToString exampleDateToString (figureOf [])
           (heatTrace VUndef VUndef (VArr [VArr (ints [5; 6]); VArr (ints [7; 8])]))
           [ints [5; 6]; ints [7; 8]] 2 2);
    try reflexivity; [|lia].
  split; [reflexivity|repeat constructor].
Defined.

Lemma binary_heatmap_row_major_witness :
  decodeNdarray "u1" "AQIDBAUG" = Ok (ints [1; 2; 3; 4; 5; 6])
  /\ exists tab,
       fromHeatmapLike exampleNumberToString exampleDateToString (figureOf [])
         (heatTrace (VArr labels3) (VArr labels2) (VNdarray "u1" "AQIDBAUG" ShapeAbsent))
       = Ok tab
       /\ columns tab = [ {| name := "y"; values := labels2 |};
                          {| name := "c1"; values := ints [1; 4] |};
                          {| name := "c2"; values := ints [2; 5] |};
                          {| name := "c3"; values := ints [3; 6] |} ].
Proof.
  split; [reflexivity|].
  apply (binary_heatmap_row_major exampleNumberToString exampleDateToString (figureOf [])
           (heatTrace (VArr labels3) (VArr labels2) (VNdarray "u1" "AQIDBAUG" ShapeAbsent))
           labels3 labels2 "u1" "AQIDBAUG" ShapeAbsent (ints [1; 2; 3; 4; 5; 6]));
    try reflexivity; try discriminate.
  left. reflexivity.
Defined.

Lemma binary_heatmap_transposed_witness :
  exists tab,
    fromHeatmapLike exampleNumberToString exampleDateToString (figureOf [])
      (heatTrace (VArr labels3) (VArr labels2)
                 (VNdarray "u1" "AQIDBAUG" (ShapeArray [3; 2])))
    = Ok tab
    /\ columns tab = [ {| name := "y"; values := labels2 |};
                       {| name := "c1"; values := ints [1; 2] |};
                       {| name := "c2"; values := ints [3; 4] |};
                       {| name := "c3"; values := ints [5; 6] |} ].
Proof.
  apply (binary_heatmap_transposed exampleNumberToString exampleDateToString (figureOf [])
           (heatTrace (VArr labels3) (VArr labels2)
                      (VNdarray "u1" "AQIDBAUG" (ShapeArray [3; 2])))
           labels3 labels2 "u1" "AQIDBAUG" (ShapeArray [3; 2]) (ints [1; 2; 3; 4; 5; 6]));
    try reflexivity; try discriminate.
Defined.

(** ** Converters and the main loop *)

Lemma fallback_dumps_present_members_witness :
  isAsciiString "Scatter" = true
  /\ hasConverter capitalScatter = false
  /\ exampleTraceTable (figureOf [capitalScatter]) defaultOptions 1 capitalScatter
     = Ok (Some {| title := Some "scatter";
                   columns := [ {| name := "x"; values := ints [1; 2] |};
                                {| name := "y"; values := ints [3; 4] |} ];
                   meta := Some [("traceType", VStr "scatter")] |}).
Proof.
  split; [reflexivity|]. split; [reflexivity|].
  pose proof (fallback_dumps_present_members exampleNumberToString exampleDateToString
                (figureOf [capitalScatter]) defaultOptions 1 capitalScatter eq_refl eq_refl)
    as W.
  cbv zeta in W.
  destruct (exampleTraceTable (figureOf [capitalScatter]) defaultOptions 1 capitalScatter)
    as [[tab|]|e] eqn:E; [|discriminate E..].
  destruct W as (_ & raw & Hraw & ->).
  inversion Hraw as [|c0 kv0 raw0 rest0 [Hn0 Hv0] Hraw0]; subst.
  inversion Hraw0 as [|c1 kv1 raw1 rest1 [Hn1 Hv1] Hraw1]; subst.
  inversion Hraw1; subst.
  destruct c0 as [n0 v0], c1 as [n1 v1]. cbn in Hn0, Hv0, Hn1, Hv1.
  injection Hv0 as <-. injection Hv1 as <-. subst n0 n1. reflexivity.
Defined.

Lemma long_form_pairs_witness :
  exists tab,
    fromCartesian (figureOf [])
      (xyTrace (Some "scatter") None (VArr [VStr "a"; VStr "b"])
               (VArr [VArr (ints [1; 2]); VArr (ints [3])]))
      "y_1" defaultOptions = Ok tab
    /\ columns tab = [ {| name := "x"; values := [VStr "a"; VStr "a"; VStr "b"] |};
                       {| name := "y_1"; values := ints [1; 2; 3] |} ]
    /\ meta tab = Some [("traceType", VStr "scatter"); ("longForm", VBool true)].
Proof.
  apply (long_form_pairs (figureOf [])
           (xyTrace (Some "scatter") None (VArr [VStr "a"; VStr "b"])
                    (VArr [VArr (ints [1; 2]); VArr (ints [3])]))
           "y_1" defaultOptions [VStr "a"; VStr "b"] [ints [1; 2]; ints [3]]);
    [reflexivity|reflexivity|discriminate].
Defined.

Lemma table_trace_columns_witness :
  exists tab,
    fromTableTrace exampleNumberToString exampleDateToString
      (tableTrace (VArr [VStr "A"; VStr "B"])
                  (VArr [VArr (ints [1; 2]); VArr (ints [3])])) = Ok tab
    /\ map name (columns tab) = ["A"; "col_2"]
    /\ map values (columns tab) = [ints [1; 2]; ints [3] ++ [VNull]].
Proof.
  destruct (table_trace_columns exampleNumberToString exampleDateToString
              (tableTrace (VArr [VStr "A"; VStr "B"])
                          (VArr [VArr (ints [1; 2]); VArr (ints [3])]))
              [VStr "A"; VStr "B"] [VStr "A"]
              [VArr (ints [1; 2]); VArr (ints [3])] [ints [1; 2]; ints [3]]
              eq_refl eq_refl eq_refl eq_refl ltac:(discriminate)) as (tab & Ht & _ & _).
  exists tab. split; [exact Ht|].
  vm_compute in Ht. injection Ht as <-. split; reflexivity.
Defined.

(** ** Merge *)

Lemma merge_of_aligned_series_witness :
  columns (exampleMerge [tableXY "yA" [1; 2; 3] [10; 20; 30];
                         tableXY "yB" [1; 2; 3] [7; 8; 9]] "x")
  = [ {| name := "x"; values := ints [1; 2; 3] |};
      {| name := "yA"; values := ints [10; 20; 30] |};
      {| name := "yB"; values := ints [7; 8; 9] |} ].
Proof.
  apply (merge_of_aligned_series exampleNumberToString exampleDateToString
           exampleDateToISOString
           [tableXY "yA" [1; 2; 3] [10; 20; 30]; tableXY "yB" [1; 2; 3] [7; 8; 9]]
           [ {| name := "yA"; values := ints [10; 20; 30] |};
             {| name := "yB"; values := ints [7; 8; 9] |} ]
           "x" (ints [1; 2; 3])).
  - discriminate.
  - cbn. repeat constructor; cbn; intros H;
      repeat (destruct H as [H | H]; [discriminate H|]); exact H.
  - repeat constructor.
  - cbn. repeat constructor; cbn; intros H;
      repeat (destruct H as [H | H]; [discriminate H|]); exact H.
  - cbn. intros H. repeat (destruct H as [H | H]; [discriminate H|]). exact H.
  - repeat constructor.
Defined.

Lemma integer_named_series_precede_key_witness :
  exists c n rest,
    columns (exampleMerge [tableXY "2020" [1; 2] [5; 6]] "x") = c :: rest
    /\ arrayIndex (name c) = Some n
    /\ name c <> "x"
    /\ In "x" (map name rest).
Proof.
  apply (integer_named_series_precede_key exampleNumberToString exampleDateToString
           exampleDateToISOString [tableXY "2020" [1; 2] [5; 6]] "x" "2020").
  - reflexivity.
  - left. reflexivity.
  - discriminate.
Defined.

(** ** Headers *)

Lemma special_trace_headers_witness :
  exists tab,
    exampleTraceTable (figureOf []) defaultOptions 1
      (pieTrace (VArr [VStr "a"; VStr "b"]) (VArr (ints [1; 2]))) = Ok (Some tab)
    /\ map name (columns tab) = ["label"; "value"].
Proof.
  eexists. split; [reflexivity|].
  destruct (special_trace_headers exampleNumberToString exampleDateToString (figureOf [])
              defaultOptions 1 (pieTrace (VArr [VStr "a"; VStr "b"]) (VArr (ints [1; 2])))
              _ eq_refl) as (Hpie & _).
  destruct (Hpie eq_refl) as (parents & Hp & Hn).
  injection Hp as <-. exact Hn.
Defined.

Lemma cartesian_table_contents_witness :
  exampleTraceTable (figureWithYTitle "Sales" []) defaultOptions 1
    (xyTrace (Some "bar") (Some "") (VArr (ints [1; 2; 3])) (VArr (ints [10])))
  = Ok (Some {| title := Some "bar";
                columns := [ {| name := "x"; values := ints [1; 2; 3] |};
                             {| name := "Sales"; values := ints [10] ++ [VNull; VNull] |} ];
                meta := Some [("traceType", VStr "bar")] |}).
Proof.
  apply (cartesian_table_contents exampleNumberToString exampleDateToString
           (figureWithYTitle "Sales" []) defaultOptions 1
           (xyTrace (Some "bar") (Some "") (VArr (ints [1; 2; 3])) (VArr (ints [10])))
           (ints [1; 2; 3]) (ints [10]) eq_refl eq_refl eq_refl).
  intros sub rest H. discriminate H.
Defined.

Lemma merge_without_key_columns_witness :
  exampleMerge [ {| title := None;
                    columns := [ {| name := "label"; values := [VStr "a"] |};
                                 {| name := "value"; values := ints [1] |} ];
                    meta := None |} ] "x"
  = {| title := Some "merged_cartesian";
       columns := [ {| name := "x"; values := [] |} ];
       meta := Some [("merged", VBool true)] |}.
Proof.
  apply (merge_without_key_columns exampleNumberToString exampleDateToString
           exampleDateToISOString).
  repeat constructor.
Defined.

(** ** Coercion *)

Lemma coercion_only_rewrites_key_cells_witness :
  exampleExtractTables figEpoch coercingOptions
  = Ok [ {| title := Some "s";
            columns := [ {| name := "x";
                            values := [VDate 1600000000; VDate 1600003600] |};
                         {| name := "s"; values := ints [1600000000; 7] |} ];
            meta := Some [("traceType", VStr "scatter")] |} ]
  /\ exampleExtractTables figEpoch coercingOptions
     = (let* tabs := exampleExtractTables figEpoch defaultOptions in
        Ok (map (coerceTable exampleDateParse "x") tabs)).
Proof.
  split; [reflexivity|].
  exact (proj1 (coercion_only_rewrites_key_cells exampleNumberToString exampleDateToString
                  exampleDateToISOString exampleDateParse figEpoch defaultOptions
                  coercingOptions eq_refl eq_refl eq_refl eq_refl eq_refl eq_refl)).
Defined.
